(** * libusbg: the configfs synchronisation engine of [src/usbg.c]

    A shallow embedding of the library's C code.  C strings are Rocq
    strings, [int] values are [Z], the object graph lives in an explicit
    heap whose TAILQ links are modelled pointer by pointer, and the
    filesystem is an explicit tree threaded through every call. *)

From Stdlib Require Import ZArith String Ascii List Lia Bool.
From Stdlib Require Import DecimalString HexadecimalString.
From Stdlib Require Import DecimalPos DecimalN DecimalZ HexadecimalPos HexadecimalN.
From stdpp Require Import base option list gmap strings.

Open Scope string_scope.
Open Scope list_scope.
Open Scope Z_scope.

(** ** Constants of the build platform and of [usbg/usbg.h] *)

(** The sizes of the two bounded buffers come from the public header, and
    the width of [long] from the ABI; the code is modelled for any choice. *)
Class Platform := {
  USBG_MAX_PATH_LENGTH : nat;
  USBG_MAX_STR_LENGTH : nat;
  LONG_BITS : Z
}.

(** Modelled from the spec: the enumeration [usbg_error] of
    [include/usbg/usbg.h], which is not among the sources.  The spec fixes
    the taxonomy and that success is zero and every error negative. *)
Inductive usbg_error :=
  | USBG_SUCCESS
  | USBG_ERROR_NO_MEM
  | USBG_ERROR_NO_ACCESS
  | USBG_ERROR_INVALID_PARAM
  | USBG_ERROR_NOT_FOUND
  | USBG_ERROR_IO
  | USBG_ERROR_EXIST
  | USBG_ERROR_NO_DEV
  | USBG_ERROR_BUSY
  | USBG_ERROR_NOT_SUPPORTED
  | USBG_ERROR_PATH_TOO_LONG
  | USBG_ERROR_OTHER_ERROR.

#[global] Instance usbg_error_eq_dec : EqDecision usbg_error.
Proof. solve_decision. Defined.

Definition usbg_error_code (e : usbg_error) : Z :=
  match e with
  | USBG_SUCCESS => 0
  | USBG_ERROR_NO_MEM => -1
  | USBG_ERROR_NO_ACCESS => -2
  | USBG_ERROR_INVALID_PARAM => -3
  | USBG_ERROR_NOT_FOUND => -4
  | USBG_ERROR_IO => -5
  | USBG_ERROR_EXIST => -6
  | USBG_ERROR_NO_DEV => -7
  | USBG_ERROR_BUSY => -8
  | USBG_ERROR_NOT_SUPPORTED => -9
  | USBG_ERROR_PATH_TOO_LONG => -10
  | USBG_ERROR_OTHER_ERROR => -99
  end.

(** Linux [errno] numbers used by the library. *)
Definition EPERM : Z := 1.
Definition ENOENT : Z := 2.
Definition EIO : Z := 5.
Definition ENOMEM : Z := 12.
Definition EACCES : Z := 13.
Definition EBUSY : Z := 16.
Definition EEXIST : Z := 17.
Definition ENODEV : Z := 19.
Definition ENOTDIR : Z := 20.
Definition EISDIR : Z := 21.
Definition EINVAL : Z := 22.
Definition EROFS : Z := 30.
Definition ERANGE : Z := 34.
Definition ENOTEMPTY : Z := 39.

Definition DEFAULT_CONFIG_LABEL : string := "config".
Definition LANG_US_ENG : Z := 1033.
Definition STRINGS_DIR : string := "strings".
Definition CONFIGS_DIR : string := "configs".
Definition FUNCTIONS_DIR : string := "functions".

(** ** C string primitives *)

Definition strcmp (a b : string) : Z :=
  match String.compare a b with
  | Lt => -1
  | Eq => 0
  | Gt => 1
  end.

(** [strchr s c]: offset of the first [c] in [s], [None] for a null result. *)
Fixpoint strchr (s : string) (c : ascii) : option nat :=
  match s with
  | EmptyString => None
  | String x r =>
      if Ascii.eqb x c then Some O
      else match strchr r c with
           | Some i => Some (S i)
           | None => None
           end
  end.

(** [strrchr s c]: offset of the last [c] in [s]. *)
Fixpoint strrchr (s : string) (c : ascii) : option nat :=
  match s with
  | EmptyString => None
  | String x r =>
      match strrchr r c with
      | Some i => Some (S i)
      | None => if Ascii.eqb x c then Some O else None
      end
  end.

(** [strndup s n]: a copy of the first [n] characters. *)
Fixpoint strndup (s : string) (n : nat) {struct n} : string :=
  match n, s with
  | S m, String x r => String x (strndup r m)
  | _, _ => EmptyString
  end.

(** [s + n] on a [char *]: the string that starts [n] characters in. *)
Fixpoint str_from (s : string) (n : nat) {struct n} : string :=
  match n, s with
  | S m, String _ r => str_from r m
  | _, _ => s
  end.

(** The first character, ["000"] at the terminator. *)
Definition str_head (s : string) : ascii :=
  match s with
  | EmptyString => "000"%char
  | String x _ => x
  end.

Definition isspace (c : ascii) : bool :=
  let n := nat_of_ascii c in
  (n =? 32)%nat || ((9 <=? n)%nat && (n <=? 13)%nat).

Definition isdigit (c : ascii) : bool :=
  let n := nat_of_ascii c in (48 <=? n)%nat && (n <=? 57)%nat.

(** ** ErrorTranslator *)

Definition usbg_translate_error (error : Z) : usbg_error :=
  if (error =? ENOMEM) then USBG_ERROR_NO_MEM
  else if (error =? EACCES) || (error =? EROFS) || (error =? EPERM)
  then USBG_ERROR_NO_ACCESS
  else if (error =? ENOENT) || (error =? ENOTDIR) then USBG_ERROR_NOT_FOUND
  else if (error =? EINVAL)
          || (error =? usbg_error_code USBG_ERROR_INVALID_PARAM)
  then USBG_ERROR_INVALID_PARAM
  else if (error =? EIO) then USBG_ERROR_IO
  else if (error =? EEXIST) then USBG_ERROR_EXIST
  else if (error =? ENODEV) then USBG_ERROR_NO_DEV
  else if (error =? EBUSY) then USBG_ERROR_BUSY
  else USBG_ERROR_OTHER_ERROR.

(** ** The function-type table *)

Definition F_SERIAL : Z := 0.
Definition F_ACM : Z := 1.
Definition F_OBEX : Z := 2.
Definition F_ECM : Z := 3.
Definition F_SUBSET : Z := 4.
Definition F_NCM : Z := 5.
Definition F_EEM : Z := 6.
Definition F_RNDIS : Z := 7.
Definition F_PHONET : Z := 8.

Definition function_names : list string :=
  ["gser"; "acm"; "obex"; "ecm"; "geth"; "ncm"; "eem"; "rndis"; "phonet"].

(** The [do ... while (i != max)] scan: the index at which it stops. *)
Fixpoint lookup_scan (names : list string) (name : string) (i : Z) : Z :=
  match names with
  | [] => i
  | n :: rest =>
      if String.eqb name n then i else lookup_scan rest name (i + 1)
  end.

Definition usbg_lookup_function_type (name : string) : Z :=
  let max := Z.of_nat (length function_names) in
  let i := lookup_scan function_names name 0 in
  if i =? max then -1 else i.

(** [type > 0 && type < sizeof(function_names)/sizeof(char * )]; [None] is
    the null pointer.  The second comparison is unsigned, which changes
    nothing once the first has passed. *)
Definition usbg_get_function_type_str (type : Z) : option string :=
  if (0 <? type) && (type <? Z.of_nat (length function_names))
  then function_names !! Z.to_nat type
  else None.

(** ** Composite on-disk names *)

(** Result of [usbg_split_function_instance_type]: the return code and the
    two output parameters, [None] where the call left one unwritten. *)
Record split_function := {
  sf_ret : usbg_error;
  sf_type : option Z;
  sf_instance : option string
}.

(** [strndup] and [free] are modelled without allocation failure, here and
    in the allocators below. *)
Definition usbg_split_function_instance_type (full_name : string)
  : split_function :=
  match strchr full_name "." with
  | None => Build_split_function USBG_ERROR_INVALID_PARAM None None
  | Some dot =>
      if (dot =? 0)%nat
         || Ascii.eqb (str_head (str_from full_name (S dot))) "000"
      then Build_split_function USBG_ERROR_INVALID_PARAM None None
      else
        let instance := str_from full_name (S dot) in
        let type_name := strndup full_name dot in
        let f_type_ret := usbg_lookup_function_type type_name in
        if 0 <=? f_type_ret
        then Build_split_function USBG_SUCCESS (Some f_type_ret)
               (Some instance)
        else Build_split_function USBG_ERROR_NOT_SUPPORTED None
               (Some instance)
  end.

(** *** [strtol] in base ten *)

Fixpoint skip_space (s : string) : nat :=
  match s with
  | String x r => if isspace x then S (skip_space r) else O
  | EmptyString => O
  end.

(** Value and length of the longest prefix of decimal digits. *)
Fixpoint scan_digits (s : string) (acc : Z) : Z * nat :=
  match s with
  | String x r =>
      if isdigit x
      then let '(v, n) := scan_digits r (10 * acc + (Z.of_nat (nat_of_ascii x) - 48)) in
           (v, S n)
      else (acc, O)
  | EmptyString => (acc, O)
  end.

Record strtol_result := {
  st_value : Z;     (* the [long] returned *)
  st_end : nat;     (* offset of [endptr] from [nptr] *)
  st_errno : Z      (* [errno] after the call, zero when left clear *)
}.

Definition LONG_MAX `{Platform} : Z := 2 ^ (LONG_BITS - 1) - 1.
Definition LONG_MIN `{Platform} : Z := - 2 ^ (LONG_BITS - 1).

Definition strtol10 `{Platform} (nptr : string) : strtol_result :=
  let sp := skip_space nptr in
  let s1 := str_from nptr sp in
  let '(neg, sg) :=
    match s1 with
    | String "-" _ => (true, 1%nat)
    | String "+" _ => (false, 1%nat)
    | _ => (false, O)
    end in
  let '(v, n) := scan_digits (str_from s1 sg) 0 in
  match n with
  | O => Build_strtol_result 0 O 0
  | _ =>
      let e := (sp + sg + n)%nat in
      let sv := if neg then - v else v in
      if LONG_MAX <? sv then Build_strtol_result LONG_MAX e ERANGE
      else if sv <? LONG_MIN then Build_strtol_result LONG_MIN e ERANGE
      else Build_strtol_result sv e 0
  end.

(** Conversion of a [long] to the 32-bit [int] that receives it. *)
Definition int_of_long (z : Z) : Z :=
  (z + 2 ^ 31) mod 2 ^ 32 - 2 ^ 31.

(** [usbg_split_config_label_id]: the [int] returned (an id or a negative
    error code) and the value left in [*label], which the caller passes in
    null. *)
Definition usbg_split_config_label_id `{Platform} (full_name : string)
  : Z * option string :=
  match strrchr full_name "." with
  | None => (usbg_error_code USBG_ERROR_INVALID_PARAM, None)
  | Some dot =>
      let id_string := str_from full_name (S dot) in
      if (dot =? 0)%nat
         || Ascii.eqb (str_head id_string) "000"
         || isspace (str_head id_string)
      then (usbg_error_code USBG_ERROR_INVALID_PARAM, None)
      else
        let label := strndup full_name dot in
        let r := strtol10 id_string in
        let ret := int_of_long (st_value r) in
        if negb (st_errno r =? 0)
        then (usbg_error_code (usbg_translate_error (st_errno r)), None)
        else if negb (Ascii.eqb (str_head (str_from id_string (st_end r))) "000")
                || (ret <? 0) || (255 <? ret)
        then (usbg_error_code USBG_ERROR_INVALID_PARAM, Some label)
        else (ret, Some label)
  end.

Definition linux64 : Platform :=
  {| USBG_MAX_PATH_LENGTH := 256; USBG_MAX_STR_LENGTH := 256; LONG_BITS := 64 |}.


(** ** Formatting *)

(** What [snprintf(buf, size, ...)] leaves in [buf] and what it returns,
    given the text the format expands to. *)
Definition snprintf (size : nat) (text : string) : string * Z :=
  (strndup text (size - 1), Z.of_nat (String.length text)).

Definition fmt_d (v : Z) : string :=
  DecimalString.NilZero.string_of_int (Z.to_int v).

(** [%x] prints the [unsigned int] with the same 32 bits. *)
Definition fmt_x (v : Z) : string :=
  HexadecimalString.NilZero.string_of_uint
    (N.to_hex_uint (Z.to_N (v mod 2 ^ 32))).

Fixpoint zeros (n : nat) : string :=
  match n with
  | O => ""
  | S m => String "0" (zeros m)
  end.

(** [%0<w>x]. *)
Definition fmt_0x (w : nat) (v : Z) : string :=
  let h := fmt_x v in zeros (w - String.length h) +:+ h.

Definition nl : string := String "010" "".

Definition path2 (a b : string) : string := a +:+ "/" +:+ b.
Definition path3 (a b c : string) : string := a +:+ "/" +:+ b +:+ "/" +:+ c.
(** ["%s/%s/%s/0x%x"] with [STRINGS_DIR] in third place. *)
Definition strings_path (p n : string) (lang : Z) : string :=
  p +:+ "/" +:+ n +:+ "/" +:+ STRINGS_DIR +:+ "/0x" +:+ fmt_x lang.

(** ** The filesystem *)

Inductive fnode :=
  | FDir
  | FFile (content : string)
  | FLink (target : string).

#[global] Instance fnode_eq_dec : EqDecision fnode.
Proof. solve_decision. Defined.

(** A file name as the kernel sees it: the components between slashes.
    Empty components vanish, so ["a//b"] and ["a/b/"] name ["a/b"]; paths
    are absolute and the library never composes ["."] or [".."]. *)
Fixpoint components (s cur : string) : list string :=
  match s with
  | EmptyString => if String.eqb cur "" then [] else [cur]
  | String x r =>
      if Ascii.eqb x "/"
      then (if String.eqb cur "" then [] else [cur]) ++ components r ""
      else components r (cur +:+ String x "")
  end.

Definition parse_path (s : string) : list string := components s "".

(** The tree, the place where configfs keeps its gadgets (the kernel fills
    in directories made there), and the attribute files whose next store
    the kernel refuses, with the [errno] it answers. *)
Record filesys := {
  fs_nodes : gmap (list string) fnode;
  fs_gadget_root : option (list string);
  fs_refuse : gmap (list string) Z
}.

Definition fs_with_nodes (fs : filesys) (n : gmap (list string) fnode)
  : filesys :=
  {| fs_nodes := n; fs_gadget_root := fs_gadget_root fs;
     fs_refuse := fs_refuse fs |}.

(** The root directory always exists. *)
Definition fs_lookup (fs : filesys) (k : list string) : option fnode :=
  match k with
  | [] => Some FDir
  | _ => fs_nodes fs !! k
  end.

Definition parent (k : list string) : list string := removelast k.

(** [strip k key]: what follows [k] in [key]. *)
Fixpoint strip (k key : list string) : option (list string) :=
  match k, key with
  | [], _ => Some key
  | a :: k', b :: key' => if String.eqb a b then strip k' key' else None
  | _ :: _, [] => None
  end.

Definition gadget_skeleton : list (list string * fnode) :=
  [ (["UDC"], FFile nl);
    (["bcdUSB"], FFile ("0x0200" +:+ nl));
    (["bcdDevice"], FFile ("0x0000" +:+ nl));
    (["bDeviceClass"], FFile ("0x00" +:+ nl));
    (["bDeviceSubClass"], FFile ("0x00" +:+ nl));
    (["bDeviceProtocol"], FFile ("0x00" +:+ nl));
    (["bMaxPacketSize0"], FFile ("0x40" +:+ nl));
    (["idVendor"], FFile ("0x0000" +:+ nl));
    (["idProduct"], FFile ("0x0000" +:+ nl));
    ([FUNCTIONS_DIR], FDir);
    ([CONFIGS_DIR], FDir);
    ([STRINGS_DIR], FDir) ].

Definition config_skeleton : list (list string * fnode) :=
  [ (["MaxPower"], FFile ("2" +:+ nl));
    (["bmAttributes"], FFile ("0x80" +:+ nl));
    ([STRINGS_DIR], FDir) ].

(** What the kernel puts into a directory made at [k]. *)
Definition skeleton (fs : filesys) (k : list string)
  : list (list string * fnode) :=
  match fs_gadget_root fs with
  | None => []
  | Some root =>
      match strip root k with
      | Some [_] => gadget_skeleton
      | Some [_; d; _] =>
          if String.eqb d CONFIGS_DIR then config_skeleton else []
      | _ => []
      end
  end.

Definition populate (k : list string) (sk : list (list string * fnode))
    (n : gmap (list string) fnode) : gmap (list string) fnode :=
  foldr (fun e m => <[k ++ e.1 := e.2]> m) n sk.

(** Every call returns the new tree and [errno], zero for success. *)
Definition fs_mkdir (p : string) (fs : filesys) : filesys * Z :=
  let k := parse_path p in
  match fs_lookup fs k with
  | Some _ => (fs, EEXIST)
  | None =>
      match fs_lookup fs (parent k) with
      | Some FDir =>
          (fs_with_nodes fs
             (populate k (skeleton fs k) (<[k := FDir]> (fs_nodes fs))), 0)
      | Some _ => (fs, ENOTDIR)
      | None => (fs, ENOENT)
      end
  end.

(** The entries below [k], with what follows [k] in their names. *)
Definition below (fs : filesys) (k : list string)
  : list (list string * fnode) :=
  omap (fun e => match strip k e.1 with
                 | Some (x :: r) => Some (x :: r, e.2)
                 | _ => None
                 end) (map_to_list (fs_nodes fs)).

(** [rmdir] takes the kernel's own entries away with the directory and
    refuses when anything else is left inside. *)
Definition fs_rmdir (p : string) (fs : filesys) : filesys * Z :=
  let k := parse_path p in
  match k, fs_lookup fs k with
  | [], _ => (fs, EBUSY)
  | _, None => (fs, ENOENT)
  | _, Some FDir =>
      let sk := (skeleton fs k).*1 in
      let inside := (below fs k).*1 in
      if forallb (fun r => bool_decide (r ∈ sk)) inside
      then (fs_with_nodes fs
              (foldr (fun r m => delete (k ++ r) m)
                     (delete k (fs_nodes fs)) inside), 0)
      else (fs, ENOTEMPTY)
  | _, Some _ => (fs, ENOTDIR)
  end.

Definition fs_unlink (p : string) (fs : filesys) : filesys * Z :=
  let k := parse_path p in
  match k, fs_lookup fs k with
  | [], _ => (fs, EISDIR)
  | _, None => (fs, ENOENT)
  | _, Some FDir => (fs, EISDIR)
  | _, Some _ => (fs_with_nodes fs (delete k (fs_nodes fs)), 0)
  end.

Definition fs_symlink (target linkpath : string) (fs : filesys)
  : filesys * Z :=
  let k := parse_path linkpath in
  match fs_lookup fs k with
  | Some _ => (fs, EEXIST)
  | None =>
      match fs_lookup fs (parent k) with
      | Some FDir => (fs_with_nodes fs (<[k := FLink target]> (fs_nodes fs)), 0)
      | Some _ => (fs, ENOTDIR)
      | None => (fs, ENOENT)
      end
  end.

(** [readlink]: the target, or [errno]. *)
Definition fs_readlink (p : string) (fs : filesys) : Z + string :=
  match fs_lookup fs (parse_path p) with
  | Some (FLink t) => inr t
  | Some _ => inl EINVAL
  | None => inl ENOENT
  end.

(** [opendir] followed by [closedir]: zero, or [errno]. *)
Definition fs_opendir (p : string) (fs : filesys) : Z :=
  match fs_lookup fs (parse_path p) with
  | Some FDir => 0
  | Some _ => ENOTDIR
  | None => ENOENT
  end.

(** [alphasort] under the C locale, in which the library runs unless its
    caller decides otherwise, orders names by [strcmp]. *)
Fixpoint insert_name (e : string * fnode) (l : list (string * fnode))
  : list (string * fnode) :=
  match l with
  | [] => [e]
  | x :: r =>
      if strcmp e.1 x.1 <=? 0 then e :: l else x :: insert_name e r
  end.

Definition alphasort (l : list (string * fnode)) : list (string * fnode) :=
  foldr insert_name [] l.

(** [scandir]: the selected entries in [alphasort] order, or [errno]. *)
Definition fs_scandir (p : string) (select : string * fnode -> bool)
    (fs : filesys) : Z + list (string * fnode) :=
  let k := parse_path p in
  match fs_lookup fs k with
  | Some FDir =>
      inr (alphasort
             (filter (fun e => select e = true)
                (omap (fun e => match e.1 with
                                | [x] => Some (x, e.2)
                                | _ => None
                                end) (below fs k))))
  | Some _ => inl ENOTDIR
  | None => inl ENOENT
  end.

(** [fopen(p, "r")]: the text behind the stream, or [errno].  A directory
    opens and then fails to read. *)
Definition fs_fopen_r (p : string) (fs : filesys) : Z + string :=
  match fs_lookup fs (parse_path p) with
  | Some (FFile c) => inr c
  | Some FDir => inr ""
  | Some (FLink _) => inl ENOENT
  | None => inl ENOENT
  end.

(** The characters [fgets(buf, n, fp)] stores from a fresh stream. *)
Fixpoint line_prefix (m : nat) (s : string) : string :=
  match m, s with
  | S m', String x r =>
      if Ascii.eqb x "010" then String x "" else String x (line_prefix m' r)
  | _, _ => ""
  end.

(** A buffer read as a C string ends at its first terminator. *)
Fixpoint cstr (s : string) : string :=
  match s with
  | String x r => if Ascii.eqb x "000" then "" else String x (cstr r)
  | EmptyString => ""
  end.

(** [None] is the null return, which leaves the buffer alone. *)
Definition fgets (n : nat) (content : string) : option string :=
  match n with
  | O => None
  | S O => Some ""
  | S m => match content with
           | EmptyString => None
           | _ => Some (cstr (line_prefix m content))
           end
  end.

(** [fopen(p, "w")], [fputs], [fflush], [ferror], [fclose]: the stream
    cannot be opened, or the kernel refuses the store and the attribute
    keeps its value, or the text replaces the file's content.  An empty
    text is never sent: [fputs] and [fflush] have nothing to write, so the
    kernel has nothing to refuse and [ferror] finds no error. *)
Inductive write_result :=
  | WriteOk
  | WriteOpenFailed (errno : Z)
  | WriteStoreFailed (errno : Z).

Definition fs_store (k : list string) (text : string) (fs : filesys)
  : filesys * write_result :=
  match text, fs_refuse fs !! k with
  | String _ _, Some e => (fs, WriteStoreFailed e)
  | _, _ => (fs_with_nodes fs (<[k := FFile text]> (fs_nodes fs)), WriteOk)
  end.

Definition fs_fopen_w (p text : string) (fs : filesys)
  : filesys * write_result :=
  let k := parse_path p in
  match fs_lookup fs k with
  | Some FDir => (fs, WriteOpenFailed EISDIR)
  | Some (FLink _) => (fs, WriteOpenFailed ENOENT)
  | Some (FFile _) => fs_store k text fs
  | None =>
      match fs_lookup fs (parent k) with
      | Some FDir => fs_store k text fs
      | Some _ => (fs, WriteOpenFailed ENOTDIR)
      | None => (fs, WriteOpenFailed ENOENT)
      end
  end.

(** ** Tail queues of [<sys/queue.h>]

    A [TAILQ_HEAD] and the [TAILQ_ENTRY] fields of the objects linked into
    it.  A pointer to an object is its address; a pointer to a pointer, as
    in [tqh_last] and [tqe_prev], is the place it points at.  Every object
    is linked through one entry field into the one queue of its parent, so
    the entry fields are kept beside the head they belong to.  An object
    without an entry here has its link fields unwritten, or is freed. *)

Definition addr := nat.

Inductive ptrloc :=
  | HeadFirst                (* [&head->tqh_first] *)
  | ElmNext (a : addr).      (* [&a->field.tqe_next] *)

#[global] Instance ptrloc_eq_dec : EqDecision ptrloc.
Proof. solve_decision. Defined.

Record tailq_entry := {
  tqe_next : option addr;
  tqe_prev : ptrloc
}.

Record tailq := {
  tqh_first : option addr;
  tqh_last : ptrloc;
  tq_links : gmap addr tailq_entry
}.

Definition TAILQ_INIT : tailq :=
  {| tqh_first := None; tqh_last := HeadFirst; tq_links := ∅ |}.

Definition tq_set_first (v : option addr) (q : tailq) : tailq :=
  {| tqh_first := v; tqh_last := tqh_last q; tq_links := tq_links q |}.

Definition tq_set_last (l : ptrloc) (q : tailq) : tailq :=
  {| tqh_first := tqh_first q; tqh_last := l; tq_links := tq_links q |}.

Definition tq_set_entry (a : addr) (e : tailq_entry) (q : tailq) : tailq :=
  {| tqh_first := tqh_first q; tqh_last := tqh_last q;
     tq_links := <[a := e]> (tq_links q) |}.

(** In the operations below [None] is undefined behaviour: a read or a
    write through a null or dangling pointer. *)

(** [a->field.tqe_prev = l]. *)
Definition tq_set_prev (a : addr) (l : ptrloc) (q : tailq) : option tailq :=
  e ← tq_links q !! a;
  Some (tq_set_entry a {| tqe_next := tqe_next e; tqe_prev := l |} q).

(** [*l]. *)
Definition tq_load (l : ptrloc) (q : tailq) : option (option addr) :=
  match l with
  | HeadFirst => Some (tqh_first q)
  | ElmNext a => tqe_next <$> tq_links q !! a
  end.

(** [*l = v]. *)
Definition tq_store (l : ptrloc) (v : option addr) (q : tailq)
  : option tailq :=
  match l with
  | HeadFirst => Some (tq_set_first v q)
  | ElmNext a =>
      e ← tq_links q !! a;
      Some (tq_set_entry a {| tqe_next := v; tqe_prev := tqe_prev e |} q)
  end.

Definition TAILQ_EMPTY (q : tailq) : bool :=
  bool_decide (tqh_first q = None).

Definition TAILQ_FIRST (q : tailq) : option addr := tqh_first q.

Definition TAILQ_NEXT (a : addr) (q : tailq) : option (option addr) :=
  tqe_next <$> tq_links q !! a.

(** [*(((struct headname * )(head->tqh_last))->tqh_last)]: the place
    [tqh_last] points at is read as a head, whose second field is the
    [tqe_prev] of the last element, or [tqh_last] itself when empty. *)
Definition TAILQ_LAST (q : tailq) : option (option addr) :=
  match tqh_last q with
  | HeadFirst => tq_load (tqh_last q) q
  | ElmNext a => e ← tq_links q !! a; tq_load (tqe_prev e) q
  end.

Definition TAILQ_INSERT_HEAD (elm : addr) (q : tailq) : option tailq :=
  let first := tqh_first q in
  let q := tq_set_entry elm {| tqe_next := first; tqe_prev := HeadFirst |} q in
  q ← match first with
      | Some f => tq_set_prev f (ElmNext elm) q
      | None => Some (tq_set_last (ElmNext elm) q)
      end;
  let q := tq_set_first (Some elm) q in
  tq_set_prev elm HeadFirst q.

Definition TAILQ_INSERT_TAIL (elm : addr) (q : tailq) : option tailq :=
  let q := tq_set_entry elm {| tqe_next := None; tqe_prev := tqh_last q |} q in
  q ← tq_store (tqh_last q) (Some elm) q;
  Some (tq_set_last (ElmNext elm) q).

Definition TAILQ_INSERT_BEFORE (listelm elm : addr) (q : tailq)
  : option tailq :=
  le ← tq_links q !! listelm;
  let q :=
    tq_set_entry elm {| tqe_next := Some listelm; tqe_prev := tqe_prev le |} q in
  le ← tq_links q !! listelm;
  q ← tq_store (tqe_prev le) (Some elm) q;
  tq_set_prev listelm (ElmNext elm) q.

Definition TAILQ_REMOVE (elm : addr) (q : tailq) : option tailq :=
  e ← tq_links q !! elm;
  q ← match tqe_next e with
      | Some n => tq_set_prev n (tqe_prev e) q
      | None => Some (tq_set_last (tqe_prev e) q)
      end;
  e ← tq_links q !! elm;
  tq_store (tqe_prev e) (tqe_next e) q.

(** The memory of a freed object goes, and its link fields with it. *)
Definition tq_free (elm : addr) (q : tailq) : tailq :=
  {| tqh_first := tqh_first q; tqh_last := tqh_last q;
     tq_links := delete elm (tq_links q) |}.

(** A loop over a queue gets as many rounds as the queue has link fields,
    and one more to see the end; a walk that needs more is in a cycle. *)
Definition tq_fuel (q : tailq) : nat := S (size (tq_links q)).

(** The body of the [TAILQ_FOREACH] in [INSERT_TAILQ_STRING_ORDER]: every
    element whose name is not below the new one gets the new element put
    before it, and the walk goes on. *)
Fixpoint insert_scan (fuel : nat) (name_of : addr -> option string)
    (ins : addr) (cur : option addr) (q : tailq) : option tailq :=
  match cur with
  | None => Some q
  | Some c =>
      match fuel with
      | O => None
      | S fuel' =>
          n_ins ← name_of ins;
          n_cur ← name_of c;
          q ← (if 0 <? strcmp n_ins n_cur then Some q
               else TAILQ_INSERT_BEFORE c ins q);
          next ← TAILQ_NEXT c q;
          insert_scan fuel' name_of ins next q
      end
  end.

Definition INSERT_TAILQ_STRING_ORDER (name_of : addr -> option string)
    (ins : addr) (q : tailq) : option tailq :=
  n_ins ← name_of ins;
  at_head ←
    (if TAILQ_EMPTY q then Some true
     else f ← TAILQ_FIRST q; n ← name_of f; Some (strcmp n_ins n <? 0));
  if at_head : bool then TAILQ_INSERT_HEAD ins q
  else
    l ← TAILQ_LAST q;
    l ← l;
    n_last ← name_of l;
    if 0 <? strcmp n_ins n_last then TAILQ_INSERT_TAIL ins q
    else insert_scan (tq_fuel q) name_of ins (TAILQ_FIRST q) q.

(** [TAILQ_FOREACH] as every reader of a queue sees it: the addresses from
    [cur] on, in iteration order. *)
Fixpoint tq_walk (fuel : nat) (cur : option addr) (q : tailq)
  : option (list addr) :=
  match cur with
  | None => Some []
  | Some c =>
      match fuel with
      | O => None
      | S fuel' =>
          next ← TAILQ_NEXT c q;
          r ← tq_walk fuel' next q;
          Some (c :: r)
      end
  end.

Definition tq_list (q : tailq) : option (list addr) :=
  tq_walk (tq_fuel q) (TAILQ_FIRST q) q.

(** ** EntityGraph: the objects and the heap *)

Record usbg_state := {
  s_path : string;
  s_gadgets : tailq
}.

Record usbg_gadget := {
  g_name : string;
  g_path : string;
  g_udc : string;
  g_configs : tailq;
  g_functions : tailq;
  g_parent : addr
}.

Record usbg_config := {
  c_bindings : tailq;
  c_parent : addr;
  c_name : string;
  c_path : string;
  c_label : string;
  c_id : Z
}.

Record usbg_function := {
  f_parent : addr;
  f_name : string;
  f_path : string;
  f_instance : string;
  f_type : Z
}.

Record usbg_binding := {
  b_parent : addr;
  b_target : option addr;  (* unwritten until the caller sets it *)
  b_name : string;
  b_path : string
}.

(** [malloc] hands out fresh addresses and never fails; [free] removes the
    object, so that a later use of its address is undefined. *)
Record heap := {
  h_states : gmap addr usbg_state;
  h_gadgets : gmap addr usbg_gadget;
  h_configs : gmap addr usbg_config;
  h_functions : gmap addr usbg_function;
  h_bindings : gmap addr usbg_binding;
  h_next : addr
}.

Definition empty_heap : heap :=
  {| h_states := ∅; h_gadgets := ∅; h_configs := ∅; h_functions := ∅;
     h_bindings := ∅; h_next := 1%nat |}.

(** ** The world and its monad *)

(** The calls on the file tree that the library makes, with the paths it
    passes.  The diagnostics that the macros [ERROR] and [ERRORNO] print on
    [stderr] before some error returns ([fprintf] and [fflush]) are left
    out of the model: they change neither the tree nor the graph nor a
    return value, and no call below stands for them. *)
Inductive syscall :=
  | SysOpenRead (p : string)
  | SysOpenWrite (p : string)
  | SysMkdir (p : string)
  | SysRmdir (p : string)
  | SysUnlink (p : string)
  | SysSymlink (target linkpath : string)
  | SysReadlink (p : string)
  | SysOpendir (p : string)
  | SysScandir (p : string).

Record world := {
  w_fs : filesys;
  w_heap : heap;
  w_trace : list syscall   (* the calls on the tree so far, oldest first *)
}.

(** A computation either runs into undefined behaviour ([None]) or gives a
    value and the world it leaves. *)
Definition M (A : Type) : Type := world -> option (A * world).

#[global] Instance M_ret : MRet M := fun A x w => Some (x, w).
#[global] Instance M_bind : MBind M :=
  fun A B f m w =>
    match m w with
    | Some (a, w') => f a w'
    | None => None
    end.

#[global] Instance M_fmap : FMap M :=
  fun A B f m w =>
    match m w with
    | Some (a, w') => Some (f a, w')
    | None => None
    end.

Definition undefined {A} : M A := fun _ => None.

Definition get_world : M world := fun w => Some (w, w).
Definition get_heap : M heap := fun w => Some (w_heap w, w).
Definition put_heap (h : heap) : M unit :=
  fun w => Some (tt, {| w_fs := w_fs w; w_heap := h; w_trace := w_trace w |}).

(** A pure step that is undefined when it gives nothing. *)
Definition defined {A} (o : option A) : M A :=
  fun w => match o with
           | Some a => Some (a, w)
           | None => None
           end.

Definition syscall_fs {A} (ev : syscall) (f : filesys -> filesys * A) : M A :=
  fun w =>
    let '(fs, r) := f (w_fs w) in
    Some (r, {| w_fs := fs; w_heap := w_heap w;
                w_trace := w_trace w ++ [ev] |}).

Definition fopen_r (p : string) : M (Z + string) :=
  syscall_fs (SysOpenRead p) (fun fs => (fs, fs_fopen_r p fs)).
Definition fopen_w (p text : string) : M write_result :=
  syscall_fs (SysOpenWrite p) (fs_fopen_w p text).
Definition mkdir (p : string) : M Z := syscall_fs (SysMkdir p) (fs_mkdir p).
Definition rmdir (p : string) : M Z := syscall_fs (SysRmdir p) (fs_rmdir p).
Definition unlink (p : string) : M Z := syscall_fs (SysUnlink p) (fs_unlink p).
Definition symlink (target linkpath : string) : M Z :=
  syscall_fs (SysSymlink target linkpath) (fs_symlink target linkpath).
Definition readlink (p : string) : M (Z + string) :=
  syscall_fs (SysReadlink p) (fun fs => (fs, fs_readlink p fs)).
Definition opendir (p : string) : M Z :=
  syscall_fs (SysOpendir p) (fun fs => (fs, fs_opendir p fs)).
Definition scandir (p : string) (select : string * fnode -> bool)
  : M (Z + list (string * fnode)) :=
  syscall_fs (SysScandir p) (fun fs => (fs, fs_scandir p select fs)).

Definition bindings_select (dent : string * fnode) : bool :=
  match dent.2 with
  | FLink _ => true
  | _ => false
  end.

(** The tree model holds no ["."] and [".."] entries, so nothing is left
    for [file_select] to drop. *)
Definition file_select (dent : string * fnode) : bool :=
  if (strcmp dent.1 "." =? 0) || (strcmp dent.1 ".." =? 0) then false
  else true.

(** ** AttributeIO *)

Section AttributeIO.
Context `{Platform}.

(** [buf] is the caller's buffer as it is on entry; the second component
    of the result is the buffer on return. *)
Definition usbg_read_buf (path name file buf : string)
  : M (usbg_error * string) :=
  let '(p, nmb) := snprintf USBG_MAX_PATH_LENGTH (path3 path name file) in
  if nmb <? Z.of_nat USBG_MAX_PATH_LENGTH then
    fp ← fopen_r p;
    match fp with
    | inr content =>
        match fgets USBG_MAX_STR_LENGTH content with
        | Some line => mret (USBG_SUCCESS, line)
        | None => mret (USBG_ERROR_IO, buf)
        end
    | inl errno => mret (usbg_translate_error errno, buf)
    end
  else mret (USBG_ERROR_PATH_TOO_LONG, buf).

Definition usbg_read_string (path name file buf : string)
  : M (usbg_error * string) :=
  '(ret, buf) ← usbg_read_buf path name file buf;
  if decide (ret = USBG_SUCCESS) then
    match strchr buf "010" with
    | Some p => mret (ret, strndup buf p)
    | None => mret (ret, buf)
    end
  else mret (ret, "").

Definition usbg_write_buf (path name file buf : string) : M usbg_error :=
  let '(p, nmb) := snprintf USBG_MAX_PATH_LENGTH (path3 path name file) in
  if nmb <? Z.of_nat USBG_MAX_PATH_LENGTH then
    r ← fopen_w p buf;
    match r with
    | WriteOk => mret USBG_SUCCESS
    | WriteStoreFailed errno => mret (usbg_translate_error errno)
    | WriteOpenFailed errno => mret (usbg_translate_error errno)
    end
  else mret USBG_ERROR_PATH_TOO_LONG.

(** The three formats [usbg_write_int] is called with. *)
Inductive int_format := FmtDec | FmtHex16 | FmtHex8.

Definition format_int (f : int_format) (value : Z) : string :=
  match f with
  | FmtDec => fmt_d value +:+ nl
  | FmtHex16 => "0x" +:+ fmt_0x 4 value +:+ nl
  | FmtHex8 => "0x" +:+ fmt_0x 2 value +:+ nl
  end.

Definition usbg_write_int (path name file : string) (value : Z)
    (str : int_format) : M usbg_error :=
  let '(buf, nmb) := snprintf USBG_MAX_STR_LENGTH (format_int str value) in
  if nmb <? Z.of_nat USBG_MAX_STR_LENGTH
  then usbg_write_buf path name file buf
  else mret USBG_ERROR_INVALID_PARAM.

Definition usbg_write_dec (p n f : string) (v : Z) : M usbg_error :=
  usbg_write_int p n f v FmtDec.
Definition usbg_write_hex16 (p n f : string) (v : Z) : M usbg_error :=
  usbg_write_int p n f v FmtHex16.
Definition usbg_write_hex8 (p n f : string) (v : Z) : M usbg_error :=
  usbg_write_int p n f v FmtHex8.

Definition usbg_write_string (path name file buf : string) : M usbg_error :=
  usbg_write_buf path name file buf.

End AttributeIO.

(** *** Heap access *)

Definition malloc : M addr :=
  fun w =>
    let h := w_heap w in
    Some (h_next h,
          {| w_fs := w_fs w;
             w_heap := {| h_states := h_states h; h_gadgets := h_gadgets h;
                          h_configs := h_configs h;
                          h_functions := h_functions h;
                          h_bindings := h_bindings h;
                          h_next := S (h_next h) |};
             w_trace := w_trace w |}).

Definition upd_states (f : gmap addr usbg_state -> gmap addr usbg_state)
  : M unit :=
  h ← get_heap;
  put_heap {| h_states := f (h_states h); h_gadgets := h_gadgets h;
              h_configs := h_configs h; h_functions := h_functions h;
              h_bindings := h_bindings h; h_next := h_next h |}.

Definition upd_gadgets (f : gmap addr usbg_gadget -> gmap addr usbg_gadget)
  : M unit :=
  h ← get_heap;
  put_heap {| h_states := h_states h; h_gadgets := f (h_gadgets h);
              h_configs := h_configs h; h_functions := h_functions h;
              h_bindings := h_bindings h; h_next := h_next h |}.

Definition upd_configs (f : gmap addr usbg_config -> gmap addr usbg_config)
  : M unit :=
  h ← get_heap;
  put_heap {| h_states := h_states h; h_gadgets := h_gadgets h;
              h_configs := f (h_configs h); h_functions := h_functions h;
              h_bindings := h_bindings h; h_next := h_next h |}.

Definition upd_functions
    (f : gmap addr usbg_function -> gmap addr usbg_function) : M unit :=
  h ← get_heap;
  put_heap {| h_states := h_states h; h_gadgets := h_gadgets h;
              h_configs := h_configs h; h_functions := f (h_functions h);
              h_bindings := h_bindings h; h_next := h_next h |}.

Definition upd_bindings
    (f : gmap addr usbg_binding -> gmap addr usbg_binding) : M unit :=
  h ← get_heap;
  put_heap {| h_states := h_states h; h_gadgets := h_gadgets h;
              h_configs := h_configs h; h_functions := h_functions h;
              h_bindings := f (h_bindings h); h_next := h_next h |}.

(** Reading through a pointer: undefined unless the object is live. *)
Definition get_state (a : addr) : M usbg_state :=
  h ← get_heap; defined (h_states h !! a).
Definition get_gadget (a : addr) : M usbg_gadget :=
  h ← get_heap; defined (h_gadgets h !! a).
Definition get_config (a : addr) : M usbg_config :=
  h ← get_heap; defined (h_configs h !! a).
Definition get_function (a : addr) : M usbg_function :=
  h ← get_heap; defined (h_functions h !! a).
Definition get_binding (a : addr) : M usbg_binding :=
  h ← get_heap; defined (h_bindings h !! a).

(** The queues, as fields of the objects that hold their heads. *)
Definition set_s_gadgets (s : addr) (q : tailq) : M unit :=
  st ← get_state s;
  upd_states (insert s {| s_path := s_path st; s_gadgets := q |}).

Definition set_g_udc (g : addr) (udc : string) : M unit :=
  x ← get_gadget g;
  upd_gadgets (insert g {| g_name := g_name x; g_path := g_path x;
                           g_udc := udc; g_configs := g_configs x;
                           g_functions := g_functions x;
                           g_parent := g_parent x |}).

Definition set_g_configs (g : addr) (q : tailq) : M unit :=
  x ← get_gadget g;
  upd_gadgets (insert g {| g_name := g_name x; g_path := g_path x;
                           g_udc := g_udc x; g_configs := q;
                           g_functions := g_functions x;
                           g_parent := g_parent x |}).

Definition set_g_functions (g : addr) (q : tailq) : M unit :=
  x ← get_gadget g;
  upd_gadgets (insert g {| g_name := g_name x; g_path := g_path x;
                           g_udc := g_udc x; g_configs := g_configs x;
                           g_functions := q;
                           g_parent := g_parent x |}).

Definition set_c_bindings (c : addr) (q : tailq) : M unit :=
  x ← get_config c;
  upd_configs (insert c {| c_bindings := q; c_parent := c_parent x;
                           c_name := c_name x; c_path := c_path x;
                           c_label := c_label x; c_id := c_id x |}).

Definition set_b_target (b : addr) (f : addr) : M unit :=
  x ← get_binding b;
  upd_bindings (insert b {| b_parent := b_parent x; b_target := Some f;
                            b_name := b_name x; b_path := b_path x |}).

(** The [NameField] of the ordered insert, read through the heap. *)
Definition gadget_name (h : heap) (a : addr) : option string :=
  g_name <$> h_gadgets h !! a.
Definition config_name (h : heap) (a : addr) : option string :=
  c_name <$> h_configs h !! a.
Definition function_name (h : heap) (a : addr) : option string :=
  f_name <$> h_functions h !! a.
Definition binding_name (h : heap) (a : addr) : option string :=
  b_name <$> h_bindings h !! a.

(** *** Allocation and release *)

Definition usbg_allocate_gadget (path name : string) (parent : addr)
  : M (option addr) :=
  g ← malloc;
  upd_gadgets (insert g {| g_name := name; g_path := path; g_udc := "";
                           g_configs := TAILQ_INIT;
                           g_functions := TAILQ_INIT;
                           g_parent := parent |});;
  mret (Some g).

Definition usbg_allocate_config (path label : string) (id : Z)
    (parent : addr) : M (option addr) :=
  c ← malloc;
  upd_configs (insert c {| c_bindings := TAILQ_INIT; c_parent := parent;
                           c_name := label +:+ "." +:+ fmt_d id;
                           c_path := path; c_label := label; c_id := id |});;
  mret (Some c).

Definition usbg_allocate_function (path : string) (type : Z)
    (instance : string) (parent : addr) : M (option addr) :=
  f ← malloc;
  match usbg_get_function_type_str type with
  | None => mret None
  | Some type_name =>
      let name := type_name +:+ "." +:+ instance in
      upd_functions
        (insert f {| f_parent := parent; f_name := name; f_path := path;
                     f_instance := str_from name (S (String.length type_name));
                     f_type := type |});;
      mret (Some f)
  end.

Definition usbg_allocate_binding (path name : string) (parent : addr)
  : M (option addr) :=
  b ← malloc;
  upd_bindings (insert b {| b_parent := parent; b_target := None;
                            b_name := name; b_path := path |});;
  mret (Some b).

(** The link fields of [a] in its parent's queue go with [a]'s memory. *)
Definition drop_binding_links (b : addr) (x : usbg_binding) : M unit :=
  h ← get_heap;
  match h_configs h !! b_parent x with
  | Some c => set_c_bindings (b_parent x) (tq_free b (c_bindings c))
  | None => mret tt
  end.

Definition drop_function_links (f : addr) (x : usbg_function) : M unit :=
  h ← get_heap;
  match h_gadgets h !! f_parent x with
  | Some g => set_g_functions (f_parent x) (tq_free f (g_functions g))
  | None => mret tt
  end.

Definition drop_config_links (c : addr) (x : usbg_config) : M unit :=
  h ← get_heap;
  match h_gadgets h !! c_parent x with
  | Some g => set_g_configs (c_parent x) (tq_free c (g_configs g))
  | None => mret tt
  end.

Definition drop_gadget_links (g : addr) (x : usbg_gadget) : M unit :=
  h ← get_heap;
  match h_states h !! g_parent x with
  | Some s => set_s_gadgets (g_parent x) (tq_free g (s_gadgets s))
  | None => mret tt
  end.

Definition usbg_free_binding (b : addr) : M unit :=
  x ← get_binding b;
  upd_bindings (delete b);;
  drop_binding_links b x.

Definition usbg_free_function (f : addr) : M unit :=
  x ← get_function f;
  upd_functions (delete f);;
  drop_function_links f x.

(** [while (!TAILQ_EMPTY(q)) { x = TAILQ_FIRST(q); TAILQ_REMOVE(q, x);
    free1(x); }] on the queue that [getq] reads and [putq] writes. *)
Fixpoint drain (fuel : nat) (getq : M tailq) (putq : tailq -> M unit)
    (free1 : addr -> M unit) : M unit :=
  q ← getq;
  match TAILQ_FIRST q with
  | None => mret tt
  | Some x =>
      match fuel with
      | O => undefined
      | S fuel' =>
          q' ← defined (TAILQ_REMOVE x q);
          putq q';;
          free1 x;;
          drain fuel' getq putq free1
      end
  end.

Definition usbg_free_config (c : addr) : M unit :=
  x ← get_config c;
  drain (tq_fuel (c_bindings x))
        (c_bindings <$> get_config c) (set_c_bindings c) usbg_free_binding;;
  x ← get_config c;
  upd_configs (delete c);;
  drop_config_links c x.

Definition usbg_free_gadget (g : addr) : M unit :=
  x ← get_gadget g;
  drain (tq_fuel (g_configs x))
        (g_configs <$> get_gadget g) (set_g_configs g) usbg_free_config;;
  drain (tq_fuel (g_functions x))
        (g_functions <$> get_gadget g) (set_g_functions g)
        usbg_free_function;;
  x ← get_gadget g;
  upd_gadgets (delete g);;
  drop_gadget_links g x.

Definition usbg_free_state (s : addr) : M unit :=
  x ← get_state s;
  drain (tq_fuel (s_gadgets x))
        (s_gadgets <$> get_state s) (set_s_gadgets s) usbg_free_gadget;;
  upd_states (delete s).

(** *** Lookup by identity *)

(** [TAILQ_FOREACH] with a [break] or [return] at the first element that
    passes [test]; the inner [None] is the null pointer at the end. *)
Fixpoint tq_find (fuel : nat) (test : addr -> option bool)
    (cur : option addr) (q : tailq) : option (option addr) :=
  match cur with
  | None => Some None
  | Some c =>
      match fuel with
      | O => None
      | S fuel' =>
          t ← test c;
          if t : bool then Some (Some c)
          else next ← TAILQ_NEXT c q; tq_find fuel' test next q
      end
  end.

Definition find_in (q : tailq) (test : addr -> option bool)
  : M (option addr) :=
  defined (tq_find (tq_fuel q) test (TAILQ_FIRST q) q).

Definition usbg_get_gadget (s : addr) (name : string) : M (option addr) :=
  st ← get_state s;
  h ← get_heap;
  find_in (s_gadgets st)
    (fun a => g ← h_gadgets h !! a; Some (strcmp (g_name g) name =? 0)).

Definition usbg_get_function (g : addr) (type : Z) (instance : string)
  : M (option addr) :=
  x ← get_gadget g;
  h ← get_heap;
  find_in (g_functions x)
    (fun a => f ← h_functions h !! a;
              Some ((f_type f =? type)
                    && (strcmp (f_instance f) instance =? 0))).

Definition usbg_get_config (g : addr) (id : Z) (label : option string)
  : M (option addr) :=
  x ← get_gadget g;
  h ← get_heap;
  find_in (g_configs x)
    (fun a => c ← h_configs h !! a;
              Some ((c_id c =? id)
                    && match label with
                       | None => true
                       | Some l => strcmp (c_label c) l =? 0
                       end)).

Definition usbg_get_binding (c : addr) (name : string) : M (option addr) :=
  x ← get_config c;
  h ← get_heap;
  find_in (c_bindings x)
    (fun a => b ← h_bindings h !! a; Some (strcmp (b_name b) name =? 0)).

Definition usbg_get_link_binding (c : addr) (f : addr) : M (option addr) :=
  x ← get_config c;
  h ← get_heap;
  find_in (c_bindings x)
    (fun a => b ← h_bindings h !! a;
              t ← b_target b;
              Some (bool_decide (t = f))).

(** Ordered and tail insertion into the queue of a parent object. *)
Definition insert_tail (getq : M tailq) (putq : tailq -> M unit)
    (elm : addr) : M unit :=
  q ← getq;
  q' ← defined (TAILQ_INSERT_TAIL elm q);
  putq q'.

Definition insert_string_order (getq : M tailq) (putq : tailq -> M unit)
    (name_of : heap -> addr -> option string) (elm : addr) : M unit :=
  q ← getq;
  h ← get_heap;
  q' ← defined (INSERT_TAILQ_STRING_ORDER (name_of h) elm q);
  putq q'.

(** ** TreeDiscovery *)

Section Discovery.
Context `{Platform}.

Definition usbg_parse_functions (path : string) (g : addr) : M usbg_error :=
  x ← get_gadget g;
  let '(fpath, n) :=
    snprintf USBG_MAX_PATH_LENGTH (path3 path (g_name x) FUNCTIONS_DIR) in
  if Z.of_nat USBG_MAX_PATH_LENGTH <=? n then mret USBG_ERROR_PATH_TOO_LONG
  else
    r ← scandir fpath file_select;
    match r with
    | inl errno => mret (usbg_translate_error errno)
    | inr dent =>
        foldl
          (fun (acc : M usbg_error) (d : string * fnode) =>
             ret ← acc;
             if decide (ret = USBG_SUCCESS) then
               let sp := usbg_split_function_instance_type d.1 in
               match sf_ret sp, sf_type sp, sf_instance sp with
               | USBG_SUCCESS, Some type, Some instance =>
                   f ← usbg_allocate_function fpath type instance g;
                   match f with
                   | Some f =>
                       insert_tail (g_functions <$> get_gadget g)
                                   (set_g_functions g) f;;
                       mret USBG_SUCCESS
                   | None => mret USBG_ERROR_NO_MEM
                   end
               | e, _, _ => mret e
               end
             else mret ret)
          (mret USBG_SUCCESS) dent
    end.

(** [bpath] holds the path of the link; its first [path_size] characters
    are the directory of the config. *)
Definition usbg_parse_config_binding (c : addr) (bpath : string)
    (path_size : nat) : M usbg_error :=
  r ← readlink bpath;
  match r with
  | inl errno => mret (usbg_translate_error errno)
  | inr t =>
      (* [readlink] fills at most [sizeof(target)] bytes, and
         [target[nmb] = 0] needs [nmb] to be less *)
      if (USBG_MAX_PATH_LENGTH <=? String.length t)%nat then undefined
      else
        match strrchr t "/" with
        | None => undefined   (* [strrchr] gives null, and null + 1 is read *)
        | Some slash =>
            let target_name := str_from t (S slash) in
            let sp := usbg_split_function_instance_type target_name in
            match sf_ret sp, sf_type sp, sf_instance sp with
            | USBG_SUCCESS, Some type, Some instance =>
                x ← get_config c;
                f ← usbg_get_function (c_parent x) type instance;
                match f with
                | None => mret USBG_ERROR_OTHER_ERROR
                | Some f =>
                    b ← usbg_allocate_binding (strndup bpath path_size)
                          (str_from bpath (S path_size)) c;
                    match b with
                    | Some b =>
                        set_b_target b f;;
                        insert_tail (c_bindings <$> get_config c)
                                    (set_c_bindings c) b;;
                        mret USBG_SUCCESS
                    | None => mret USBG_ERROR_NO_MEM
                    end
                end
            | e, _, _ => mret e
            end
        end
  end.

Definition usbg_parse_config_bindings (c : addr) : M usbg_error :=
  x ← get_config c;
  let '(bpath, end_) :=
    snprintf USBG_MAX_PATH_LENGTH (path2 (c_path x) (c_name x)) in
  if Z.of_nat USBG_MAX_PATH_LENGTH <=? end_ then mret USBG_ERROR_PATH_TOO_LONG
  else
    r ← scandir bpath bindings_select;
    match r with
    | inl errno => mret (usbg_translate_error errno)
    | inr dent =>
        foldl
          (fun (acc : M usbg_error) (d : string * fnode) =>
             ret ← acc;
             if decide (ret = USBG_SUCCESS) then
               let room := (USBG_MAX_PATH_LENGTH - Z.to_nat end_)%nat in
               let '(tail, nmb) := snprintf room ("/" +:+ d.1) in
               if nmb <? Z.of_nat room
               then usbg_parse_config_binding c (bpath +:+ tail)
                      (Z.to_nat end_)
               else mret USBG_ERROR_PATH_TOO_LONG
             else mret ret)
          (mret USBG_SUCCESS) dent
    end.

(** The functions from here to [usbg_init] return the [int] itself, since
    [usbg_parse_config] passes on what the split returned. *)
Definition usbg_parse_config (path name : string) (g : addr) : M Z :=
  let '(ret, label) := usbg_split_config_label_id name in
  if ret <=? 0 then mret ret
  else
    match label with
    | None => undefined   (* the split writes the label when it gives an id *)
    | Some label =>
        c ← usbg_allocate_config path label ret g;
        match c with
        | None => mret (usbg_error_code USBG_ERROR_NO_MEM)
        | Some c =>
            ret ← usbg_parse_config_bindings c;
            (if decide (ret = USBG_SUCCESS)
             then insert_tail (g_configs <$> get_gadget g)
                              (set_g_configs g) c
             else usbg_free_config c);;
            mret (usbg_error_code ret)
        end
    end.

Definition usbg_parse_configs (path : string) (g : addr) : M Z :=
  x ← get_gadget g;
  let '(cpath, n) :=
    snprintf USBG_MAX_PATH_LENGTH (path3 path (g_name x) CONFIGS_DIR) in
  if Z.of_nat USBG_MAX_PATH_LENGTH <=? n
  then mret (usbg_error_code USBG_ERROR_PATH_TOO_LONG)
  else
    r ← scandir cpath file_select;
    match r with
    | inl errno => mret (usbg_error_code (usbg_translate_error errno))
    | inr dent =>
        foldl
          (fun (acc : M Z) (d : string * fnode) =>
             ret ← acc;
             if ret =? usbg_error_code USBG_SUCCESS
             then usbg_parse_config cpath d.1 g
             else mret ret)
          (mret (usbg_error_code USBG_SUCCESS)) dent
    end.

Definition usbg_parse_gadget (g : addr) : M Z :=
  x ← get_gadget g;
  '(ret, udc) ← usbg_read_string (g_path x) (g_name x) "UDC" (g_udc x);
  set_g_udc g udc;;
  if decide (ret = USBG_SUCCESS) then
    ret ← usbg_parse_functions (g_path x) g;
    if decide (ret = USBG_SUCCESS)
    then usbg_parse_configs (g_path x) g
    else mret (usbg_error_code ret)
  else mret (usbg_error_code ret).

Definition usbg_parse_gadgets (path : string) (s : addr) : M Z :=
  r ← scandir path file_select;
  match r with
  | inr dent =>
      foldl
        (fun (acc : M Z) (d : string * fnode) =>
           ret ← acc;
           if ret =? usbg_error_code USBG_SUCCESS then
             g ← usbg_allocate_gadget path d.1 s;
             match g with
             | Some g =>
                 ret ← usbg_parse_gadget g;
                 (if ret =? usbg_error_code USBG_SUCCESS
                  then insert_tail (s_gadgets <$> get_state s)
                                   (set_s_gadgets s) g
                  else usbg_free_gadget g);;
                 mret ret
             | None => mret (usbg_error_code USBG_ERROR_NO_MEM)
             end
           else mret ret)
        (mret (usbg_error_code USBG_SUCCESS)) dent
  | inl errno => mret (usbg_error_code (usbg_translate_error errno))
  end.

Definition usbg_init_state (path : string) (s : addr) : M Z :=
  upd_states (insert s {| s_path := path; s_gadgets := TAILQ_INIT |});;
  usbg_parse_gadgets path s.

(** The [int] returned and the pointer left in [*state], which dangles
    after a failed discovery. *)
Definition usbg_init (configfs_path : string) : M (Z * option addr) :=
  let path := configfs_path +:+ "/usb_gadget" in
  dir ← opendir path;
  if dir =? 0 then
    s ← malloc;
    ret ← usbg_init_state path s;
    (if ret =? usbg_error_code USBG_SUCCESS then mret tt
     else usbg_free_state s);;
    mret (ret, Some s)
  else mret (usbg_error_code (usbg_translate_error dir), None).

Definition usbg_cleanup (s : addr) : M unit := usbg_free_state s.

End Discovery.

(** ** MutationOps *)

Record usbg_gadget_attrs := {
  bcdUSB : Z;
  bDeviceClass : Z;
  bDeviceSubClass : Z;
  bDeviceProtocol : Z;
  bMaxPacketSize0 : Z;
  idVendor : Z;
  idProduct : Z;
  bcdDevice : Z
}.

Record usbg_gadget_strs := {
  str_ser : string;
  str_mnf : string;
  str_prd : string
}.

Record usbg_config_attrs := {
  bmAttributes : Z;
  bMaxPower : Z
}.

Record usbg_config_strs := {
  configuration : string
}.

Record usbg_f_net_attrs := {
  dev_addr : list Z;    (* the six octets of a [struct ether_addr] *)
  host_addr : list Z;
  ifname : string;
  qmult : Z
}.

(** The members of the union [usbg_function_attrs], each as the code reads
    it for the function types it belongs to. *)
Record usbg_function_attrs := {
  serial_port_num : Z;
  net : usbg_f_net_attrs;
  phonet_ifname : string
}.

(** ["%x:%x:%x:%x:%x:%x"]. *)
Fixpoint ether_ntoa (octets : list Z) : string :=
  match octets with
  | [] => ""
  | [o] => fmt_x o
  | o :: r => fmt_x o +:+ ":" +:+ ether_ntoa r
  end.

Section Mutation.
Context `{Platform}.

(** [strcpy] into an array of [size] characters. *)
Definition strcpy (size : nat) (src : string) : M string :=
  if (String.length src <? size)%nat then mret src else undefined.

Definition ubsg_rm_file (path name : string) : M usbg_error :=
  let '(buf, nmb) := snprintf USBG_MAX_PATH_LENGTH (path2 path name) in
  if nmb <? Z.of_nat USBG_MAX_PATH_LENGTH then
    nmb ← unlink buf;
    if negb (nmb =? 0) then mret (usbg_translate_error nmb)
    else mret USBG_SUCCESS
  else mret USBG_ERROR_PATH_TOO_LONG.

Definition usbg_rm_dir (path name : string) : M usbg_error :=
  let '(buf, nmb) := snprintf USBG_MAX_PATH_LENGTH (path2 path name) in
  if nmb <? Z.of_nat USBG_MAX_PATH_LENGTH then
    nmb ← rmdir buf;
    if negb (nmb =? 0) then mret (usbg_translate_error nmb)
    else mret USBG_SUCCESS
  else mret USBG_ERROR_PATH_TOO_LONG.

Definition usbg_rm_binding (b : option addr) : M usbg_error :=
  match b with
  | None => mret USBG_ERROR_INVALID_PARAM
  | Some b =>
      x ← get_binding b;
      let c := b_parent x in
      ret ← ubsg_rm_file (b_path x) (b_name x);
      if decide (ret = USBG_SUCCESS) then
        cx ← get_config c;
        q ← defined (TAILQ_REMOVE b (c_bindings cx));
        set_c_bindings c q;;
        usbg_free_binding b;;
        mret ret
      else mret ret
  end.

(** An output parameter [T **g] is the value found in [*g] on entry; the
    functions return the value left there. *)
Definition usbg_create_empty_gadget (s : addr) (name : string)
    (g : option addr) : M (usbg_error * option addr) :=
  st ← get_state s;
  let '(gpath, nmb) :=
    snprintf USBG_MAX_PATH_LENGTH (path2 (s_path st) name) in
  if Z.of_nat USBG_MAX_PATH_LENGTH <=? nmb
  then mret (USBG_ERROR_PATH_TOO_LONG, g)
  else
    g ← usbg_allocate_gadget (s_path st) name s;
    match g with
    | Some gad =>
        ret ← mkdir gpath;
        ret ← (if ret =? 0 then
                 x ← get_gadget gad;
                 '(ret, udc) ←
                   usbg_read_string (g_path x) (g_name x) "UDC" (g_udc x);
                 set_g_udc gad udc;;
                 (if decide (ret = USBG_SUCCESS) then mret 0
                  else rmdir gpath);;
                 mret ret
               else mret (usbg_translate_error ret));
        if decide (ret = USBG_SUCCESS) then mret (ret, Some gad)
        else usbg_free_gadget gad;; mret (ret, None)
    | None => mret (USBG_ERROR_NO_MEM, None)
    end.

Definition usbg_set_gadget_attrs (g : option addr)
    (g_attrs : option usbg_gadget_attrs) : M usbg_error :=
  match g, g_attrs with
  | Some g, Some a =>
      x ← get_gadget g;
      let p := g_path x in
      let n := g_name x in
      ret ← usbg_write_hex16 p n "bcdUSB" (bcdUSB a);
      if decide (ret ≠ USBG_SUCCESS) then mret ret else
      ret ← usbg_write_hex8 p n "bDeviceClass" (bDeviceClass a);
      if decide (ret ≠ USBG_SUCCESS) then mret ret else
      ret ← usbg_write_hex8 p n "bDeviceSubClass" (bDeviceSubClass a);
      if decide (ret ≠ USBG_SUCCESS) then mret ret else
      ret ← usbg_write_hex8 p n "bDeviceProtocol" (bDeviceProtocol a);
      if decide (ret ≠ USBG_SUCCESS) then mret ret else
      ret ← usbg_write_hex8 p n "bMaxPacketSize0" (bMaxPacketSize0 a);
      if decide (ret ≠ USBG_SUCCESS) then mret ret else
      ret ← usbg_write_hex16 p n "idVendor" (idVendor a);
      if decide (ret ≠ USBG_SUCCESS) then mret ret else
      ret ← usbg_write_hex16 p n "idProduct" (idProduct a);
      if decide (ret ≠ USBG_SUCCESS) then mret ret else
      usbg_write_hex16 p n "bcdDevice" (bcdDevice a)
  | _, _ => mret USBG_ERROR_INVALID_PARAM
  end.

Definition usbg_check_dir (path : string) : M usbg_error :=
  dir ← opendir path;
  if dir =? 0 then mret USBG_SUCCESS
  else if negb (dir =? ENOENT) then mret (usbg_translate_error dir)
  else
    r ← mkdir path;
    if negb (r =? 0) then mret (usbg_translate_error r)
    else mret USBG_SUCCESS.

Definition usbg_set_gadget_strs (g : option addr) (lang : Z)
    (g_strs : option usbg_gadget_strs) : M usbg_error :=
  match g, g_strs with
  | Some g, Some strs =>
      x ← get_gadget g;
      let '(path, nmb) :=
        snprintf USBG_MAX_PATH_LENGTH
          (strings_path (g_path x) (g_name x) lang) in
      if Z.of_nat USBG_MAX_PATH_LENGTH <=? nmb
      then mret USBG_ERROR_PATH_TOO_LONG
      else
        ret ← usbg_check_dir path;
        if decide (ret = USBG_SUCCESS) then
          ret ← usbg_write_string path "" "serialnumber" (str_ser strs);
          if decide (ret ≠ USBG_SUCCESS) then mret ret else
          ret ← usbg_write_string path "" "manufacturer" (str_mnf strs);
          if decide (ret ≠ USBG_SUCCESS) then mret ret else
          usbg_write_string path "" "product" (str_prd strs)
        else mret ret
  | _, _ => mret USBG_ERROR_INVALID_PARAM
  end.

Definition insert_gadget (s gad : addr) : M unit :=
  insert_string_order (s_gadgets <$> get_state s) (set_s_gadgets s)
    gadget_name gad.

(** [g] is [None] for a null [usbg_gadget **], else the content of [*g]. *)
Definition usbg_create_gadget_vid_pid (s : option addr) (name : string)
    (idVendor idProduct : Z) (g : option (option addr))
  : M (usbg_error * option addr) :=
  match s, g with
  | Some s, Some g =>
      gad ← usbg_get_gadget s name;
      match gad with
      | Some _ => mret (USBG_ERROR_EXIST, g)
      | None =>
          '(ret, g) ← usbg_create_empty_gadget s name g;
          if decide (ret = USBG_SUCCESS) then
            gad ← defined g;
            st ← get_state s;
            ret ← usbg_write_hex16 (s_path st) name "idVendor" idVendor;
            if decide (ret = USBG_SUCCESS) then
              ret ← usbg_write_hex16 (s_path st) name "idProduct" idProduct;
              (if decide (ret = USBG_SUCCESS) then insert_gadget s gad
               else usbg_free_gadget gad);;
              mret (ret, g)
            else mret (ret, g)
          else mret (ret, g)
      end
  | _, _ => mret (USBG_ERROR_INVALID_PARAM, mjoin g)
  end.

Definition usbg_create_gadget (s : option addr) (name : string)
    (g_attrs : option usbg_gadget_attrs) (g_strs : option usbg_gadget_strs)
    (g : option (option addr)) : M (usbg_error * option addr) :=
  match s, g with
  | Some s, Some g =>
      gad ← usbg_get_gadget s name;
      match gad with
      | Some _ => mret (USBG_ERROR_EXIST, g)
      | None =>
          '(ret, g) ← usbg_create_empty_gadget s name g;
          if decide (ret = USBG_SUCCESS) then
            gad ← defined g;
            ret ← match g_attrs with
                  | Some _ => usbg_set_gadget_attrs (Some gad) g_attrs
                  | None => mret ret
                  end;
            ret ← match g_strs with
                  | Some _ => usbg_set_gadget_strs (Some gad) LANG_US_ENG g_strs
                  | None => mret ret
                  end;
            (if decide (ret = USBG_SUCCESS) then insert_gadget s gad
             else usbg_free_gadget gad);;
            mret (ret, g)
          else mret (ret, g)
      end
  | _, _ => mret (USBG_ERROR_INVALID_PARAM, mjoin g)
  end.

Definition usbg_set_function_net_attrs (f : addr) (attrs : usbg_f_net_attrs)
  : M usbg_error :=
  x ← get_function f;
  let p := f_path x in
  let n := f_name x in
  ret ← usbg_write_string p n "dev_addr" (ether_ntoa (dev_addr attrs));
  if decide (ret ≠ USBG_SUCCESS) then mret ret else
  ret ← usbg_write_string p n "host_addr" (ether_ntoa (host_addr attrs));
  if decide (ret ≠ USBG_SUCCESS) then mret ret else
  ret ← usbg_write_string p n "ifname" (ifname attrs);
  if decide (ret ≠ USBG_SUCCESS) then mret ret else
  usbg_write_dec p n "qmult" (qmult attrs).

Definition usbg_set_function_attrs (f : option addr)
    (f_attrs : option usbg_function_attrs) : M usbg_error :=
  match f, f_attrs with
  | Some f, Some a =>
      x ← get_function f;
      let t := f_type x in
      if (t =? F_SERIAL) || (t =? F_ACM) || (t =? F_OBEX)
      then usbg_write_dec (f_path x) (f_name x) "port_num"
             (serial_port_num a)
      else if (t =? F_ECM) || (t =? F_SUBSET) || (t =? F_NCM)
              || (t =? F_EEM) || (t =? F_RNDIS)
      then usbg_set_function_net_attrs f (net a)
      else if t =? F_PHONET
      then usbg_write_string (f_path x) (f_name x) "ifname"
             (phonet_ifname a)
      else mret USBG_ERROR_NOT_SUPPORTED
  | _, _ => mret USBG_ERROR_INVALID_PARAM
  end.

(** [f] is [None] for a null [usbg_function **], else the content of
    [*f]; likewise the other output parameters below. *)
Definition usbg_create_function (g : option addr) (type : Z)
    (instance : option string) (f_attrs : option usbg_function_attrs)
    (f : option (option addr)) : M (usbg_error * option addr) :=
  match g, f, instance with
  | Some g, Some f, Some instance =>
      func ← usbg_get_function g type instance;
      match func with
      | Some _ => mret (USBG_ERROR_EXIST, f)
      | None =>
          x ← get_gadget g;
          let '(fpath, n) :=
            snprintf USBG_MAX_PATH_LENGTH
              (path3 (g_path x) (g_name x) FUNCTIONS_DIR) in
          if Z.of_nat USBG_MAX_PATH_LENGTH <=? n
          then mret (USBG_ERROR_PATH_TOO_LONG, f)
          else
            f ← usbg_allocate_function fpath type instance g;
            (* a null [func] only sets [ret]; [func->name] is read next *)
            func ← defined f;
            fx ← get_function func;
            let free_space := (USBG_MAX_PATH_LENGTH - Z.to_nat n)%nat in
            let '(tail, n) := snprintf free_space ("/" +:+ f_name fx) in
            ret ← (if n <? Z.of_nat free_space then
                     ret ← mkdir (fpath +:+ tail);
                     if ret =? 0 then
                       match f_attrs with
                       | Some _ => usbg_set_function_attrs (Some func) f_attrs
                       | None => mret USBG_SUCCESS
                       end
                     else mret (usbg_translate_error ret)
                   else mret USBG_ERROR_INVALID_PARAM);
            (if decide (ret = USBG_SUCCESS)
             then insert_string_order (g_functions <$> get_gadget g)
                    (set_g_functions g) function_name func
             else usbg_free_function func);;
            mret (ret, f)
      end
  | _, _, _ => mret (USBG_ERROR_INVALID_PARAM, mjoin f)
  end.

Definition usbg_set_config_attrs (c : option addr)
    (c_attrs : option usbg_config_attrs) : M usbg_error :=
  match c, c_attrs with
  | Some _, None =>
      (* [c && !c_attrs] holds and [c_attrs->bMaxPower] is read *)
      undefined
  | _, _ => mret USBG_ERROR_INVALID_PARAM
  end.

Definition usbg_set_config_string (c : option addr) (lang : Z)
    (str : option string) : M usbg_error :=
  match c, str with
  | Some c, Some str =>
      x ← get_config c;
      let '(path, nmb) :=
        snprintf USBG_MAX_PATH_LENGTH
          (strings_path (c_path x) (c_name x) lang) in
      if nmb <? Z.of_nat USBG_MAX_PATH_LENGTH then
        ret ← usbg_check_dir path;
        if decide (ret = USBG_SUCCESS)
        then usbg_write_string path "" "configuration" str
        else mret ret
      else mret USBG_ERROR_PATH_TOO_LONG
  | _, _ => mret USBG_ERROR_INVALID_PARAM
  end.

Definition usbg_create_config (g : option addr) (id : Z)
    (label : option string) (c_attrs : option usbg_config_attrs)
    (c_strs : option usbg_config_strs) (c : option (option addr))
  : M (usbg_error * option addr) :=
  match g, c with
  | Some g, Some c =>
      if (id <=? 0) || (255 <? id)
      then mret (USBG_ERROR_INVALID_PARAM, c)
      else
        let label := default DEFAULT_CONFIG_LABEL label in
        conf ← usbg_get_config g id None;
        match conf with
        | Some _ => mret (USBG_ERROR_EXIST, c)
        | None =>
            x ← get_gadget g;
            let '(cpath, n) :=
              snprintf USBG_MAX_PATH_LENGTH
                (path3 (g_path x) (g_name x) CONFIGS_DIR) in
            if Z.of_nat USBG_MAX_PATH_LENGTH <=? n
            then mret (USBG_ERROR_PATH_TOO_LONG, c)
            else
              c ← usbg_allocate_config cpath label id g;
              match c with
              | None => mret (USBG_ERROR_NO_MEM, c)
              | Some conf =>
                  cx ← get_config conf;
                  let free_space :=
                    (USBG_MAX_PATH_LENGTH - Z.to_nat n)%nat in
                  let '(tail, n) :=
                    snprintf free_space ("/" +:+ c_name cx) in
                  (* [if (n < free_space) ret = ...;] is dead: the next
                     statement assigns [ret] again *)
                  ret ← mkdir (cpath +:+ tail);
                  ret ← (if ret =? 0 then
                           ret ← match c_attrs with
                                 | Some _ =>
                                     usbg_set_config_attrs (Some conf) c_attrs
                                 | None => mret USBG_SUCCESS
                                 end;
                           match decide (ret = USBG_SUCCESS), c_strs with
                           | left _, Some strs =>
                               usbg_set_config_string (Some conf) LANG_US_ENG
                                 (Some (configuration strs))
                           | _, _ => mret ret
                           end
                         else mret (usbg_translate_error ret));
                  (if decide (ret = USBG_SUCCESS)
                   then insert_string_order (g_configs <$> get_gadget g)
                          (set_g_configs g) config_name conf
                   else usbg_free_config conf);;
                  mret (ret, c)
              end
        end
  | _, _ => mret (USBG_ERROR_INVALID_PARAM, mjoin c)
  end.

Definition usbg_add_config_function (c : option addr) (name : string)
    (f : option addr) : M usbg_error :=
  match c, f with
  | Some c, Some f =>
      b ← usbg_get_binding c name;
      match b with
      | Some _ => mret USBG_ERROR_EXIST
      | None =>
          b ← usbg_get_link_binding c f;
          match b with
          | Some _ => mret USBG_ERROR_EXIST
          | None =>
              fx ← get_function f;
              let '(fpath, nmb) :=
                snprintf USBG_MAX_PATH_LENGTH
                  (path2 (f_path fx) (f_name fx)) in
              if Z.of_nat USBG_MAX_PATH_LENGTH <=? nmb
              then mret USBG_ERROR_PATH_TOO_LONG
              else
                cx ← get_config c;
                let '(bpath, nmb) :=
                  snprintf USBG_MAX_PATH_LENGTH
                    (path2 (c_path cx) (c_name cx)) in
                if Z.of_nat USBG_MAX_PATH_LENGTH <=? nmb
                then mret USBG_ERROR_PATH_TOO_LONG
                else
                  b ← usbg_allocate_binding bpath name c;
                  match b with
                  | Some b =>
                      let free_space :=
                        (USBG_MAX_PATH_LENGTH - Z.to_nat nmb)%nat in
                      set_b_target b f;;
                      let '(tail, nmb) := snprintf free_space ("/" +:+ name) in
                      ret ← (if nmb <? Z.of_nat free_space then
                               ret ← symlink fpath (bpath +:+ tail);
                               if ret =? 0 then
                                 set_b_target b f;;
                                 insert_string_order
                                   (c_bindings <$> get_config c)
                                   (set_c_bindings c) binding_name b;;
                                 mret USBG_SUCCESS
                               else mret (usbg_translate_error ret)
                             else mret USBG_ERROR_PATH_TOO_LONG);
                      (if decide (ret ≠ USBG_SUCCESS)
                       then usbg_free_binding b
                       else mret tt);;
                      mret ret
                  | None => mret USBG_ERROR_NO_MEM
                  end
          end
      end
  | _, _ => mret USBG_ERROR_INVALID_PARAM
  end.

(** [scandir("/sys/class/udc", ...)]: the names, or the translated error. *)
Definition usbg_get_udcs : M (usbg_error + list string) :=
  r ← scandir "/sys/class/udc" file_select;
  match r with
  | inr l => mret (inr (l.*1))
  | inl errno => mret (inl (usbg_translate_error errno))
  end.

Definition usbg_enable_gadget (g : option addr) (udc : option string)
  : M usbg_error :=
  match g with
  | None => mret USBG_ERROR_INVALID_PARAM
  | Some g =>
      r ← match udc with
          | Some udc => mret (inr udc)
          | None =>
              l ← usbg_get_udcs;
              match l with
              | inr names =>
                  (* [udc_list[0]] is read whatever the count *)
                  first ← defined (head names);
                  gudc ← strcpy USBG_MAX_STR_LENGTH first;
                  mret (inr gudc)
              | inl e => mret (inl e)
              end
          end;
      match r with
      | inl e => mret e
      | inr udc =>
          x ← get_gadget g;
          ret ← usbg_write_string (g_path x) (g_name x) "UDC" udc;
          (if decide (ret = USBG_SUCCESS)
           then udc ← strcpy USBG_MAX_STR_LENGTH udc; set_g_udc g udc
           else mret tt);;
          mret ret
      end
  end.

Definition usbg_disable_gadget (g : option addr) : M usbg_error :=
  match g with
  | Some g =>
      udc ← strcpy USBG_MAX_STR_LENGTH "";
      set_g_udc g udc;;
      x ← get_gadget g;
      usbg_write_string (g_path x) (g_name x) "UDC" ""
  | None => mret USBG_ERROR_INVALID_PARAM
  end.

End Mutation.

(** ** Error names *)

(** [usbg_error_name] and [usbg_strerror] switch over the value they are
    given, which C lets be any [int]. *)
Definition usbg_error_name (e : Z) : string :=
  if e =? usbg_error_code USBG_SUCCESS then "USBG_SUCCESS"
  else if e =? usbg_error_code USBG_ERROR_NO_MEM then "USBG_ERROR_NO_MEM"
  else if e =? usbg_error_code USBG_ERROR_NO_ACCESS
  then "USBG_ERROR_NO_ACCESS"
  else if e =? usbg_error_code USBG_ERROR_INVALID_PARAM
  then "USBG_ERROR_INVALID_PARAM"
  else if e =? usbg_error_code USBG_ERROR_NOT_FOUND
  then "USBG_ERROR_NOT_FOUND"
  else if e =? usbg_error_code USBG_ERROR_IO then "USBG_ERROR_IO"
  else if e =? usbg_error_code USBG_ERROR_EXIST then "USBG_ERROR_EXIST"
  else if e =? usbg_error_code USBG_ERROR_NO_DEV then "USBG_ERROR_NO_DEV"
  else if e =? usbg_error_code USBG_ERROR_BUSY then "USBG_ERROR_BUSY"
  else if e =? usbg_error_code USBG_ERROR_NOT_SUPPORTED
  then "USBG_ERROR_NOT_SUPPORTED"
  else if e =? usbg_error_code USBG_ERROR_PATH_TOO_LONG
  then "USBG_ERROR_PATH_TOO_LONG"
  else if e =? usbg_error_code USBG_ERROR_OTHER_ERROR
  then "USBG_ERROR_OTHER_ERROR"
  else "UNKNOWN".

Definition usbg_strerror (e : Z) : string :=
  if e =? usbg_error_code USBG_SUCCESS then "Success"
  else if e =? usbg_error_code USBG_ERROR_NO_MEM then "Insufficient memory"
  else if e =? usbg_error_code USBG_ERROR_NO_ACCESS
  then "Access denied (insufficient permissions)"
  else if e =? usbg_error_code USBG_ERROR_INVALID_PARAM
  then "Invalid parameter"
  else if e =? usbg_error_code USBG_ERROR_NOT_FOUND
  then "Not found (file or directory removed)"
  else if e =? usbg_error_code USBG_ERROR_IO then "Input/output error"
  else if e =? usbg_error_code USBG_ERROR_EXIST then "Already exist"
  else if e =? usbg_error_code USBG_ERROR_NO_DEV
  then "No such device (illegal device name)"
  else if e =? usbg_error_code USBG_ERROR_BUSY then "Busy (gadget enabled)"
  else if e =? usbg_error_code USBG_ERROR_NOT_SUPPORTED
  then "Function not supported"
  else if e =? usbg_error_code USBG_ERROR_PATH_TOO_LONG
  then "Created path was too long to process it."
  else if e =? usbg_error_code USBG_ERROR_OTHER_ERROR then "Other error"
  else "Unknown error".

(** ** Reading attributes back *)

(** *** [strtol] in any base *)

(** The value of a character as a digit, whatever the base. *)
Definition digit_value (c : ascii) : option Z :=
  let n := nat_of_ascii c in
  if (48 <=? n)%nat && (n <=? 57)%nat then Some (Z.of_nat n - 48)
  else if (97 <=? n)%nat && (n <=? 122)%nat then Some (Z.of_nat n - 87)
  else if (65 <=? n)%nat && (n <=? 90)%nat then Some (Z.of_nat n - 55)
  else None.

Definition digit_in (base : Z) (c : ascii) : option Z :=
  match digit_value c with
  | Some d => if d <? base then Some d else None
  | None => None
  end.

(** Value and length of the longest prefix of digits of [base]. *)
Fixpoint scan_base (base : Z) (s : string) (acc : Z) : Z * nat :=
  match s with
  | String x r =>
      match digit_in base x with
      | Some d =>
          let '(v, n) := scan_base base r (base * acc + d) in (v, S n)
      | None => (acc, O)
      end
  | EmptyString => (acc, O)
  end.

(** Whether [s] begins with ["0x"] or ["0X"] and a hexadecimal digit. *)
Definition hex_prefix (s : string) : bool :=
  match s with
  | String z (String x (String h _)) =>
      Ascii.eqb z "0" && (Ascii.eqb x "x" || Ascii.eqb x "X")
      && bool_decide (is_Some (digit_in 16 h))
  | _ => false
  end.

(** [strtol(nptr, &endptr, base)]: white space, a sign, the prefix that
    base 16 and base 0 allow, then the digits.  A base that is not 0 and
    not in 2..36 gives 0 with [EINVAL]. *)
Definition strtol `{Platform} (base : Z) (nptr : string) : strtol_result :=
  if negb (base =? 0) && ((base <? 2) || (36 <? base))
  then Build_strtol_result 0 O EINVAL
  else
    let sp := skip_space nptr in
    let s1 := str_from nptr sp in
    let '(neg, sg) :=
      match s1 with
      | String "-" _ => (true, 1%nat)
      | String "+" _ => (false, 1%nat)
      | _ => (false, O)
      end in
    let s2 := str_from s1 sg in
    let '(base, px) :=
      if ((base =? 0) || (base =? 16)) && hex_prefix s2 then (16, 2%nat)
      else if base =? 0
           then (if Ascii.eqb (str_head s2) "0" then (8, O) else (10, O))
           else (base, O) in
    let '(v, n) := scan_base base (str_from s2 px) 0 in
    match n with
    | O => Build_strtol_result 0 O 0
    | _ =>
        let e := (sp + sg + px + n)%nat in
        let sv := if neg then - v else v in
        if LONG_MAX <? sv then Build_strtol_result LONG_MAX e ERANGE
        else if sv <? LONG_MIN then Build_strtol_result LONG_MIN e ERANGE
        else Build_strtol_result sv e 0
    end.

(** Conversions to [uint16_t] and [uint8_t]. *)
Definition uint16_of_int (z : Z) : Z := z mod 2 ^ 16.
Definition uint8_of_int (z : Z) : Z := z mod 2 ^ 8.

(** Assignment to one member of a [usbg_gadget_attrs]. *)
Definition set_bcdUSB (v : Z) (a : usbg_gadget_attrs) : usbg_gadget_attrs :=
  {| bcdUSB := v; bDeviceClass := bDeviceClass a;
     bDeviceSubClass := bDeviceSubClass a;
     bDeviceProtocol := bDeviceProtocol a;
     bMaxPacketSize0 := bMaxPacketSize0 a; idVendor := idVendor a;
     idProduct := idProduct a; bcdDevice := bcdDevice a |}.
Definition set_bDeviceClass (v : Z) (a : usbg_gadget_attrs)
  : usbg_gadget_attrs :=
  {| bcdUSB := bcdUSB a; bDeviceClass := v;
     bDeviceSubClass := bDeviceSubClass a;
     bDeviceProtocol := bDeviceProtocol a;
     bMaxPacketSize0 := bMaxPacketSize0 a; idVendor := idVendor a;
     idProduct := idProduct a; bcdDevice := bcdDevice a |}.
Definition set_bDeviceSubClass (v : Z) (a : usbg_gadget_attrs)
  : usbg_gadget_attrs :=
  {| bcdUSB := bcdUSB a; bDeviceClass := bDeviceClass a;
     bDeviceSubClass := v; bDeviceProtocol := bDeviceProtocol a;
     bMaxPacketSize0 := bMaxPacketSize0 a; idVendor := idVendor a;
     idProduct := idProduct a; bcdDevice := bcdDevice a |}.
Definition set_bDeviceProtocol (v : Z) (a : usbg_gadget_attrs)
  : usbg_gadget_attrs :=
  {| bcdUSB := bcdUSB a; bDeviceClass := bDeviceClass a;
     bDeviceSubClass := bDeviceSubClass a; bDeviceProtocol := v;
     bMaxPacketSize0 := bMaxPacketSize0 a; idVendor := idVendor a;
     idProduct := idProduct a; bcdDevice := bcdDevice a |}.
Definition set_bMaxPacketSize0 (v : Z) (a : usbg_gadget_attrs)
  : usbg_gadget_attrs :=
  {| bcdUSB := bcdUSB a; bDeviceClass := bDeviceClass a;
     bDeviceSubClass := bDeviceSubClass a;
     bDeviceProtocol := bDeviceProtocol a; bMaxPacketSize0 := v;
     idVendor := idVendor a; idProduct := idProduct a;
     bcdDevice := bcdDevice a |}.
Definition set_idVendor (v : Z) (a : usbg_gadget_attrs)
  : usbg_gadget_attrs :=
  {| bcdUSB := bcdUSB a; bDeviceClass := bDeviceClass a;
     bDeviceSubClass := bDeviceSubClass a;
     bDeviceProtocol := bDeviceProtocol a;
     bMaxPacketSize0 := bMaxPacketSize0 a; idVendor := v;
     idProduct := idProduct a; bcdDevice := bcdDevice a |}.
Definition set_idProduct (v : Z) (a : usbg_gadget_attrs)
  : usbg_gadget_attrs :=
  {| bcdUSB := bcdUSB a; bDeviceClass := bDeviceClass a;
     bDeviceSubClass := bDeviceSubClass a;
     bDeviceProtocol := bDeviceProtocol a;
     bMaxPacketSize0 := bMaxPacketSize0 a; idVendor := idVendor a;
     idProduct := v; bcdDevice := bcdDevice a |}.
Definition set_bcdDevice (v : Z) (a : usbg_gadget_attrs)
  : usbg_gadget_attrs :=
  {| bcdUSB := bcdUSB a; bDeviceClass := bDeviceClass a;
     bDeviceSubClass := bDeviceSubClass a;
     bDeviceProtocol := bDeviceProtocol a;
     bMaxPacketSize0 := bMaxPacketSize0 a; idVendor := idVendor a;
     idProduct := idProduct a; bcdDevice := v |}.

Section ReadBack.
Context `{Platform}.

(** [dest] is the [int] found in [*dest] on entry; the second component of
    the result is the one left there.  [strtol] never leaves [pos] null, so
    the test of it changes nothing. *)
Definition usbg_read_int (path name file : string) (base : Z) (dest : Z)
  : M (usbg_error * Z) :=
  '(ret, buf) ← usbg_read_buf path name file "";
  if decide (ret = USBG_SUCCESS)
  then mret (ret, int_of_long (st_value (strtol base buf)))
  else mret (ret, dest).

Definition usbg_read_dec (p n f : string) (d : Z) : M (usbg_error * Z) :=
  usbg_read_int p n f 10 d.
Definition usbg_read_hex (p n f : string) (d : Z) : M (usbg_error * Z) :=
  usbg_read_int p n f 16 d.

(** The structure the caller passes is filled member by member, so a
    failure leaves it with the members read so far.  The local [buf] has
    no value before the first read; it is read after a success only. *)
Definition usbg_parse_gadget_attrs (path name : string)
    (a : usbg_gadget_attrs) : M (usbg_error * usbg_gadget_attrs) :=
  '(ret, buf) ← usbg_read_hex path name "bcdUSB" 0;
  if decide (ret ≠ USBG_SUCCESS) then mret (ret, a) else
  let a := set_bcdUSB (uint16_of_int buf) a in
  '(ret, buf) ← usbg_read_hex path name "bcdDevice" buf;
  if decide (ret ≠ USBG_SUCCESS) then mret (ret, a) else
  let a := set_bcdDevice (uint16_of_int buf) a in
  '(ret, buf) ← usbg_read_hex path name "bDeviceClass" buf;
  if decide (ret ≠ USBG_SUCCESS) then mret (ret, a) else
  let a := set_bDeviceClass (uint8_of_int buf) a in
  '(ret, buf) ← usbg_read_hex path name "bDeviceSubClass" buf;
  if decide (ret ≠ USBG_SUCCESS) then mret (ret, a) else
  let a := set_bDeviceSubClass (uint8_of_int buf) a in
  '(ret, buf) ← usbg_read_hex path name "bDeviceProtocol" buf;
  if decide (ret ≠ USBG_SUCCESS) then mret (ret, a) else
  let a := set_bDeviceProtocol (uint8_of_int buf) a in
  '(ret, buf) ← usbg_read_hex path name "bMaxPacketSize0" buf;
  if decide (ret ≠ USBG_SUCCESS) then mret (ret, a) else
  let a := set_bMaxPacketSize0 (uint8_of_int buf) a in
  '(ret, buf) ← usbg_read_hex path name "idVendor" buf;
  if decide (ret ≠ USBG_SUCCESS) then mret (ret, a) else
  let a := set_idVendor (uint16_of_int buf) a in
  '(ret, buf) ← usbg_read_hex path name "idProduct" buf;
  if decide (ret ≠ USBG_SUCCESS) then mret (ret, a) else
  mret (ret, set_idProduct (uint16_of_int buf) a).

(** An output structure is [None] for a null pointer, else its content on
    entry; the result holds its content on return. *)
Definition usbg_get_gadget_attrs (g : option addr)
    (g_attrs : option usbg_gadget_attrs)
  : M (usbg_error * option usbg_gadget_attrs) :=
  match g, g_attrs with
  | Some g, Some a =>
      x ← get_gadget g;
      '(ret, a) ← usbg_parse_gadget_attrs (g_path x) (g_name x) a;
      mret (ret, Some a)
  | _, _ => mret (USBG_ERROR_INVALID_PARAM, g_attrs)
  end.

Definition usbg_parse_config_attrs (path name : string)
    (a : usbg_config_attrs) : M (usbg_error * usbg_config_attrs) :=
  '(ret, buf) ← usbg_read_dec path name "MaxPower" 0;
  if decide (ret = USBG_SUCCESS) then
    let a := {| bmAttributes := bmAttributes a;
                bMaxPower := uint8_of_int buf |} in
    '(ret, buf) ← usbg_read_hex path name "bmAttributes" buf;
    if decide (ret = USBG_SUCCESS)
    then mret (ret, {| bmAttributes := uint8_of_int buf;
                       bMaxPower := bMaxPower a |})
    else mret (ret, a)
  else mret (ret, a).

Definition usbg_get_config_attrs (c : option addr)
    (c_attrs : option usbg_config_attrs)
  : M (usbg_error * option usbg_config_attrs) :=
  match c, c_attrs with
  | Some c, Some a =>
      x ← get_config c;
      '(ret, a) ← usbg_parse_config_attrs (c_path x) (c_name x) a;
      mret (ret, Some a)
  | _, _ => mret (USBG_ERROR_INVALID_PARAM, c_attrs)
  end.

Definition usbg_parse_gadget_strs (path name : string) (lang : Z)
    (s : usbg_gadget_strs) : M (usbg_error * usbg_gadget_strs) :=
  let '(spath, nmb) :=
    snprintf USBG_MAX_PATH_LENGTH (strings_path path name lang) in
  if Z.of_nat USBG_MAX_PATH_LENGTH <=? nmb
  then mret (USBG_ERROR_PATH_TOO_LONG, s)
  else
    dir ← opendir spath;
    if dir =? 0 then
      '(ret, ser) ← usbg_read_string spath "" "serialnumber" (str_ser s);
      let s := {| str_ser := ser; str_mnf := str_mnf s;
                  str_prd := str_prd s |} in
      if decide (ret ≠ USBG_SUCCESS) then mret (ret, s) else
      '(ret, mnf) ← usbg_read_string spath "" "manufacturer" (str_mnf s);
      let s := {| str_ser := str_ser s; str_mnf := mnf;
                  str_prd := str_prd s |} in
      if decide (ret ≠ USBG_SUCCESS) then mret (ret, s) else
      '(ret, prd) ← usbg_read_string spath "" "product" (str_prd s);
      mret (ret, {| str_ser := str_ser s; str_mnf := str_mnf s;
                    str_prd := prd |})
    else mret (usbg_translate_error dir, s).

Definition usbg_get_gadget_strs (g : option addr) (lang : Z)
    (g_strs : option usbg_gadget_strs)
  : M (usbg_error * option usbg_gadget_strs) :=
  match g, g_strs with
  | Some g, Some s =>
      x ← get_gadget g;
      '(ret, s) ← usbg_parse_gadget_strs (g_path x) (g_name x) lang s;
      mret (ret, Some s)
  | _, _ => mret (USBG_ERROR_INVALID_PARAM, g_strs)
  end.

Definition usbg_parse_config_strs (path name : string) (lang : Z)
    (s : usbg_config_strs) : M (usbg_error * usbg_config_strs) :=
  let '(spath, nmb) :=
    snprintf USBG_MAX_PATH_LENGTH (strings_path path name lang) in
  if nmb <? Z.of_nat USBG_MAX_PATH_LENGTH then
    dir ← opendir spath;
    if dir =? 0 then
      '(ret, conf) ←
        usbg_read_string spath "" "configuration" (configuration s);
      mret (ret, {| configuration := conf |})
    else mret (usbg_translate_error dir, s)
  else mret (USBG_ERROR_PATH_TOO_LONG, s).

Definition usbg_get_config_strs (c : option addr) (lang : Z)
    (c_strs : option usbg_config_strs)
  : M (usbg_error * option usbg_config_strs) :=
  match c, c_strs with
  | Some c, Some s =>
      x ← get_config c;
      '(ret, s) ← usbg_parse_config_strs (c_path x) (c_name x) lang s;
      mret (ret, Some s)
  | _, _ => mret (USBG_ERROR_INVALID_PARAM, c_strs)
  end.

(** The setters of one attribute. *)
Definition usbg_set_gadget_vendor_id (g : option addr) (idVendor : Z)
  : M usbg_error :=
  match g with
  | Some g =>
      x ← get_gadget g;
      usbg_write_hex16 (g_path x) (g_name x) "idVendor" idVendor
  | None => mret USBG_ERROR_INVALID_PARAM
  end.

Definition usbg_set_gadget_product_id (g : option addr) (idProduct : Z)
  : M usbg_error :=
  match g with
  | Some g =>
      x ← get_gadget g;
      usbg_write_hex16 (g_path x) (g_name x) "idProduct" idProduct
  | None => mret USBG_ERROR_INVALID_PARAM
  end.

Definition usbg_set_config_max_power (c : option addr) (bMaxPower : Z)
  : M usbg_error :=
  match c with
  | Some c =>
      x ← get_config c;
      usbg_write_dec (c_path x) (c_name x) "MaxPower" bMaxPower
  | None => mret USBG_ERROR_INVALID_PARAM
  end.

Definition usbg_set_config_bm_attrs (c : option addr) (bmAttributes : Z)
  : M usbg_error :=
  match c with
  | Some c =>
      x ← get_config c;
      usbg_write_hex8 (c_path x) (c_name x) "bmAttributes" bmAttributes
  | None => mret USBG_ERROR_INVALID_PARAM
  end.

(** *** The fields of the graph *)

(** [strncpy(dest, src, n)] writes [n] bytes, the characters of [src] and
    then terminators, and is undefined when [dest] has fewer; [dest] is
    the memory the caller's pointer leads to. *)
Definition strncpy (dest : list ascii) (src : string) (n : nat)
  : option (list ascii) :=
  if (n <=? length dest)%nat
  then Some (take n (list_ascii_of_string src ++ replicate n "000"%char)
             ++ drop n dest)
  else None.

(** An error code returned as a [size_t], which has the width of [long] on
    the ABIs the library is built for. *)
Definition size_t_of_int (z : Z) : Z := z mod 2 ^ LONG_BITS.

(** The getters of a string take the buffer ([None] for a null pointer)
    and return what they leave in it. *)
Definition usbg_get_configfs_path_len (s : option addr) : M Z :=
  match s with
  | Some s => x ← get_state s; mret (Z.of_nat (String.length (s_path x)))
  | None => mret (size_t_of_int (usbg_error_code USBG_ERROR_INVALID_PARAM))
  end.

Definition usbg_get_configfs_path (s : option addr)
    (buf : option (list ascii)) (len : nat)
  : M (usbg_error * option (list ascii)) :=
  match s, buf with
  | Some s, Some b =>
      x ← get_state s;
      b ← defined (strncpy b (s_path x) len);
      mret (USBG_SUCCESS, Some b)
  | _, _ => mret (USBG_ERROR_INVALID_PARAM, buf)
  end.

Definition usbg_get_gadget_name_len (g : option addr) : M Z :=
  match g with
  | Some g => x ← get_gadget g; mret (Z.of_nat (String.length (g_name x)))
  | None => mret (size_t_of_int (usbg_error_code USBG_ERROR_INVALID_PARAM))
  end.

Definition usbg_get_gadget_name (g : option addr)
    (buf : option (list ascii)) (len : nat)
  : M (usbg_error * option (list ascii)) :=
  match g, buf with
  | Some g, Some b =>
      x ← get_gadget g;
      b ← defined (strncpy b (g_name x) len);
      mret (USBG_SUCCESS, Some b)
  | _, _ => mret (USBG_ERROR_INVALID_PARAM, buf)
  end.

Definition usbg_get_gadget_udc_len (g : option addr) : M Z :=
  match g with
  | Some g => x ← get_gadget g; mret (Z.of_nat (String.length (g_udc x)))
  | None => mret (size_t_of_int (usbg_error_code USBG_ERROR_INVALID_PARAM))
  end.

Definition usbg_get_gadget_udc (g : option addr)
    (buf : option (list ascii)) (len : nat)
  : M (usbg_error * option (list ascii)) :=
  match g, buf with
  | Some g, Some b =>
      x ← get_gadget g;
      b ← defined (strncpy b (g_udc x) len);
      mret (USBG_SUCCESS, Some b)
  | _, _ => mret (USBG_ERROR_INVALID_PARAM, buf)
  end.

Definition usbg_get_config_label_len (c : option addr) : M Z :=
  match c with
  | Some c => x ← get_config c; mret (Z.of_nat (String.length (c_label x)))
  | None => mret (size_t_of_int (usbg_error_code USBG_ERROR_INVALID_PARAM))
  end.

Definition usbg_get_config_label (c : option addr)
    (buf : option (list ascii)) (len : nat)
  : M (usbg_error * option (list ascii)) :=
  match c, buf with
  | Some c, Some b =>
      x ← get_config c;
      b ← defined (strncpy b (c_label x) len);
      mret (USBG_SUCCESS, Some b)
  | _, _ => mret (USBG_ERROR_INVALID_PARAM, buf)
  end.

Definition usbg_get_config_id (c : option addr) : M Z :=
  match c with
  | Some c => x ← get_config c; mret (c_id x)
  | None => mret (usbg_error_code USBG_ERROR_INVALID_PARAM)
  end.

Definition usbg_get_function_instance_len (f : option addr) : M Z :=
  match f with
  | Some f =>
      x ← get_function f; mret (Z.of_nat (String.length (f_instance x)))
  | None => mret (size_t_of_int (usbg_error_code USBG_ERROR_INVALID_PARAM))
  end.

Definition usbg_get_function_instance (f : option addr)
    (buf : option (list ascii)) (len : nat)
  : M (usbg_error * option (list ascii)) :=
  match f, buf with
  | Some f, Some b =>
      x ← get_function f;
      b ← defined (strncpy b (f_instance x) len);
      mret (USBG_SUCCESS, Some b)
  | _, _ => mret (USBG_ERROR_INVALID_PARAM, buf)
  end.

Definition usbg_get_function_type (f : option addr) : M Z :=
  match f with
  | Some f => x ← get_function f; mret (f_type x)
  | None => mret (usbg_error_code USBG_ERROR_INVALID_PARAM)
  end.

Definition usbg_get_binding_target (b : option addr) : M (option addr) :=
  match b with
  | Some b => x ← get_binding b; mret (b_target x)
  | None => mret None
  end.

Definition usbg_get_binding_name_len (b : option addr) : M Z :=
  match b with
  | Some b => x ← get_binding b; mret (Z.of_nat (String.length (b_name x)))
  | None => mret (size_t_of_int (usbg_error_code USBG_ERROR_INVALID_PARAM))
  end.

Definition usbg_get_binding_name (b : option addr)
    (buf : option (list ascii)) (len : nat)
  : M (usbg_error * option (list ascii)) :=
  match b, buf with
  | Some b, Some m =>
      x ← get_binding b;
      m ← defined (strncpy m (b_name x) len);
      mret (USBG_SUCCESS, Some m)
  | _, _ => mret (USBG_ERROR_INVALID_PARAM, buf)
  end.

(** *** Iteration

    [TAILQ_NEXT] reads the link field of the object, which the model keeps
    in the queue of the object's parent. *)
Definition usbg_get_first_gadget (s : option addr) : M (option addr) :=
  match s with
  | Some s => x ← get_state s; mret (TAILQ_FIRST (s_gadgets x))
  | None => mret None
  end.

Definition usbg_get_first_function (g : option addr) : M (option addr) :=
  match g with
  | Some g => x ← get_gadget g; mret (TAILQ_FIRST (g_functions x))
  | None => mret None
  end.

Definition usbg_get_first_config (g : option addr) : M (option addr) :=
  match g with
  | Some g => x ← get_gadget g; mret (TAILQ_FIRST (g_configs x))
  | None => mret None
  end.

Definition usbg_get_first_binding (c : option addr) : M (option addr) :=
  match c with
  | Some c => x ← get_config c; mret (TAILQ_FIRST (c_bindings x))
  | None => mret None
  end.

Definition usbg_get_next_gadget (g : option addr) : M (option addr) :=
  match g with
  | Some g =>
      x ← get_gadget g;
      s ← get_state (g_parent x);
      defined (TAILQ_NEXT g (s_gadgets s))
  | None => mret None
  end.

Definition usbg_get_next_function (f : option addr) : M (option addr) :=
  match f with
  | Some f =>
      x ← get_function f;
      g ← get_gadget (f_parent x);
      defined (TAILQ_NEXT f (g_functions g))
  | None => mret None
  end.

Definition usbg_get_next_config (c : option addr) : M (option addr) :=
  match c with
  | Some c =>
      x ← get_config c;
      g ← get_gadget (c_parent x);
      defined (TAILQ_NEXT c (g_configs g))
  | None => mret None
  end.

Definition usbg_get_next_binding (b : option addr) : M (option addr) :=
  match b with
  | Some b =>
      x ← get_binding b;
      c ← get_config (b_parent x);
      defined (TAILQ_NEXT b (c_bindings c))
  | None => mret None
  end.

(** *** Removing strings *)

Definition usbg_rm_config_strs (c : option addr) (lang : Z) : M usbg_error :=
  match c with
  | None => mret USBG_ERROR_INVALID_PARAM
  | Some c =>
      x ← get_config c;
      let '(path, nmb) :=
        snprintf USBG_MAX_PATH_LENGTH
          (strings_path (c_path x) (c_name x) lang) in
      if nmb <? Z.of_nat USBG_MAX_PATH_LENGTH then usbg_rm_dir path ""
      else mret USBG_ERROR_PATH_TOO_LONG
  end.

Definition usbg_rm_gadget_strs (g : option addr) (lang : Z) : M usbg_error :=
  match g with
  | None => mret USBG_ERROR_INVALID_PARAM
  | Some g =>
      x ← get_gadget g;
      let '(path, nmb) :=
        snprintf USBG_MAX_PATH_LENGTH
          (strings_path (g_path x) (g_name x) lang) in
      if nmb <? Z.of_nat USBG_MAX_PATH_LENGTH then usbg_rm_dir path ""
      else mret USBG_ERROR_PATH_TOO_LONG
  end.

End ReadBack.

(** ** What a client sees

    The graph as the iteration API ([usbg_get_first_gadget],
    [usbg_get_next_gadget] and their siblings, which are [TAILQ_FIRST] and
    [TAILQ_NEXT]) and the attribute getters show it. *)

Record function_view := {
  fv_name : string;
  fv_type : Z;
  fv_instance : string
}.

Record binding_view := {
  bv_name : string;
  bv_target : function_view
}.

Record config_view := {
  cv_name : string;
  cv_label : string;
  cv_id : Z;
  cv_bindings : list binding_view
}.

Record gadget_view := {
  gv_name : string;
  gv_udc : string;
  gv_functions : list function_view;
  gv_configs : list config_view
}.

Definition view_function (h : heap) (a : addr) : option function_view :=
  f ← h_functions h !! a;
  Some {| fv_name := f_name f; fv_type := f_type f;
          fv_instance := f_instance f |}.

Definition view_binding (h : heap) (a : addr) : option binding_view :=
  b ← h_bindings h !! a;
  t ← b_target b;
  f ← view_function h t;
  Some {| bv_name := b_name b; bv_target := f |}.

Definition view_config (h : heap) (a : addr) : option config_view :=
  c ← h_configs h !! a;
  l ← tq_list (c_bindings c);
  bs ← mapM (view_binding h) l;
  Some {| cv_name := c_name c; cv_label := c_label c; cv_id := c_id c;
          cv_bindings := bs |}.

Definition view_gadget (h : heap) (a : addr) : option gadget_view :=
  g ← h_gadgets h !! a;
  lf ← tq_list (g_functions g);
  fs ← mapM (view_function h) lf;
  lc ← tq_list (g_configs g);
  cs ← mapM (view_config h) lc;
  Some {| gv_name := g_name g; gv_udc := g_udc g; gv_functions := fs;
          gv_configs := cs |}.

Definition view_state (h : heap) (s : addr) : option (list gadget_view) :=
  st ← h_states h !! s;
  l ← tq_list (s_gadgets st);
  mapM (view_gadget h) l.

(** The names a queue iterates over, for the four kinds of collection. *)
Definition names_of (name_of : heap -> addr -> option string) (h : heap)
    (q : tailq) : option (list string) :=
  l ← tq_list q;
  mapM (name_of h) l.

(** Whether the tree has a directory at [p]. *)
Definition is_dir (fs : filesys) (p : string) : bool :=
  bool_decide (fs_lookup fs (parse_path p) = Some FDir).

(** The content of the file at [p]. *)
Definition file_content (fs : filesys) (p : string) : option string :=
  match fs_lookup fs (parse_path p) with
  | Some (FFile c) => Some c
  | _ => None
  end.

(** ** A machine to run the library on *)

(** configfs mounted at [/sys/kernel/config] with no gadget yet, and one
    controller. *)
Definition boot_fs : filesys :=
  {| fs_nodes :=
       list_to_map
         [ (["sys"], FDir);
           (["sys"; "kernel"], FDir);
           (["sys"; "kernel"; "config"], FDir);
           (["sys"; "kernel"; "config"; "usb_gadget"], FDir);
           (["sys"; "class"], FDir);
           (["sys"; "class"; "udc"], FDir);
           (["sys"; "class"; "udc"; "UDC1"], FLink "../../devices/UDC1") ];
     fs_gadget_root := Some ["sys"; "kernel"; "config"; "usb_gadget"];
     fs_refuse := ∅ |}.

Definition boot : world :=
  {| w_fs := boot_fs; w_heap := empty_heap; w_trace := [] |}.

Definition configfs : string := "/sys/kernel/config".

(** The same machine whose kernel refuses stores to the files in [l]. *)
Definition refusing (l : list (string * Z)) (w : world) : world :=
  {| w_fs := {| fs_nodes := fs_nodes (w_fs w);
                fs_gadget_root := fs_gadget_root (w_fs w);
                fs_refuse :=
                  list_to_map (map (fun e => (parse_path e.1, e.2)) l) |};
     w_heap := w_heap w; w_trace := w_trace w |}.

Fixpoint replicate_char (n : nat) (c : ascii) : string :=
  match n with
  | O => ""
  | S m => String c (replicate_char m c)
  end.

(** [run m w]: the value of [m] started in [w], and [exec m w]: the world
    it leaves. *)
Definition run {A} (m : M A) (w : world) : option A := fst <$> m w.
Definition exec {A} (m : M A) (w : world) : option world := snd <$> m w.

(** From now on the kernel refuses stores to the files in [l]. *)
Definition kernel_refuses (l : list (string * Z)) : M unit :=
  fun w => Some (tt, refusing l w).

(** ** Scenarios *)

Section Scenarios.
#[local] Existing Instance linux64.

(** [usbg_init] on the empty root, then one gadget without attributes. *)
Definition with_gadget (name : string) : M (addr * addr) :=
  '(_, s) ← usbg_init configfs;
  s ← defined s;
  '(_, g) ← usbg_create_gadget (Some s) name None None (Some None);
  g ← defined g;
  mret (s, g).

Definition function_names_in (g : addr) : M (list string) :=
  x ← get_gadget g;
  h ← get_heap;
  defined (names_of function_name h (g_functions x)).

Definition config_names_in (g : addr) : M (list string) :=
  x ← get_gadget g;
  h ← get_heap;
  defined (names_of config_name h (g_configs x)).

Definition view_of (s : addr) : M (list gadget_view) :=
  h ← get_heap; defined (view_state h s).

(** Configs labelled ["c"] created in the order of [ids]: what each call
    returned and the names the gadget's collection then iterates over. *)
Definition configs_after (ids : list Z)
  : option (list usbg_error * list string) :=
  run ('(_, g) ← with_gadget "g1";
       r ← mapM (fun id => fst <$> usbg_create_config (Some g) id (Some "c")
                                     None None (Some None)) ids;
       n ← config_names_in g;
       mret (r, n)) boot.

(** A gadget with the functions acm.a, acm.c, acm.d and acm.b, created in
    that order. *)
Definition build : M (addr * list usbg_error) :=
  '(s, g) ← with_gadget "g1";
  r ← mapM (fun i => fst <$> usbg_create_function (Some g) F_ACM (Some i)
                               None (Some None)) ["a"; "c"; "d"; "b"];
  mret (s, r).

Definition built_view : option (list usbg_error * list gadget_view) :=
  run ('(s, r) ← build; v ← view_of s; mret (r, v)) boot.

(** The same graph torn down, and the root discovered again. *)
Definition rediscovered_view : option (Z * list gadget_view) :=
  run ('(s, _) ← build;
       usbg_cleanup s;;
       '(r, s) ← usbg_init configfs;
       s ← defined s;
       v ← view_of s;
       mret (r, v)) boot.

Definition acm_attrs : usbg_function_attrs :=
  {| serial_port_num := 0;
     net := {| dev_addr := []; host_addr := []; ifname := ""; qmult := 0 |};
     phonet_ifname := "" |}.

Definition acm0_dir : string :=
  "/sys/kernel/config/usb_gadget/g1/functions/acm.0".

(** [usbg_create_function] with attributes, on a kernel that keeps
    [port_num] read-only: the code returned, the functions of the gadget,
    whether the node is still allocated, whether the directory is still
    there, and the system calls of the one call. *)
Definition failed_create_function
  : option (usbg_error * list string * bool * bool * list syscall) :=
  run ('(_, g) ← with_gadget "g1";
       kernel_refuses [(acm0_dir +:+ "/port_num", EACCES)];;
       before ← (fun w => length (w_trace w)) <$> get_world;
       '(r, f) ← usbg_create_function (Some g) F_ACM (Some "0")
                   (Some acm_attrs) (Some None);
       n ← function_names_in g;
       h ← get_heap;
       w ← get_world;
       mret (r, n,
             bool_decide (is_Some (f ≫= fun a => h_functions h !! a)),
             is_dir (w_fs w) acm0_dir,
             drop before (w_trace w))) boot.

(** [usbg_create_gadget_vid_pid] on a kernel that refuses the store to
    [idVendor]: the code returned, the gadgets of the state, whether the
    node is still allocated, whether the directory is still there, and the
    system calls of the one call. *)
Definition failed_create_gadget
  : option (usbg_error * list gadget_view * bool * bool * list syscall) :=
  run ('(_, s) ← usbg_init configfs;
       kernel_refuses
         [("/sys/kernel/config/usb_gadget/g1/idVendor", EACCES)];;
       before ← (fun w => length (w_trace w)) <$> get_world;
       '(r, g) ← usbg_create_gadget_vid_pid s "g1" 7531 260 (Some None);
       s ← defined s;
       v ← view_of s;
       h ← get_heap;
       w ← get_world;
       mret (r, v,
             bool_decide (is_Some (g ≫= fun a => h_gadgets h !! a)),
             is_dir (w_fs w) "/sys/kernel/config/usb_gadget/g1",
             drop before (w_trace w))) boot.

(** [usbg_create_config] with attributes: the code returned, the configs
    of the gadget, whether the directory is there, the content of
    [MaxPower], and the system calls of the one call. *)
Definition create_config_with_attrs
  : option (usbg_error * list string * bool * option string * list syscall) :=
  run ('(_, g) ← with_gadget "g1";
       before ← (fun w => length (w_trace w)) <$> get_world;
       '(r, _) ← usbg_create_config (Some g) 1 (Some "c")
                   (Some {| bmAttributes := 192; bMaxPower := 250 |})
                   None (Some None);
       n ← config_names_in g;
       w ← get_world;
       mret (r, n,
             is_dir (w_fs w) "/sys/kernel/config/usb_gadget/g1/configs/c.1",
             file_content (w_fs w)
               "/sys/kernel/config/usb_gadget/g1/configs/c.1/MaxPower",
             drop before (w_trace w))) boot.

(** A gadget name with which ["<root>/<name>/configs"] takes 251 of the
    256 characters of the path buffer. *)
Definition long_name : string := replicate_char 213 "g".

Definition long_gadget : string :=
  "/sys/kernel/config/usb_gadget/" +:+ long_name.

(** [usbg_create_config] for id 12 and [usbg_create_function] for acm.0 in
    the gadget [long_name]: the codes returned, the configs of the gadget,
    which directories exist afterwards, and the system calls of each. *)
Definition overlong_create
  : option (usbg_error * list string * bool * bool * list syscall
            * usbg_error * list syscall) :=
  run ('(_, g) ← with_gadget long_name;
       before ← (fun w => length (w_trace w)) <$> get_world;
       '(r, _) ← usbg_create_config (Some g) 12 (Some "c") None None
                   (Some None);
       n ← config_names_in g;
       w ← get_world;
       '(r2, _) ← usbg_create_function (Some g) F_ACM (Some "0") None
                    (Some None);
       w2 ← get_world;
       mret (r, n,
             is_dir (w_fs w) (long_gadget +:+ "/configs/c.12"),
             is_dir (w_fs w) (long_gadget +:+ "/configs/c.1"),
             drop before (w_trace w),
             r2, drop (length (w_trace w)) (w_trace w2))) boot.

Definition g1_dir : string := "/sys/kernel/config/usb_gadget/g1".
Definition g1_udc : string := "/sys/kernel/config/usb_gadget/g1/UDC".

(** A gadget enabled on the default controller; then [trouble] comes from
    outside the library, and [op] runs.  The result is the code of the
    enable, the mirror after it, the code of [op], the mirror after [op],
    and the content of the attribute file at the end. *)
Definition udc_scenario (trouble : M unit) (op : addr -> M usbg_error)
  : option (usbg_error * string * usbg_error * string * option string) :=
  run ('(_, g) ← with_gadget "g1";
       r1 ← usbg_enable_gadget (Some g) None;
       x ← get_gadget g;
       trouble;;
       r2 ← op g;
       y ← get_gadget g;
       w ← get_world;
       mret (r1, g_udc x, r2, g_udc y, file_content (w_fs w) g1_udc)) boot.

(** Another process removes the directory of the gadget, so that [fopen]
    no longer finds the attribute file. *)
Definition gadget_removed : M unit :=
  fun w => Some (tt, {| w_fs := (fs_rmdir g1_dir (w_fs w)).1;
                        w_heap := w_heap w; w_trace := w_trace w |}).

(** [usbg_disable_gadget] and [usbg_enable_gadget] for another controller
    when the file cannot be opened, and [usbg_enable_gadget] when the
    kernel answers the store with [ENODEV]. *)
Definition failed_disable
  : option (usbg_error * string * usbg_error * string * option string) :=
  udc_scenario gadget_removed (fun g => usbg_disable_gadget (Some g)).

Definition failed_enable
  : option (usbg_error * string * usbg_error * string * option string) :=
  udc_scenario gadget_removed
    (fun g => usbg_enable_gadget (Some g) (Some "UDC2")).

Definition refused_enable
  : option (usbg_error * string * usbg_error * string * option string) :=
  udc_scenario (kernel_refuses [(g1_udc, ENODEV)])
    (fun g => usbg_enable_gadget (Some g) (Some "UDC2")).

End Scenarios.

(** ** Vocabulary of the properties *)

Definition chars (s : string) : list ascii := list_ascii_of_string s.
Arguments chars : simpl never.

(** A C string holds no terminator. *)
Definition c_string (s : string) : Prop := "000"%char ∉ chars s.

#[global] Instance c_string_dec s : Decision (c_string s).
Proof. unfold c_string. apply _. Defined.

(** What [usbg_split_function_instance_type] owes its caller, case by
    case; on a failure only the return code is fixed. *)
Inductive split_function_spec (s : string) : split_function -> Prop :=
  | split_no_separator ty inst :
      "."%char ∉ chars s ->
      split_function_spec s
        (Build_split_function USBG_ERROR_INVALID_PARAM ty inst)
  | split_empty_type r ty inst :
      s = ("." +:+ r) ->
      split_function_spec s
        (Build_split_function USBG_ERROR_INVALID_PARAM ty inst)
  | split_empty_instance p ty inst :
      "."%char ∉ chars p -> s = (p +:+ ".") ->
      split_function_spec s
        (Build_split_function USBG_ERROR_INVALID_PARAM ty inst)
  | split_unknown_type p r ty inst :
      "."%char ∉ chars p -> p ≠ "" -> r ≠ "" -> s = (p +:+ "." +:+ r) ->
      p ∉ function_names ->
      split_function_spec s
        (Build_split_function USBG_ERROR_NOT_SUPPORTED ty inst)
  | split_known_type p r t :
      "."%char ∉ chars p -> r ≠ "" -> s = (p +:+ "." +:+ r) ->
      function_names !! t = Some p ->
      split_function_spec s
        (Build_split_function USBG_SUCCESS (Some (Z.of_nat t)) (Some r)).



Definition INT_MIN : Z := - 2 ^ 31.
Definition INT_MAX : Z := 2 ^ 31 - 1.



(** A line without its trailing newline. *)
Fixpoint chomp (s : string) : string :=
  match s with
  | EmptyString => ""
  | String c r =>
      match r with
      | EmptyString => if Ascii.eqb c "010" then "" else s
      | _ => String c (chomp r)
      end
  end.

(** The outcomes of [usbg_read_string] for the composed path [p]: code
    returned and buffer left. *)
Inductive read_string_spec `{Platform} (fs : filesys) (p : string)
  : usbg_error -> string -> Prop :=
  | read_path_too_long :
      (USBG_MAX_PATH_LENGTH <= String.length p)%nat ->
      read_string_spec fs p USBG_ERROR_PATH_TOO_LONG ""
  | read_open_failed errno :
      (String.length p < USBG_MAX_PATH_LENGTH)%nat ->
      fs_fopen_r p fs = inl errno ->
      read_string_spec fs p (usbg_translate_error errno) ""
  | read_failed content :
      (String.length p < USBG_MAX_PATH_LENGTH)%nat ->
      fs_fopen_r p fs = inr content ->
      fgets USBG_MAX_STR_LENGTH content = None ->
      read_string_spec fs p USBG_ERROR_IO ""
  | read_line content line :
      (String.length p < USBG_MAX_PATH_LENGTH)%nat ->
      fs_fopen_r p fs = inr content ->
      fgets USBG_MAX_STR_LENGTH content = Some line ->
      read_string_spec fs p USBG_SUCCESS (chomp line).

(** The in-memory mirror of a gadget's bound controller. *)
Definition mirror (w : world) (g : addr) : option string :=
  g_udc <$> h_gadgets (w_heap w) !! g.

(** The elements of [l] are linked one to the next and the last to [nxt],
    and backwards one to the other and the first to [prev]. *)
Fixpoint tq_seg (q : tailq) (prev : ptrloc) (l : list addr)
    (nxt : option addr) : Prop :=
  match l with
  | [] => True
  | a :: r =>
      tq_links q !! a
      = Some {| tqe_next := default nxt (Some <$> head r); tqe_prev := prev |}
      /\ tq_seg q (ElmNext a) r nxt
  end.

(** Where the [tqe_next] field of the last element of [l] is, or [prev]. *)
Definition tq_end (prev : ptrloc) (l : list addr) : ptrloc :=
  default prev (ElmNext <$> last l).

(** The queue holds exactly [l], in this order. *)
Definition tq_repr (q : tailq) (l : list addr) : Prop :=
  tqh_first q = head l /\ tq_seg q HeadFirst l None
  /\ tqh_last q = tq_end HeadFirst l /\ NoDup l.

(** The [tqe_next] fields alone lead through [l] and on to [nxt]. *)
Fixpoint tq_fwd (q : tailq) (l : list addr) (nxt : option addr) : Prop :=
  match l with
  | [] => True
  | a :: r =>
      tqe_next <$> tq_links q !! a = Some (default nxt (Some <$> head r))
      /\ tq_fwd q r nxt
  end.

(** The state of the scan in [INSERT_TAILQ_STRING_ORDER] once [x] has been
    put before [c]: the queue leads through [pre] to [x], on to [c] and
    through [post]; [c] and [post] are linked back properly, and the
    [tqe_prev] of [x] is [px]. *)
Definition scan_inv (q : tailq) (pre : list addr) (x : addr) (px : ptrloc)
    (c : addr) (post : list addr) : Prop :=
  tqh_first q = head (pre ++ [x])
  /\ tq_seg q HeadFirst pre (Some x)
  /\ tq_links q !! x = Some {| tqe_next := Some c; tqe_prev := px |}
  /\ tq_seg q (ElmNext x) (c :: post) None
  /\ tqh_last q = tq_end (ElmNext x) (c :: post)
  /\ NoDup (pre ++ x :: c :: post).

(** The name of [a] is below [nx]: a scan for [nx] passes [a] by. *)
Definition passed (name_of : addr -> option string) (nx : string)
    (a : addr) : Prop :=
  exists n, name_of a = Some n /\ 0 < strcmp nx n.

(** The name of [a] is not below [nx]: a scan for [nx] inserts before
    [a]. *)
Definition hit (name_of : addr -> option string) (nx : string)
    (a : addr) : Prop :=
  exists n, name_of a = Some n /\ strcmp nx n <= 0.

(** Every call on the tree that [m] makes satisfies [P]. *)
Definition emits {A} (P : syscall -> Prop) (m : M A) : Prop :=
  forall w a w', m w = Some (a, w') ->
    exists evs, w_trace w' = w_trace w ++ evs /\ Forall P evs.

Definition not_rmdir (e : syscall) : Prop :=
  match e with
  | SysRmdir _ => False
  | _ => True
  end.

(** [m] makes no call on the tree and leaves the tree as it is. *)
Definition silent {A} (m : M A) : Prop :=
  forall w a w', m w = Some (a, w') ->
    w_fs w' = w_fs w /\ w_trace w' = w_trace w.

Definition is_read (e : syscall) : Prop :=
  match e with
  | SysOpenRead _ | SysOpendir _ | SysScandir _ | SysReadlink _ => True
  | _ => False
  end.

(** [m] leaves the tree as it is, and the calls it makes on the tree are
    [fopen] for reading, [opendir], [scandir] and [readlink]. *)
Definition reads_only {A} (m : M A) : Prop :=
  forall w a w', m w = Some (a, w') ->
    w_fs w' = w_fs w
    /\ exists evs, w_trace w' = w_trace w ++ evs /\ Forall is_read evs.

#[global] Instance tailq_entry_eq_dec : EqDecision tailq_entry.
Proof. solve_decision. Defined.

#[global] Instance tq_seg_dec q prev l nxt : Decision (tq_seg q prev l nxt).
Proof. revert prev. induction l; intros prev; simpl; apply _. Defined.

#[global] Instance tq_repr_dec q l : Decision (tq_repr q l).
Proof. unfold tq_repr. apply _. Defined.

#[global] Instance passed_dec name_of nx a : Decision (passed name_of nx a).
Proof.
  unfold passed. destruct (name_of a) as [n|].
  - destruct (decide (0 < strcmp nx n)) as [Hlt|Hge].
    + left. by exists n.
    + right. intros (m & [= <-] & Hm). done.
  - right. by intros (m & ? & _).
Defined.

#[global] Instance hit_dec name_of nx a : Decision (hit name_of nx a).
Proof.
  unfold hit. destruct (name_of a) as [n|].
  - destruct (decide (strcmp nx n <= 0)) as [Hle|Hgt].
    + left. by exists n.
    + right. intros (m & [= <-] & Hm). done.
  - right. by intros (m & ? & _).
Defined.

(** The first element that passes [test]. *)
Definition first_match (test : addr -> option bool) (l : list addr)
  : option addr :=
  head (filter (fun a => test a = Some true) l).

(** Whether the object at [a] is a config with this id and, when one is
    asked for, this label. *)
Definition config_matches (h : heap) (id : Z) (label : option string)
    (a : addr) : Prop :=
  match h_configs h !! a with
  | Some c =>
      c_id c = id
      /\ match label with
         | Some lb => c_label c = lb
         | None => True
         end
  | None => False
  end.

#[global] Instance config_matches_dec h id label a :
  Decision (config_matches h id label a).
Proof.
  unfold config_matches. destruct (h_configs h !! a); [|apply _].
  destruct label; apply _.
Defined.

(** Whether the object at [a] is a function of this type and instance. *)
Definition function_matches (h : heap) (type : Z) (instance : string)
    (a : addr) : Prop :=
  match h_functions h !! a with
  | Some f => f_type f = type /\ f_instance f = instance
  | None => False
  end.

#[global] Instance function_matches_dec h type instance a :
  Decision (function_matches h type instance a).
Proof.
  unfold function_matches. destruct (h_functions h !! a); apply _.
Defined.

(** Text without a terminator and without a newline. *)
Definition plain (s : string) : Prop :=
  c_string s /\ "010"%char ∉ chars s.

(** The C string that begins a buffer, [None] when the buffer holds no
    terminator. *)
Fixpoint buf_string (b : list ascii) : option string :=
  match b with
  | [] => None
  | c :: r =>
      if Ascii.eqb c "000" then Some "" else String c <$> buf_string r
  end.

(** The codes of the enumeration [usbg_error]. *)
Definition usbg_errors : list usbg_error :=
  [USBG_SUCCESS; USBG_ERROR_NO_MEM; USBG_ERROR_NO_ACCESS;
   USBG_ERROR_INVALID_PARAM; USBG_ERROR_NOT_FOUND; USBG_ERROR_IO;
   USBG_ERROR_EXIST; USBG_ERROR_NO_DEV; USBG_ERROR_BUSY;
   USBG_ERROR_NOT_SUPPORTED; USBG_ERROR_PATH_TOO_LONG;
   USBG_ERROR_OTHER_ERROR].

(** ** A sample graph

    Two gadgets, g1 and g2; in g1 the functions acm.a and ecm.usb0 and the
    configs c.1 and c.2; in c.1 a binding to each function.  Every name is
    created after those that sort before it.  The state is at address 1,
    the gadgets at 2 and 3, the functions at 4 and 5, the configs at 6 and
    7, the bindings at 8 and 9. *)
Section Sample.
#[local] Existing Instance linux64.

Definition sample_script : M (list usbg_error) :=
  '(s, g1) ← with_gadget "g1";
  '(r1, _) ← usbg_create_gadget (Some s) "g2" None None (Some None);
  '(r2, fa) ← usbg_create_function (Some g1) F_ACM (Some "a") None
                (Some None);
  '(r3, fe) ← usbg_create_function (Some g1) F_ECM (Some "usb0") None
                (Some None);
  '(r4, c1) ← usbg_create_config (Some g1) 1 (Some "c") None None
                (Some None);
  '(r5, _) ← usbg_create_config (Some g1) 2 (Some "c") None None
               (Some None);
  r6 ← usbg_add_config_function c1 "acm.a" fa;
  r7 ← usbg_add_config_function c1 "ecm.usb0" fe;
  mret [r1; r2; r3; r4; r5; r6; r7].

Definition sample : world := default boot (exec sample_script boot).

(** The objects of the sample, read through their addresses. *)
Definition sample_state : usbg_state :=
  default {| s_path := ""; s_gadgets := TAILQ_INIT |}
    (h_states (w_heap sample) !! 1%nat).

Definition sample_gadget : usbg_gadget :=
  default {| g_name := ""; g_path := ""; g_udc := "";
             g_configs := TAILQ_INIT; g_functions := TAILQ_INIT;
             g_parent := O |}
    (h_gadgets (w_heap sample) !! 2%nat).

Definition sample_config : usbg_config :=
  default {| c_bindings := TAILQ_INIT; c_parent := O; c_name := "";
             c_path := ""; c_label := ""; c_id := 0 |}
    (h_configs (w_heap sample) !! 6%nat).

Definition sample_binding : usbg_binding :=
  default {| b_parent := O; b_target := None; b_name := ""; b_path := "" |}
    (h_bindings (w_heap sample) !! 8%nat).

Definition sample_attrs : usbg_gadget_attrs :=
  {| bcdUSB := 512; bDeviceClass := 2; bDeviceSubClass := 0;
     bDeviceProtocol := 1; bMaxPacketSize0 := 64; idVendor := 7531;
     idProduct := 260; bcdDevice := 1 |}.

(** The sample after [usbg_set_gadget_attrs] on g1, and after one call of
    [usbg_write_hex16]. *)
Definition sample_with_attrs : world :=
  default sample
    (exec (usbg_set_gadget_attrs (Some 2%nat) (Some sample_attrs)) sample).

Definition sample_with_vendor : world :=
  default sample
    (exec (usbg_write_hex16 "/sys/kernel/config/usb_gadget" "g1" "idVendor"
             7531) sample).

(** The sample after a third config, and after [usbg_set_gadget_strs]. *)
Definition sample_with_config : world :=
  default sample
    (exec (usbg_create_config (Some 2%nat) 15 (Some "c") None None
             (Some None)) sample).

Definition sample_strs : usbg_gadget_strs :=
  {| str_ser := "0123456789"; str_mnf := "Foo Inc."; str_prd := "Bar" |}.

Definition sample_with_strs : world :=
  default sample
    (exec (usbg_set_gadget_strs (Some 2%nat) LANG_US_ENG (Some sample_strs))
       sample).

(** Four queued objects and four new ones, with the names that
    [sample_names] gives to the addresses 0 to 7. *)
Definition sample_names (a : addr) : option string :=
  ["b"; "d"; "f"; "h"; "a"; "z"; "g"; "c"] !! a.

Definition sample_queue : tailq :=
  foldl (fun q a => default q (TAILQ_INSERT_TAIL a q)) TAILQ_INIT
    [0; 1; 2; 3]%nat.

End Sample.

(** The members of a [usbg_gadget_attrs] are values of their C types. *)
Definition gadget_attrs_valid (a : usbg_gadget_attrs) : Prop :=
  0 <= bcdUSB a < 2 ^ 16 /\ 0 <= bDeviceClass a < 2 ^ 8
  /\ 0 <= bDeviceSubClass a < 2 ^ 8 /\ 0 <= bDeviceProtocol a < 2 ^ 8
  /\ 0 <= bMaxPacketSize0 a < 2 ^ 8 /\ 0 <= idVendor a < 2 ^ 16
  /\ 0 <= idProduct a < 2 ^ 16 /\ 0 <= bcdDevice a < 2 ^ 16.

(** Text that [usbg_read_string] gives back as it is: a C string of one
    line that is not empty and fits the buffer. *)
Definition readable `{Platform} (s : string) : Prop :=
  plain s /\ s ≠ "" /\ (String.length s < USBG_MAX_STR_LENGTH)%nat.

Definition gadget_strs_valid `{Platform} (s : usbg_gadget_strs) : Prop :=
  readable (str_ser s) /\ readable (str_mnf s) /\ readable (str_prd s).

(** [m] leaves the graph as it is. *)
Definition keeps_heap {A} (m : M A) : Prop :=
  forall w a w', m w = Some (a, w') -> w_heap w' = w_heap w.

(** The base in which [usbg_read_int] reads what a format wrote, and the
    values that a format and its base take there and back. *)
Definition base_of (fmt : int_format) : Z :=
  match fmt with
  | FmtDec => 10
  | _ => 16
  end.

Definition int_in_range (fmt : int_format) (v : Z) : Prop :=
  match fmt with
  | FmtDec => INT_MIN <= v <= INT_MAX
  | _ => 0 <= v <= INT_MAX
  end.

(** * Properties *)

(** ** Strings *)

Lemma append_nil_l s : "" +:+ s = s.
Proof. reflexivity. Qed.

Lemma append_cons c a b : String c a +:+ b = String c (a +:+ b).
Proof. reflexivity. Qed.

Lemma append_assoc a b c : (a +:+ b) +:+ c = a +:+ (b +:+ c).
Proof. induction a as [|x a IH]; [done|]. by rewrite !append_cons, IH. Qed.

Lemma length_append a b :
  String.length (a +:+ b) = (String.length a + String.length b)%nat.
Proof.
  induction a as [|x a IH]; [done|]. rewrite append_cons. simpl.
  by rewrite IH.
Qed.

Lemma chars_cons c s : chars (String c s) = c :: chars s.
Proof. reflexivity. Qed.

Lemma chars_app a b : chars (a +:+ b) = chars a ++ chars b.
Proof.
  induction a as [|x a IH]; [done|].
  by rewrite append_cons, !chars_cons, IH.
Qed.

Lemma c_string_app_r a b : c_string (a +:+ b) -> c_string b.
Proof. unfold c_string. rewrite chars_app, not_elem_of_app. tauto. Qed.

Lemma str_head_nul s : c_string s -> str_head s = "000"%char -> s = "".
Proof.
  destruct s as [|x r]; [done|]. unfold c_string. simpl. intros Hn ->.
  exfalso. apply Hn. rewrite chars_cons. left.
Qed.

Lemma str_from_0 s : str_from s 0 = s.
Proof. by destruct s. Qed.

Lemma str_from_app a b : str_from (a +:+ b) (String.length a) = b.
Proof.
  induction a as [|x a IH]; [apply str_from_0|].
  rewrite append_cons. simpl. apply IH.
Qed.

Lemma strndup_all s n : (String.length s <= n)%nat -> strndup s n = s.
Proof.
  revert s. induction n as [|n IH]; intros [|x r]; simpl; try done; try lia.
  intros Hl. f_equal. apply IH. lia.
Qed.

Lemma strchr_None s c : strchr s c = None <-> c ∉ chars s.
Proof.
  induction s as [|x r IH]; simpl.
  - split; [intros _; apply not_elem_of_nil | done].
  - rewrite chars_cons, not_elem_of_cons.
    destruct (Ascii.eqb_spec x c) as [->|Hne].
    + split; [done | intros [? _]; done].
    + destruct (strchr r c) eqn:E.
      * split; [done|]. intros [_ Hr]. apply IH in Hr. done.
      * split; [|done]. intros _. split; [congruence | by apply IH].
Qed.

(** [strchr] splits at the first occurrence. *)
Lemma strchr_Some s c i :
  strchr s c = Some i ->
  s = (strndup s i +:+ String c (str_from s (S i)))
  /\ (c ∉ chars (strndup s i)) /\ String.length (strndup s i) = i.
Proof.
  revert i. induction s as [|x r IH]; intros i; simpl; [done|].
  destruct (Ascii.eqb_spec x c) as [->|Hne].
  - intros [= <-]. split; [done|]. split; [apply not_elem_of_nil | done].
  - destruct (strchr r c) as [j|] eqn:E; [|done].
    intros [= <-]. destruct (IH j eq_refl) as (H1 & H2 & H3).
    change (str_from (String x r) (S (S j))) with (str_from r (S j)).
    change (strndup (String x r) (S j)) with (String x (strndup r j)).
    rewrite append_cons, <- H1. split; [done|].
    split; [|by simpl; rewrite H3].
    rewrite chars_cons, not_elem_of_cons. split; [congruence | done].
Qed.

Lemma strrchr_None s c : strrchr s c = None <-> c ∉ chars s.
Proof.
  induction s as [|x r IH]; simpl.
  - split; [intros _; apply not_elem_of_nil | done].
  - rewrite chars_cons, not_elem_of_cons.
    destruct (strrchr r c) eqn:E.
    + split; [done|]. intros [_ Hr]. apply IH in Hr. done.
    + destruct (Ascii.eqb_spec x c) as [->|Hne].
      * split; [done | intros [? _]; done].
      * split; [|done]. intros _. split; [congruence | by apply IH].
Qed.


(** ** The function-type table *)

Lemma lookup_scan_spec names name i :
  let r := lookup_scan names name i in
  i <= r <= i + Z.of_nat (length names)
  /\ (r < i + Z.of_nat (length names) -> names !! Z.to_nat (r - i) = Some name)
  /\ (r = i + Z.of_nat (length names) -> name ∉ names).
Proof.
  revert i. induction names as [|n rest IH]; intros i; simpl.
  - split; [lia|]. split; [lia|]. intros _. apply not_elem_of_nil.
  - destruct (String.eqb_spec name n) as [->|Hne].
    + split; [lia|]. split.
      * intros _. by replace (i - i) with 0 by lia.
      * lia.
    + specialize (IH (i + 1)). simpl in IH. destruct IH as (Hb & Hin & Hout).
      split; [lia|]. split.
      * intros Hlt.
        replace (Z.to_nat (lookup_scan rest name (i + 1) - i))
          with (S (Z.to_nat (lookup_scan rest name (i + 1) - (i + 1)))) by lia.
        simpl. apply Hin. lia.
      * intros Heq. rewrite not_elem_of_cons. split; [done|]. apply Hout. lia.
Qed.

Lemma usbg_lookup_function_type_spec name :
  (exists t, function_names !! t = Some name
             /\ usbg_lookup_function_type name = Z.of_nat t)
  \/ ((name ∉ function_names) /\ usbg_lookup_function_type name = -1).
Proof.
  unfold usbg_lookup_function_type.
  pose proof (lookup_scan_spec function_names name 0) as (Hb & Hin & Hout).
  destruct (Z.eqb_spec (lookup_scan function_names name 0)
              (Z.of_nat (length function_names))) as [Heq|Hne].
  - right. split; [apply Hout; lia | done].
  - left. exists (Z.to_nat (lookup_scan function_names name 0)). split.
    + rewrite <- Hin by lia. f_equal. lia.
    + lia.
Qed.

(** C3 (code bug).  The table is bidirectional for the ordinals 1 to 8, and
    the lookup by string finds every one of the nine names, ["gser"]
    included; but [usbg_get_function_type_str] tests [type > 0], so for the
    ordinal 0 ([F_SERIAL]) it returns the null pointer instead of
    ["gser"], and that ordinal does not round-trip. *)
Theorem serial_type_has_no_string :
  usbg_get_function_type_str F_SERIAL = None
  /\ function_names !! Z.to_nat F_SERIAL = Some "gser"
  /\ usbg_lookup_function_type "gser" = F_SERIAL
  /\ map usbg_get_function_type_str
       [F_ACM; F_OBEX; F_ECM; F_SUBSET; F_NCM; F_EEM; F_RNDIS; F_PHONET]
     = map Some ["acm"; "obex"; "ecm"; "geth"; "ncm"; "eem"; "rndis"; "phonet"]
  /\ map usbg_lookup_function_type function_names
     = [F_SERIAL; F_ACM; F_OBEX; F_ECM; F_SUBSET; F_NCM; F_EEM; F_RNDIS;
        F_PHONET].
Proof. repeat split. Qed.

(** ** Composite names *)

(** C7.  For every C string, [usbg_split_function_instance_type] splits at
    the first ['.']: it returns "invalid parameter" when there is no
    separator, when the separator comes first, and when nothing follows
    it; otherwise "not supported" when the prefix is not one of the table's
    strings, and else success with the table index of the prefix as type
    and the suffix as instance.  ["acm."] and [".acm.0"] are rejected. *)
Theorem usbg_split_function_instance_type_correct (s : string)
    (Hs : c_string s) :
  split_function_spec s (usbg_split_function_instance_type s)
  /\ sf_ret (usbg_split_function_instance_type "acm.")
     = USBG_ERROR_INVALID_PARAM
  /\ sf_ret (usbg_split_function_instance_type ".acm.0")
     = USBG_ERROR_INVALID_PARAM.
Proof.
  split; [|split; reflexivity].
  unfold usbg_split_function_instance_type.
  destruct (strchr s ".") as [dot|] eqn:E.
  - apply strchr_Some in E as (Hsplit & Hnodot & Hlen).
    set (p := strndup s dot) in *. set (r := str_from s (S dot)) in *.
    assert (Hr : c_string r).
    { rewrite Hsplit in Hs. apply c_string_app_r in Hs.
      change (String "." r) with ("." +:+ r) in Hs.
      by apply c_string_app_r in Hs. }
    destruct (Nat.eqb_spec dot 0) as [H0|H0]; simpl.
    + apply (split_empty_type s r). rewrite Hsplit.
      destruct p; [done | simpl in Hlen; lia].
    + destruct (Ascii.eqb_spec (str_head r) "000") as [Hh|Hh].
      * apply (split_empty_instance s p); [done|].
        by rewrite Hsplit, (str_head_nul r Hr Hh).
      * assert (r ≠ "") by (intros ->; by apply Hh).
        assert (p ≠ "") by (intros Hp; rewrite Hp in Hlen; simpl in Hlen; lia).
        destruct (usbg_lookup_function_type_spec p)
          as [(t & Ht & ->)|(Hnot & ->)].
        -- replace (0 <=? Z.of_nat t) with true
             by (symmetry; apply Z.leb_le; lia).
           by apply (split_known_type s p r t).
        -- simpl. by apply (split_unknown_type s p r).
  - apply split_no_separator. by apply strchr_None.
Qed.

Lemma usbg_split_function_instance_type_witness :
  c_string "ecm.usb0"
  /\ split_function_spec "ecm.usb0"
       (usbg_split_function_instance_type "ecm.usb0").
Proof.
  assert (Hs : c_string "ecm.usb0")
    by (apply (bool_decide_unpack _); vm_compute; exact I).
  split; [exact Hs|].
  exact (proj1 (usbg_split_function_instance_type_correct "ecm.usb0" Hs)).
Defined.

(** *** Config names *)


Lemma skip_space_head r : isspace (str_head r) = false -> skip_space r = 0%nat.
Proof. destruct r; simpl; [done|]. by intros ->. Qed.

Section SplitConfig.
Context `{Platform}.


Lemma long_contains_int :
  32 <= LONG_BITS -> LONG_MIN <= INT_MIN /\ INT_MAX <= LONG_MAX.
Proof.
  intros Hb. unfold LONG_MIN, LONG_MAX, INT_MIN, INT_MAX.
  assert (2 ^ 31 <= 2 ^ (LONG_BITS - 1)) by (apply Z.pow_le_mono_r; lia).
  lia.
Qed.

Lemma int_of_long_id z : INT_MIN <= z <= INT_MAX -> int_of_long z = z.
Proof.
  unfold INT_MIN, INT_MAX, int_of_long. intros Hz.
  rewrite Z.mod_small; lia.
Qed.



End SplitConfig.



(** ** AttributeIO *)

Lemma chomp_app_nl a : chomp (a +:+ nl) = a.
Proof.
  induction a as [|c a IH]; [reflexivity|].
  rewrite append_cons. simpl. rewrite IH.
  destruct a; reflexivity.
Qed.

Lemma chomp_no_nl s : strchr s "010" = None -> chomp s = s.
Proof.
  induction s as [|c r IH]; [done|]. simpl.
  destruct (Ascii.eqb_spec c "010") as [->|Hne]; [done|].
  destruct (strchr r "010") eqn:E; [done|]. intros _.
  destruct r; [done|]. by rewrite IH.
Qed.

(** A newline in what [fgets] stored is its last character. *)
Lemma line_newline_last m content i :
  strchr (cstr (line_prefix m content)) "010" = Some i ->
  cstr (line_prefix m content)
  = (strndup (cstr (line_prefix m content)) i +:+ nl).
Proof.
  revert content i. induction m as [|m IH]; intros [|x r] i; simpl; try done.
  destruct (Ascii.eqb_spec x "010") as [->|Hne]; simpl.
  - intros [= <-]. reflexivity.
  - destruct (Ascii.eqb_spec x "000") as [->|Hnul]; simpl; [done|].
    destruct (Ascii.eqb_spec x "010") as [?|_]; [done|].
    destruct (strchr (cstr (line_prefix m r)) "010") as [j|] eqn:E; [|done].
    intros [= <-]. simpl. rewrite append_cons. f_equal. by apply IH.
Qed.

Lemma fgets_newline_last n content line i :
  fgets n content = Some line -> strchr line "010" = Some i ->
  line = (strndup line i +:+ nl).
Proof.
  unfold fgets. destruct n as [|[|n]]; [done| |].
  - intros [= <-]. done.
  - destruct content as [|a content]; [done|]. intros [= <-].
    apply (line_newline_last (S n) (String a content)).
Qed.

Lemma usbg_translate_error_fails errno :
  usbg_translate_error errno ≠ USBG_SUCCESS.
Proof.
  unfold usbg_translate_error.
  repeat match goal with |- context [if ?b then _ else _] => destruct b end;
    discriminate.
Qed.

(** C10.  [usbg_read_string] always returns, touching neither the tree nor
    the heap; whenever the code it returns is not success (the path does
    not fit, the file cannot be opened, or nothing can be read) the buffer
    it leaves is the empty string, and on success the buffer is the line
    [fgets] read without its trailing newline. *)
Theorem usbg_read_string_buffer `{Platform} (path name file buf : string)
    (w : world) :
  exists ret out w',
    usbg_read_string path name file buf w = Some (ret, out, w')
    /\ w_fs w' = w_fs w /\ w_heap w' = w_heap w
    /\ (ret ≠ USBG_SUCCESS -> out = "")
    /\ read_string_spec (w_fs w) (path3 path name file) ret out.
Proof.
  unfold usbg_read_string, usbg_read_buf, snprintf.
  set (p := path3 path name file).
  destruct (Z.ltb_spec (Z.of_nat (String.length p))
              (Z.of_nat USBG_MAX_PATH_LENGTH)) as [Hfit|Hlong].
  - rewrite strndup_all by lia.
    unfold mbind, M_bind, fopen_r, syscall_fs. simpl.
    destruct (fs_fopen_r p (w_fs w)) as [errno|content] eqn:Eo; simpl.
    + destruct (decide (usbg_translate_error errno = USBG_SUCCESS)) as [Hs|_].
      { by apply usbg_translate_error_fails in Hs. }
      eexists _, _, _. split; [reflexivity|]. simpl.
      split; [reflexivity|]. split; [reflexivity|]. split; [done|].
      apply read_open_failed; [lia | done].
    + destruct (fgets USBG_MAX_STR_LENGTH content) as [line|] eqn:Eg; simpl.
      * destruct (strchr line "010") as [i|] eqn:En; simpl.
        -- eexists _, _, _. split; [reflexivity|]. simpl.
           split; [reflexivity|]. split; [reflexivity|]. split; [done|].
           pose proof (fgets_newline_last _ _ _ _ Eg En) as Hl.
           rewrite <- (chomp_app_nl (strndup line i)), <- Hl.
           eapply read_line; [lia | done | done].
        -- eexists _, _, _. split; [reflexivity|]. simpl.
           split; [reflexivity|]. split; [reflexivity|]. split; [done|].
           rewrite <- (chomp_no_nl line En).
           eapply read_line; [lia | done | done].
      * eexists _, _, _. split; [reflexivity|]. simpl.
        split; [reflexivity|]. split; [reflexivity|]. split; [done|].
        eapply read_failed; [lia | done | done].
  - simpl. eexists _, _, _. split; [reflexivity|]. simpl.
    split; [reflexivity|]. split; [reflexivity|]. split; [done|].
    apply read_path_too_long. lia.
Qed.

(** ** Tail queues *)

Lemma tq_end_cons prev a r : tq_end prev (a :: r) = tq_end (ElmNext a) r.
Proof. unfold tq_end. rewrite last_cons. by destruct (last r). Qed.

Lemma tq_end_snoc prev l a : tq_end prev (l ++ [a]) = ElmNext a.
Proof. unfold tq_end. by rewrite last_snoc. Qed.

Lemma tq_end_app prev l1 a l2 :
  tq_end prev (l1 ++ a :: l2) = tq_end (ElmNext a) l2.
Proof.
  unfold tq_end. rewrite last_app_cons, last_cons. by destruct (last l2).
Qed.

Lemma tq_seg_frame q q' prev l nxt :
  (forall a, a ∈ l -> tq_links q' !! a = tq_links q !! a) ->
  tq_seg q prev l nxt -> tq_seg q' prev l nxt.
Proof.
  revert prev. induction l as [|a r IH]; intros prev Hl; simpl; [done|].
  intros [Ha Hr]. split.
  - rewrite Hl; [done | left].
  - apply IH; [|done]. intros b Hb. apply Hl. by right.
Qed.

Lemma tq_seg_dom q prev l nxt a :
  tq_seg q prev l nxt -> a ∈ l -> is_Some (tq_links q !! a).
Proof.
  revert prev. induction l as [|b r IH]; intros prev; simpl.
  - intros _ Ha. by apply elem_of_nil in Ha.
  - intros [Hb Hr] [->|Ha]%elem_of_cons; [by eexists | by eapply IH].
Qed.

Lemma tq_seg_app q prev l1 l2 nxt :
  tq_seg q prev (l1 ++ l2) nxt
  <-> tq_seg q prev l1 (default nxt (Some <$> head l2))
      /\ tq_seg q (tq_end prev l1) l2 nxt.
Proof.
  revert prev. induction l1 as [|a r IH]; intros prev.
  - simpl. unfold tq_end. simpl. tauto.
  - simpl. rewrite IH, tq_end_cons.
    assert (default nxt (Some <$> head (r ++ l2))
            = default (default nxt (Some <$> head l2)) (Some <$> head r))
      as -> by (by destruct r).
    tauto.
Qed.

Lemma tq_seg_fwd q prev l nxt : tq_seg q prev l nxt -> tq_fwd q l nxt.
Proof.
  revert prev. induction l as [|a r IH]; intros prev; simpl; [done|].
  intros [-> Hr]. split; [done | by eapply IH].
Qed.

Lemma tq_fwd_app q l1 l2 nxt :
  tq_fwd q (l1 ++ l2) nxt
  <-> tq_fwd q l1 (default nxt (Some <$> head l2)) /\ tq_fwd q l2 nxt.
Proof.
  induction l1 as [|a r IH]; simpl; [tauto|]. rewrite IH.
  assert (default nxt (Some <$> head (r ++ l2))
          = default (default nxt (Some <$> head l2)) (Some <$> head r))
    as -> by (by destruct r).
  tauto.
Qed.

Lemma tq_fwd_dom q l nxt a :
  tq_fwd q l nxt -> a ∈ l -> is_Some (tq_links q !! a).
Proof.
  induction l as [|b r IH]; simpl.
  - intros _ Ha. by apply elem_of_nil in Ha.
  - intros [Hb Hr] [->|Ha]%elem_of_cons; [|by eapply IH].
    destruct (tq_links q !! b); [by eexists | done].
Qed.

Lemma length_le_links (q : tailq) (l : list addr) :
  NoDup l -> (forall a, a ∈ l -> is_Some (tq_links q !! a)) ->
  (length l <= size (tq_links q))%nat.
Proof.
  intros Hnd Hdom.
  rewrite <- (size_list_to_set (C := gset addr) l Hnd), <- size_dom.
  apply subseteq_size. intros a Ha. apply elem_of_list_to_set in Ha.
  apply elem_of_dom. by apply Hdom.
Qed.

(** Walking the [tqe_next] fields. *)
Lemma tq_walk_fwd q l fuel :
  tq_fwd q l None -> (length l < fuel)%nat ->
  tq_walk fuel (head l) q = Some l.
Proof.
  revert fuel. induction l as [|a r IH]; intros fuel; simpl.
  - intros _ Hf. by destruct fuel.
  - intros [Ha Hr] Hf. destruct fuel as [|fuel]; [lia|]. simpl.
    unfold TAILQ_NEXT. rewrite Ha. simpl.
    assert (default None (Some <$> head r) = head r) as -> by (by destruct r).
    erewrite IH; [done | done | lia].
Qed.

Lemma tq_list_fwd q l :
  tqh_first q = head l -> tq_fwd q l None -> NoDup l -> tq_list q = Some l.
Proof.
  intros Hfirst Hfwd Hnd. unfold tq_list, TAILQ_FIRST.
  rewrite Hfirst. eapply tq_walk_fwd; [done|].
  unfold tq_fuel.
  pose proof (length_le_links q l Hnd (fun a => tq_fwd_dom q l None a Hfwd)).
  lia.
Qed.

(** Iterating over a well-formed queue gives its elements in order. *)
Lemma tq_list_repr q l : tq_repr q l -> tq_list q = Some l.
Proof.
  intros (Hfirst & Hseg & _ & Hnd).
  apply tq_list_fwd; [done | by eapply tq_seg_fwd | done].
Qed.

Lemma tq_set_prev_Some a l q e :
  tq_links q !! a = Some e ->
  tq_set_prev a l q
  = Some (tq_set_entry a {| tqe_next := tqe_next e; tqe_prev := l |} q).
Proof. intros He. unfold tq_set_prev. by rewrite He. Qed.

Lemma tq_store_head v q : tq_store HeadFirst v q = Some (tq_set_first v q).
Proof. reflexivity. Qed.

Lemma tq_store_elm a v q e :
  tq_links q !! a = Some e ->
  tq_store (ElmNext a) v q
  = Some (tq_set_entry a {| tqe_next := v; tqe_prev := tqe_prev e |} q).
Proof. intros He. simpl. by rewrite He. Qed.

Ltac tq_proj :=
  cbn [tqh_first tqh_last tq_links tq_set_entry tq_set_first tq_set_last].

#[local] Arguments tq_set_prev : simpl never.
#[local] Arguments tq_store : simpl never.

Lemma TAILQ_INSERT_BEFORE_unfold c x q ec :
  tq_links q !! c = Some ec -> c ≠ x ->
  TAILQ_INSERT_BEFORE c x q
  = tq_store (tqe_prev ec) (Some x)
      (tq_set_entry x {| tqe_next := Some c; tqe_prev := tqe_prev ec |} q)
    ≫= tq_set_prev c (ElmNext x).
Proof.
  intros Hc Hne. unfold TAILQ_INSERT_BEFORE. rewrite Hc. simpl.
  rewrite lookup_insert_ne by done. rewrite Hc. done.
Qed.

Lemma TAILQ_INSERT_HEAD_repr q l x :
  tq_repr q l -> x ∉ l ->
  exists q', TAILQ_INSERT_HEAD x q = Some q' /\ tq_repr q' (x :: l).
Proof.
  intros (Hfirst & Hseg & Hlast & Hnd) Hx. unfold TAILQ_INSERT_HEAD.
  rewrite Hfirst. destruct l as [|f r]; simpl.
  - erewrite tq_set_prev_Some by (simpl; apply lookup_insert_eq).
    eexists. split; [reflexivity|]. split; [done|]. split.
    + simpl. rewrite lookup_insert_eq. done.
    + split; [done | apply NoDup_singleton].
  - destruct Hseg as [Hf Hr]. apply not_elem_of_cons in Hx as [Hxf Hxr].
    apply NoDup_cons in Hnd as [Hfr Hnd'].
    erewrite (tq_set_prev_Some f)
      by (simpl; rewrite lookup_insert_ne by done; exact Hf).
    simpl.
    erewrite tq_set_prev_Some
      by (simpl; rewrite lookup_insert_ne by done; apply lookup_insert_eq).
    eexists. split; [reflexivity|]. split; [done|]. split.
    + simpl. rewrite lookup_insert_eq. split; [done|].
      rewrite lookup_insert_ne by done. rewrite lookup_insert_eq.
      split; [done|].
      eapply tq_seg_frame; [|exact Hr].
      intros b Hb. simpl.
      rewrite !lookup_insert_ne; [done|..]; intros ->; done.
    + split.
      * simpl. rewrite Hlast. by rewrite !tq_end_cons.
      * apply NoDup_cons. split; [|by apply NoDup_cons].
        apply not_elem_of_cons. done.
Qed.

Lemma TAILQ_INSERT_TAIL_repr q l x :
  tq_repr q l -> x ∉ l ->
  exists q', TAILQ_INSERT_TAIL x q = Some q' /\ tq_repr q' (l ++ [x]).
Proof.
  intros (Hfirst & Hseg & Hlast & Hnd) Hx. unfold TAILQ_INSERT_TAIL.
  destruct l as [|z l _] using rev_ind.
  - simpl. rewrite Hlast. unfold tq_end. simpl. rewrite ?tq_store_head. simpl.
    eexists. split; [reflexivity|]. split; [done|]. split.
    + simpl. rewrite lookup_insert_eq. done.
    + split; [done | apply NoDup_singleton].
  - rewrite tq_end_snoc in Hlast. simpl tqh_last. rewrite Hlast.
    apply tq_seg_app in Hseg as [Hl [Hz _]]. simpl in Hl, Hz.
    pose proof Hx as Hx0. pose proof Hnd as Hnd0.
    apply not_elem_of_app in Hx as [Hxl Hxz].
    apply not_elem_of_cons in Hxz as [Hxz _].
    apply NoDup_app in Hnd as (Hndl & Hlz & _).
    erewrite tq_store_elm
      by (simpl; rewrite lookup_insert_ne by done; exact Hz).
    simpl.
    eexists. split; [reflexivity|]. split.
    { simpl tqh_first. rewrite Hfirst. destruct l; reflexivity. }
    split.
    + rewrite <- app_assoc. apply tq_seg_app. split.
      * eapply tq_seg_frame; [|exact Hl]. intros b Hb. simpl.
        rewrite !lookup_insert_ne; [done|..]; intros <-; try done.
        apply (Hlz z); [done | left].
      * simpl. rewrite lookup_insert_eq. split; [done|].
        rewrite lookup_insert_ne by done. rewrite lookup_insert_eq. done.
    + split; [simpl; by rewrite tq_end_snoc|].
      apply NoDup_app. split; [done|].
      split; [|apply NoDup_singleton].
      intros b Hb [->|Hb']%elem_of_cons; [done | by apply elem_of_nil in Hb'].
Qed.

(** Reading through the pointer at the end of a segment. *)
Lemma tq_load_end q l nxt :
  tqh_first q = default nxt (Some <$> head l) ->
  tq_seg q HeadFirst l nxt ->
  tq_load (tq_end HeadFirst l) q = Some nxt.
Proof.
  intros Hfirst Hseg. destruct l as [|z l _] using rev_ind.
  - simpl. by rewrite Hfirst.
  - rewrite tq_end_snoc. apply tq_seg_app in Hseg as [_ [Hz _]].
    simpl in *. by rewrite Hz.
Qed.

Lemma TAILQ_LAST_repr q l : tq_repr q l -> TAILQ_LAST q = Some (last l).
Proof.
  intros (Hfirst & Hseg & Hlast & Hnd). unfold TAILQ_LAST. rewrite Hlast.
  destruct l as [|z l _] using rev_ind.
  - simpl. by rewrite Hfirst.
  - rewrite tq_end_snoc, last_snoc.
    apply tq_seg_app in Hseg as [Hl [Hz _]]. simpl in Hl, Hz.
    rewrite Hz. simpl. apply tq_load_end; [|done].
    rewrite Hfirst. by destruct l.
Qed.

Lemma scan_inv_repr q pre x c post :
  scan_inv q pre x (tq_end HeadFirst pre) c post ->
  tq_repr q (pre ++ x :: c :: post).
Proof.
  intros (Hfirst & Hpre & Hx & Hpost & Hlast & Hnd).
  split; [by rewrite Hfirst; destruct pre|]. split.
  - apply tq_seg_app. split; [done|]. split; done.
  - split; [|done]. by rewrite Hlast, tq_end_app, !tq_end_cons.
Qed.

Lemma scan_inv_list q pre x px c post :
  scan_inv q pre x px c post -> tq_list q = Some (pre ++ x :: c :: post).
Proof.
  intros (Hfirst & Hpre & Hx & Hpost & Hlast & Hnd).
  apply tq_list_fwd; [by rewrite Hfirst; destruct pre | | done].
  apply tq_fwd_app. split; [by eapply tq_seg_fwd|].
  split; [by rewrite Hx | by eapply tq_seg_fwd].
Qed.

(** The first [TAILQ_INSERT_BEFORE] of the scan. *)
Lemma TAILQ_INSERT_BEFORE_repr q pre c post x :
  tq_repr q (pre ++ c :: post) -> x ∉ pre ++ c :: post ->
  exists q', TAILQ_INSERT_BEFORE c x q = Some q'
    /\ scan_inv q' pre x (tq_end HeadFirst pre) c post
    /\ TAILQ_NEXT c q' = Some (head post).
Proof.
  intros (Hfirst & Hseg & Hlast & Hnd) Hx.
  apply tq_seg_app in Hseg as [Hpre [Hc Hpost]]. simpl in Hpre.
  apply not_elem_of_app in Hx as [Hxpre Hxc].
  apply not_elem_of_cons in Hxc as [Hxc Hxpost].
  pose proof Hnd as Hnd0.
  apply NoDup_app in Hnd as (Hndpre & Hprec & Hndc).
  apply NoDup_cons in Hndc as [Hcpost Hndpost].
  assert (Hcpre : c ∉ pre) by (intros Hin; apply (Hprec c Hin); left).
  rewrite (TAILQ_INSERT_BEFORE_unfold c x q _ Hc) by done. simpl tqe_prev.
  assert (Hframe : forall (m : gmap addr tailq_entry) e1 e2 b,
            b ∈ post -> <[c:=e1]> (<[x:=e2]> m) !! b = m !! b).
  { intros m e1 e2 b Hb.
    rewrite !lookup_insert_ne; [done|..]; intros <-; done. }
  destruct pre as [|p pre _] using rev_ind.
  - unfold tq_end at 1 2. simpl last. simpl default.
    rewrite ?tq_store_head. simpl.
    erewrite tq_set_prev_Some
      by (simpl; rewrite lookup_insert_ne by done; exact Hc).
    eexists. split; [reflexivity|]. split.
    + split; [done|]. split; [done|]. split.
      { simpl. rewrite lookup_insert_ne by done. apply lookup_insert_eq. }
      split.
      { simpl. rewrite lookup_insert_eq. split; [done|].
        eapply tq_seg_frame; [|exact Hpost]. intros b Hb. simpl.
        by apply Hframe. }
      split.
      { tq_proj. rewrite Hlast. simpl app. by rewrite !tq_end_cons. }
      simpl. apply NoDup_cons. split; [by apply not_elem_of_cons | done].
    + unfold TAILQ_NEXT. simpl. rewrite lookup_insert_eq. simpl.
      by destruct post.
  - rewrite tq_end_snoc in Hc |- *.
    apply tq_seg_app in Hpre as [Hpre' [Hp _]]. simpl in Hpre', Hp.
    assert (Hpx : p ≠ x).
    { intros ->. apply Hxpre. apply elem_of_app. right. left. }
    assert (Hpc : p ≠ c).
    { intros ->. apply Hcpre. apply elem_of_app. right. left. }
    pose proof Hndpre as Hndpre0.
    apply NoDup_app in Hndpre as (Hndpre' & Hprep & _).
    erewrite tq_store_elm
      by (simpl; rewrite lookup_insert_ne by done; exact Hp).
    simpl.
    erewrite tq_set_prev_Some
      by (simpl; rewrite !lookup_insert_ne by done; exact Hc).
    eexists. split; [reflexivity|]. split.
    + split.
      { simpl. rewrite Hfirst. rewrite <- !app_assoc. by destruct pre. }
      split.
      { apply tq_seg_app. split.
        - eapply tq_seg_frame; [|exact Hpre']. intros b Hb. simpl.
          rewrite !lookup_insert_ne; [done|..]; intros <-;
            first [ by apply Hcpre, elem_of_app; left
                  | by apply (Hprep p Hb); left
                  | by apply Hxpre, elem_of_app; left ].
        - simpl. rewrite lookup_insert_ne by done.
          rewrite lookup_insert_eq. done. }
      split.
      { simpl. rewrite !lookup_insert_ne by done. apply lookup_insert_eq. }
      split.
      { simpl. rewrite lookup_insert_eq. split; [done|].
        eapply tq_seg_frame; [|exact Hpost]. intros b Hb. simpl.
        rewrite !lookup_insert_ne; [done|..]; intros <-; try done.
        apply (Hprec p); [apply elem_of_app; right; left | by right]. }
      split.
      { tq_proj. rewrite Hlast. by rewrite tq_end_app, !tq_end_cons. }
      apply NoDup_app. split; [done|]. split.
      { intros b Hb [->|Hb']%elem_of_cons; [done | by eapply Hprec]. }
      apply NoDup_cons. split; [|by apply NoDup_cons].
      by apply not_elem_of_cons.
    + unfold TAILQ_NEXT. simpl. rewrite lookup_insert_eq. simpl.
      by destruct post.
Qed.

(** Every later [TAILQ_INSERT_BEFORE] of the scan takes [x] out from
    before [c] and puts it before [d]: nothing leads to [c] any more. *)
Lemma TAILQ_INSERT_BEFORE_again q pre x px c d post :
  scan_inv q pre x px c (d :: post) ->
  exists q', TAILQ_INSERT_BEFORE d x q = Some q'
    /\ scan_inv q' pre x (ElmNext c) d post
    /\ TAILQ_NEXT d q' = Some (head post).
Proof.
  intros (Hfirst & Hpre & Hx & [Hc [Hd Hpost]] & Hlast & Hnd).
  simpl in Hc.
  assert (Hnd' : NoDup (x :: c :: d :: post) /\ forall b, b ∈ pre ->
            b ≠ x /\ b ≠ c /\ b ≠ d /\ b ∉ post).
  { apply NoDup_app in Hnd as (_ & Hdis & Hnd). split; [done|].
    intros b Hb. specialize (Hdis b Hb).
    rewrite !not_elem_of_cons in Hdis. tauto. }
  destruct Hnd' as [Hnd' Hdis].
  apply NoDup_cons in Hnd' as [Hx' Hnd'].
  apply NoDup_cons in Hnd' as [Hc' Hnd'].
  apply NoDup_cons in Hnd' as [Hd' Hnd'].
  rewrite !not_elem_of_cons in Hx'. rewrite !not_elem_of_cons in Hc'.
  destruct Hx' as (Hxc & Hxd & Hxpost). destruct Hc' as (Hcd & Hcpost).
  rewrite (TAILQ_INSERT_BEFORE_unfold d x q _ Hd) by done. simpl tqe_prev.
  erewrite tq_store_elm
    by (simpl; rewrite lookup_insert_ne by done; exact Hc).
  simpl.
  erewrite tq_set_prev_Some
    by (simpl; rewrite !lookup_insert_ne by done; exact Hd).
  eexists. split; [reflexivity|]. split.
  - split; [done|]. split.
    { eapply tq_seg_frame; [|exact Hpre]. intros b Hb. simpl.
      destruct (Hdis b Hb) as (? & ? & ? & ?).
      rewrite !lookup_insert_ne; done. }
    split.
    { simpl. rewrite !lookup_insert_ne by done. apply lookup_insert_eq. }
    split.
    { simpl. rewrite lookup_insert_eq. split; [done|].
      eapply tq_seg_frame; [|exact Hpost]. intros b Hb. simpl.
      rewrite !lookup_insert_ne; [done|..]; intros <-; done. }
    split.
    { tq_proj. rewrite Hlast. by rewrite !tq_end_cons. }
    apply NoDup_app in Hnd as (Hndpre & _ & _).
    apply NoDup_app. split; [done|]. split.
    { intros b Hb. destruct (Hdis b Hb) as (? & ? & ? & ?).
      rewrite !not_elem_of_cons. done. }
    apply NoDup_cons. split; [by rewrite !not_elem_of_cons|].
    by apply NoDup_cons.
  - unfold TAILQ_NEXT. simpl. rewrite lookup_insert_eq. simpl.
    by destruct post.
Qed.

Section Scan.
Variable name_of : addr -> option string.
Variable x : addr.
Variable nx : string.
Hypothesis Hnx : name_of x = Some nx.

(** The scan after its first insertion. *)
Lemma insert_scan_post post : forall q pre px c fuel,
  scan_inv q pre x px c post -> Forall (hit name_of nx) post ->
  (length post < fuel)%nat ->
  exists q' px',
    insert_scan fuel name_of x (head post) q = Some q'
    /\ scan_inv q' pre x px' (default c (last post)) [].
Proof.
  induction post as [|d post IH]; intros q pre px c fuel Hinv Hhit Hfuel.
  - exists q, px. split; [by destruct fuel | done].
  - apply Forall_cons in Hhit as [(n & Hn & Hle) Hhit].
    destruct fuel as [|fuel]; [simpl in Hfuel; lia|].
    destruct (TAILQ_INSERT_BEFORE_again _ _ _ _ _ _ _ Hinv)
      as (q1 & Hq1 & Hinv1 & Hnext).
    destruct (IH q1 pre (ElmNext c) d fuel Hinv1 Hhit)
      as (q' & px' & Hq' & Hinv'); [simpl in Hfuel; lia|].
    exists q', px'. split.
    + simpl. rewrite Hnx, Hn. simpl.
      destruct (Z.ltb_spec 0 (strcmp nx n)) as [?|_]; [lia|].
      rewrite Hq1. simpl. rewrite Hnext. simpl. exact Hq'.
    + rewrite last_cons. by destruct (last post).
Qed.

(** The scan before its first insertion, at the elements it passes by. *)
Lemma insert_scan_pre pre2 : forall q pre1 rest fuel,
  tq_seg q (tq_end HeadFirst pre1) (pre2 ++ rest) None ->
  Forall (passed name_of nx) pre2 ->
  insert_scan (length pre2 + fuel) name_of x (head (pre2 ++ rest)) q
  = insert_scan fuel name_of x (head rest) q.
Proof.
  induction pre2 as [|a pre2 IH]; intros q pre1 rest fuel Hseg Hpass; [done|].
  apply Forall_cons in Hpass as [(n & Hn & Hlt) Hpass].
  destruct Hseg as [Ha Hseg].
  simpl. rewrite Hnx, Hn. simpl.
  destruct (Z.ltb_spec 0 (strcmp nx n)) as [_|?]; [|lia].
  simpl. unfold TAILQ_NEXT. rewrite Ha. simpl.
  assert (default None (Some <$> head (pre2 ++ rest)) = head (pre2 ++ rest))
    as -> by (by destruct (pre2 ++ rest)).
  apply (IH q (pre1 ++ [a])); [by rewrite tq_end_snoc | done].
Qed.

(** The whole scan on a queue that holds [pre ++ c :: post], where the
    names of [pre] are below that of [x] and those of [c] and [post] are
    not: the queue then leads through [pre] to [x] and to the last of
    [c :: post], and to nothing else. *)
Lemma insert_scan_repr q pre c post :
  tq_repr q (pre ++ c :: post) -> x ∉ pre ++ c :: post ->
  Forall (passed name_of nx) pre -> Forall (hit name_of nx) (c :: post) ->
  exists q',
    insert_scan (tq_fuel q) name_of x (TAILQ_FIRST q) q = Some q'
    /\ tq_list q' = Some (pre ++ [x; default c (last post)])
    /\ (post = [] -> tq_repr q' (pre ++ [x; c])).
Proof.
  intros Hrepr Hx Hpass Hhit.
  pose proof Hrepr as (Hfirst & Hseg & Hlast & Hnd).
  apply Forall_cons in Hhit as [(n & Hn & Hle) Hhit].
  assert (Hfuel : exists fuel,
            tq_fuel q = (length pre + S fuel)%nat /\ (length post < fuel)%nat).
  { pose proof (length_le_links q _ Hnd
                  (fun a => tq_seg_dom q HeadFirst _ None a Hseg)) as Hlen.
    rewrite length_app in Hlen. simpl in Hlen. unfold tq_fuel.
    exists (size (tq_links q) - length pre)%nat. lia. }
  destruct Hfuel as (fuel & -> & Hfuel).
  unfold TAILQ_FIRST. rewrite Hfirst.
  rewrite (insert_scan_pre pre q [] (c :: post) (S fuel)); [|done|done].
  destruct (TAILQ_INSERT_BEFORE_repr q pre c post x Hrepr Hx)
    as (q1 & Hq1 & Hinv1 & Hnext).
  destruct (insert_scan_post post q1 pre _ c fuel Hinv1 Hhit Hfuel)
    as (q' & px' & Hq' & Hinv').
  exists q'. split.
  - simpl. rewrite Hnx, Hn. simpl.
    destruct (Z.ltb_spec 0 (strcmp nx n)) as [?|_]; [lia|].
    rewrite Hq1. simpl. rewrite Hnext. simpl. exact Hq'.
  - split; [by eapply scan_inv_list|].
    intros ->. simpl in Hq'. destruct fuel; [lia|]. simpl in Hq'.
    injection Hq' as <-. by apply scan_inv_repr in Hinv1.
Qed.

(** [INSERT_TAILQ_STRING_ORDER] on a queue that holds [l]: [x] goes to the
    head when [l] is empty or the first name is above that of [x], and to
    the tail when the last name is below.  Otherwise, with [l] split into
    the elements whose names are below that of [x] and the others, [c] and
    [post], the queue afterwards iterates over the first part, [x] and the
    last of [c :: post]; it holds all of [l] only when [post] is empty. *)
Lemma INSERT_TAILQ_STRING_ORDER_spec q l :
  tq_repr q l -> x ∉ l ->
  ((l = [] \/ exists f n, head l = Some f /\ name_of f = Some n
                          /\ strcmp nx n < 0) ->
   exists q', INSERT_TAILQ_STRING_ORDER name_of x q = Some q'
              /\ tq_repr q' (x :: l))
  /\ (forall f n z m,
        head l = Some f -> name_of f = Some n -> 0 <= strcmp nx n ->
        last l = Some z -> name_of z = Some m -> 0 < strcmp nx m ->
        exists q', INSERT_TAILQ_STRING_ORDER name_of x q = Some q'
                   /\ tq_repr q' (l ++ [x]))
  /\ (forall f n pre c post,
        head l = Some f -> name_of f = Some n -> 0 <= strcmp nx n ->
        l = pre ++ c :: post ->
        Forall (passed name_of nx) pre ->
        Forall (hit name_of nx) (c :: post) ->
        exists q', INSERT_TAILQ_STRING_ORDER name_of x q = Some q'
                   /\ tq_list q' = Some (pre ++ [x; default c (last post)])
                   /\ (post = [] -> tq_repr q' (pre ++ [x; c]))).
Proof.
  intros Hrepr Hx.
  pose proof Hrepr as (Hfirst & Hseg & Hlast & Hnd).
  unfold INSERT_TAILQ_STRING_ORDER.
  remember (insert_scan (tq_fuel q) name_of x (TAILQ_FIRST q) q) as scan
    eqn:Hscan.
  rewrite Hnx. simpl.
  unfold TAILQ_EMPTY, TAILQ_FIRST. rewrite Hfirst.
  split; [|split].
  - intros [->|(f & n & Hf & Hn & Hlt)].
    + simpl. by apply TAILQ_INSERT_HEAD_repr.
    + rewrite Hf. rewrite bool_decide_eq_false_2 by done. simpl.
      rewrite Hn. simpl.
      destruct (Z.ltb_spec (strcmp nx n) 0) as [_|?]; [|lia].
      by apply TAILQ_INSERT_HEAD_repr.
  - intros f n z m Hf Hn Hge Hz Hm Hgt.
    rewrite Hf. rewrite bool_decide_eq_false_2 by done. simpl.
    rewrite Hn. simpl.
    destruct (Z.ltb_spec (strcmp nx n) 0) as [?|_]; [lia|].
    rewrite (TAILQ_LAST_repr q l Hrepr), Hz. simpl. rewrite Hm. simpl.
    destruct (Z.ltb_spec 0 (strcmp nx m)) as [_|?]; [|lia].
    by apply TAILQ_INSERT_TAIL_repr.
  - intros f n pre c post Hf Hn Hge -> Hpass Hhit.
    rewrite Hf. rewrite bool_decide_eq_false_2 by done. simpl.
    rewrite Hn. simpl.
    destruct (Z.ltb_spec (strcmp nx n) 0) as [?|_]; [lia|].
    rewrite (TAILQ_LAST_repr q _ Hrepr), last_app_cons.
    assert (Hlastc : exists z m, last (c :: post) = Some z
              /\ name_of z = Some m /\ strcmp nx m <= 0).
    { destruct (last (c :: post)) as [z|] eqn:Hz.
      - assert (Hin : z ∈ c :: post).
        { apply last_Some in Hz as (l' & ->). apply elem_of_app. right. left. }
        rewrite Forall_forall in Hhit. destruct (Hhit z Hin) as (m & ? & ?).
        by exists z, m.
      - rewrite last_cons in Hz. destruct (last post); done. }
    destruct Hlastc as (z & m & -> & Hm & Hle). simpl. rewrite Hm. simpl.
    destruct (Z.ltb_spec 0 (strcmp nx m)) as [?|_]; [lia|].
    subst scan. by apply insert_scan_repr.
Qed.

(** When at least one name is below that of [x] and at least two are not,
    the insertion succeeds and the first element that is not below [x] is
    no longer reached from the head of the queue. *)
Lemma INSERT_TAILQ_STRING_ORDER_drops q p pre c d post :
  tq_repr q (p :: pre ++ c :: d :: post) ->
  x ∉ p :: pre ++ c :: d :: post ->
  Forall (passed name_of nx) (p :: pre) ->
  Forall (hit name_of nx) (c :: d :: post) ->
  exists q' l',
    INSERT_TAILQ_STRING_ORDER name_of x q = Some q'
    /\ tq_list q' = Some l' /\ x ∈ l' /\ c ∉ l'.
Proof.
  intros Hrepr Hx Hpass Hhit.
  pose proof Hpass as Hpass0.
  apply Forall_cons in Hpass0 as [(n & Hn & Hlt) _].
  destruct (INSERT_TAILQ_STRING_ORDER_spec q _ Hrepr Hx) as (_ & _ & Hmid).
  destruct (Hmid p n (p :: pre) c (d :: post)) as (q' & Hq' & Hl & _);
    [done | done | lia | done | done | done |].
  exists q', ((p :: pre) ++ [x; default c (last (d :: post))]).
  split; [done|]. split; [done|]. split.
  { apply elem_of_app. right. left. }
  destruct Hrepr as (_ & _ & _ & Hnd).
  change (NoDup ((p :: pre) ++ c :: d :: post)) in Hnd.
  apply NoDup_app in Hnd as (_ & Hdis & Hnd).
  apply NoDup_cons in Hnd as [Hc _].
  intros [Hin|Hin]%elem_of_app.
  - apply (Hdis c Hin). left.
  - apply elem_of_cons in Hin as [->|Hin].
    + apply Hx. change (x ∈ (p :: pre) ++ x :: d :: post).
      apply elem_of_app. right. left.
    + apply list_elem_of_singleton in Hin.
      destruct (last (d :: post)) as [z|] eqn:Hz.
      * apply last_Some in Hz as (l' & Hl'). simpl in Hin. subst z.
        apply Hc. rewrite Hl'. apply elem_of_app. right. left.
      * rewrite last_cons in Hz. destruct (last post); done.
Qed.

End Scan.

(** ** System calls *)

Lemma emits_ret {A} P (a : A) : emits P (mret a).
Proof. intros w b w' [= <- <-]. exists []. by rewrite app_nil_r. Qed.

Lemma emits_bind {A B} P (m : M A) (k : A -> M B) :
  emits P m -> (forall a, emits P (k a)) -> emits P (m ≫= k).
Proof.
  intros Hm Hk w b w' E. unfold mbind, M_bind in E.
  destruct (m w) as [[a w1]|] eqn:E1; [|done].
  destruct (Hm w a w1 E1) as (evs1 & Ht1 & Hf1).
  destruct (Hk a w1 b w' E) as (evs2 & Ht2 & Hf2).
  exists (evs1 ++ evs2). split; [by rewrite Ht2, Ht1, app_assoc|].
  by apply Forall_app.
Qed.

Lemma emits_fmap {A B} P (f : A -> B) (m : M A) :
  emits P m -> emits P (f <$> m).
Proof.
  intros Hm w b w' E. unfold fmap, M_fmap in E.
  destruct (m w) as [[a w1]|] eqn:E1; [|done]. injection E as <- <-.
  by eapply Hm.
Qed.

Lemma emits_undefined {A} P : emits P (@undefined A).
Proof. intros w a w' E. done. Qed.

Lemma emits_defined {A} P (o : option A) : emits P (defined o).
Proof.
  intros w a w' E. unfold defined in E. destruct o; [|done].
  injection E as <- <-. exists []. by rewrite app_nil_r.
Qed.

Lemma emits_get_heap P : emits P get_heap.
Proof. intros w a w' [= <- <-]. exists []. by rewrite app_nil_r. Qed.

Lemma emits_put_heap P h : emits P (put_heap h).
Proof. intros w a w' [= <- <-]. exists []. by rewrite app_nil_r. Qed.

Lemma emits_malloc P : emits P malloc.
Proof. intros w a w' [= <- <-]. exists []. by rewrite app_nil_r. Qed.

Lemma emits_syscall {A} (P : syscall -> Prop) ev
    (f : filesys -> filesys * A) :
  P ev -> emits P (syscall_fs ev f).
Proof.
  intros Hev w a w' E. unfold syscall_fs in E.
  destruct (f (w_fs w)) as [fs r]. injection E as <- <-.
  exists [ev]. split; [done | by constructor].
Qed.

Create HintDb emits discriminated.
#[local] Hint Resolve emits_ret emits_undefined emits_defined emits_get_heap
  emits_put_heap emits_malloc : emits.

(** One step through the structure of a computation. *)
Ltac emits_step :=
  match goal with
  | |- emits _ (mret _) => apply emits_ret
  | |- emits _ (_ ≫= _) => apply emits_bind; [|intros ?]
  | |- emits _ (_ <$> _) => apply emits_fmap
  | |- emits _ (match ?x with _ => _ end) => destruct x
  | |- emits _ (let '(_, _) := ?x in _) => destruct x
  | |- emits _ _ => solve [eauto with emits]
  end.

Ltac emits_go := repeat emits_step.

(** What touches the heap alone makes no system call, so it emits
    whatever [P] is. *)
Lemma emits_upd_gadgets P f : emits P (upd_gadgets f).
Proof. unfold upd_gadgets. emits_go. Qed.
Lemma emits_upd_configs P f : emits P (upd_configs f).
Proof. unfold upd_configs. emits_go. Qed.
Lemma emits_upd_functions P f : emits P (upd_functions f).
Proof. unfold upd_functions. emits_go. Qed.
Lemma emits_upd_bindings P f : emits P (upd_bindings f).
Proof. unfold upd_bindings. emits_go. Qed.
#[local] Hint Resolve emits_upd_gadgets emits_upd_configs
  emits_upd_functions emits_upd_bindings : emits.

Lemma emits_get_gadget P a : emits P (get_gadget a).
Proof. unfold get_gadget. emits_go. Qed.
Lemma emits_get_config P a : emits P (get_config a).
Proof. unfold get_config. emits_go. Qed.
Lemma emits_get_function P a : emits P (get_function a).
Proof. unfold get_function. emits_go. Qed.
Lemma emits_get_binding P a : emits P (get_binding a).
Proof. unfold get_binding. emits_go. Qed.
#[local] Hint Resolve emits_get_gadget emits_get_config emits_get_function
  emits_get_binding : emits.

Lemma emits_set_g_configs P a q : emits P (set_g_configs a q).
Proof. unfold set_g_configs. emits_go. Qed.
Lemma emits_set_g_functions P a q : emits P (set_g_functions a q).
Proof. unfold set_g_functions. emits_go. Qed.
Lemma emits_set_c_bindings P a q : emits P (set_c_bindings a q).
Proof. unfold set_c_bindings. emits_go. Qed.
#[local] Hint Resolve emits_set_g_configs emits_set_g_functions
  emits_set_c_bindings : emits.

Lemma emits_drain P fuel getq putq free1 :
  emits P getq -> (forall q, emits P (putq q)) ->
  (forall a, emits P (free1 a)) -> emits P (drain fuel getq putq free1).
Proof.
  intros Hg Hp Hf. induction fuel as [|fuel IH]; simpl; emits_go.
Qed.

Lemma emits_usbg_free_binding P b : emits P (usbg_free_binding b).
Proof. unfold usbg_free_binding, drop_binding_links. emits_go. Qed.
Lemma emits_usbg_free_function P f : emits P (usbg_free_function f).
Proof. unfold usbg_free_function, drop_function_links. emits_go. Qed.
#[local] Hint Resolve emits_usbg_free_binding emits_usbg_free_function
  : emits.

Lemma emits_usbg_free_config P c : emits P (usbg_free_config c).
Proof.
  unfold usbg_free_config, drop_config_links. emits_go.
  apply emits_drain; intros; emits_go.
Qed.

Lemma emits_find_in P q test : emits P (find_in q test).
Proof. unfold find_in. emits_go. Qed.
#[local] Hint Resolve emits_usbg_free_config emits_find_in : emits.

Lemma emits_insert_string_order P getq putq name_of elm :
  emits P getq -> (forall q, emits P (putq q)) ->
  emits P (insert_string_order getq putq name_of elm).
Proof. intros. unfold insert_string_order. emits_go. Qed.

Lemma emits_usbg_get_function P g t i : emits P (usbg_get_function g t i).
Proof. unfold usbg_get_function. emits_go. Qed.
Lemma emits_usbg_get_config P g t i : emits P (usbg_get_config g t i).
Proof. unfold usbg_get_config. emits_go. Qed.
#[local] Hint Resolve emits_usbg_get_function emits_usbg_get_config : emits.

Section Rollback.
Context `{Platform}.

Lemma emits_usbg_write_buf path name file buf :
  emits not_rmdir (usbg_write_buf path name file buf).
Proof.
  unfold usbg_write_buf, fopen_w. emits_go. by apply emits_syscall.
Qed.
#[local] Hint Resolve emits_usbg_write_buf : emits.

Lemma emits_usbg_write_int path name file v f :
  emits not_rmdir (usbg_write_int path name file v f).
Proof. unfold usbg_write_int. emits_go. Qed.
#[local] Hint Resolve emits_usbg_write_int : emits.

Lemma emits_usbg_set_function_attrs f a :
  emits not_rmdir (usbg_set_function_attrs f a).
Proof.
  unfold usbg_set_function_attrs, usbg_set_function_net_attrs,
    usbg_write_dec, usbg_write_string.
  emits_go.
Qed.

Lemma emits_usbg_check_dir path : emits not_rmdir (usbg_check_dir path).
Proof. unfold usbg_check_dir, opendir. emits_go; by apply emits_syscall. Qed.

Lemma emits_usbg_set_config_string c lang str :
  emits not_rmdir (usbg_set_config_string c lang str).
Proof.
  unfold usbg_set_config_string, usbg_write_string. emits_go.
  apply emits_usbg_check_dir.
Qed.

(** [usbg_create_function] never calls [rmdir]. *)
Lemma usbg_create_function_no_rmdir g type instance f_attrs f :
  emits not_rmdir (usbg_create_function g type instance f_attrs f).
Proof.
  unfold usbg_create_function, usbg_allocate_function, mkdir.
  emits_go; try (by apply emits_syscall);
    try apply emits_usbg_set_function_attrs;
    try (apply emits_insert_string_order; intros; emits_go).
Qed.

(** Nor does [usbg_create_config]. *)
Lemma usbg_create_config_no_rmdir g id label c_attrs c_strs c :
  emits not_rmdir (usbg_create_config g id label c_attrs c_strs c).
Proof.
  unfold usbg_create_config, usbg_allocate_config, usbg_set_config_attrs,
    mkdir.
  emits_go; try (by apply emits_syscall);
    try apply emits_usbg_set_config_string;
    try (apply emits_insert_string_order; intros; emits_go).
Qed.

End Rollback.

(** Taking a run of a computation apart. *)
Lemma bind_Some {A B} (m : M A) (k : A -> M B) w b w' :
  (m ≫= k) w = Some (b, w') ->
  exists a w1, m w = Some (a, w1) /\ k a w1 = Some (b, w').
Proof.
  unfold mbind, M_bind. destruct (m w) as [[a w1]|]; [|done].
  intros E. by exists a, w1.
Qed.

Lemma ret_Some {A} (a b : A) (w w' : world) :
  (mret a : M A) w = Some (b, w') -> b = a /\ w' = w.
Proof. by intros [= <- <-]. Qed.

Lemma defined_Some {A} (o : option A) a w w' :
  defined o w = Some (a, w') -> o = Some a /\ w' = w.
Proof. unfold defined. destruct o; [|done]. by intros [= <- <-]. Qed.

Lemma get_heap_Some h w w' :
  get_heap w = Some (h, w') -> h = w_heap w /\ w' = w.
Proof. by intros [= <- <-]. Qed.

Ltac inv_run :=
  repeat match goal with
  | H : (_ ≫= _) _ = Some _ |- _ =>
      let E := fresh "E" in apply bind_Some in H as (? & ? & E & H)
  | H : mret _ _ = Some _ |- _ => apply ret_Some in H as [? ?]; subst
  | H : defined _ _ = Some _ |- _ => apply defined_Some in H as [H ?]; subst
  | H : get_heap _ = Some _ |- _ => apply get_heap_Some in H as [? ?]; subst
  end.

Lemma get_gadget_Some g x w w' :
  get_gadget g w = Some (x, w') ->
  h_gadgets (w_heap w) !! g = Some x /\ w' = w.
Proof. unfold get_gadget. intros E. inv_run. done. Qed.

Lemma usbg_get_config_world g id label r w w' :
  usbg_get_config g id label w = Some (r, w') -> w' = w.
Proof.
  unfold usbg_get_config, find_in. intros E. inv_run.
  by apply get_gadget_Some in E0 as [_ ->].
Qed.

Lemma usbg_translate_error_fits errno :
  usbg_translate_error errno ≠ USBG_ERROR_PATH_TOO_LONG.
Proof.
  unfold usbg_translate_error.
  repeat match goal with |- context [if ?b then _ else _] => destruct b end;
    discriminate.
Qed.

Section PathOverflow.
Context `{Platform}.

(** A path that does not fit stops the attribute readers and writers
    before any system call. *)
Lemma attribute_path_too_long path name file buf w :
  (USBG_MAX_PATH_LENGTH <= String.length (path3 path name file))%nat ->
  usbg_read_buf path name file buf w
  = Some (USBG_ERROR_PATH_TOO_LONG, buf, w)
  /\ usbg_write_buf path name file buf w
     = Some (USBG_ERROR_PATH_TOO_LONG, w).
Proof.
  intros Hlong. unfold usbg_read_buf, usbg_write_buf, snprintf.
  destruct (Z.ltb_spec (Z.of_nat (String.length (path3 path name file)))
              (Z.of_nat USBG_MAX_PATH_LENGTH)) as [?|_]; [lia|].
  done.
Qed.

(** Without strings to set, [usbg_create_config] returns "path too long"
    only when the path of the [configs] directory itself does not fit:
    the path of the config directory, composed next, is never reported. *)
Lemma usbg_create_config_path_too_long g id label c_attrs c0 w c w' :
  usbg_create_config (Some g) id label c_attrs None (Some c0) w
  = Some (USBG_ERROR_PATH_TOO_LONG, c, w') ->
  exists x, h_gadgets (w_heap w) !! g = Some x
    /\ (USBG_MAX_PATH_LENGTH
        <= String.length (path3 (g_path x) (g_name x) CONFIGS_DIR))%nat.
Proof.
  unfold usbg_create_config. intros E.
  destruct ((id <=? 0) || (255 <? id)); [by apply ret_Some in E as [? ?]|].
  apply bind_Some in E as (conf & w1 & E1 & E).
  apply usbg_get_config_world in E1 as ->.
  destruct conf; [by apply ret_Some in E as [? ?]|].
  apply bind_Some in E as (x & w1 & Ex & E).
  apply get_gadget_Some in Ex as [Hx ->].
  exists x. split; [done|]. unfold snprintf in E.
  destruct (Z.leb_spec (Z.of_nat USBG_MAX_PATH_LENGTH)
              (Z.of_nat (String.length
                           (path3 (g_path x) (g_name x) CONFIGS_DIR))))
    as [Hle|_]; [lia|].
  exfalso. unfold usbg_allocate_config in E.
  apply bind_Some in E as (oc & w1 & Ea & E).
  apply bind_Some in Ea as (a & w2 & _ & Ea).
  apply bind_Some in Ea as ([] & w3 & _ & Ea).
  apply ret_Some in Ea as [-> ->].
  apply bind_Some in E as (cx & w1 & _ & E).
  apply bind_Some in E as (r0 & w4 & _ & E).
  apply bind_Some in E as (r1 & w5 & Er & E).
  apply bind_Some in E as (u & w6 & _ & E).
  apply ret_Some in E as [[= <- _] _].
  destruct (r0 =? 0).
  - apply bind_Some in Er as (r2 & w7 & Er2 & Er).
    unfold usbg_set_config_attrs in Er2.
    destruct c_attrs; apply ret_Some in Er2 as [-> ->];
      destruct (decide _); by apply ret_Some in Er as [? ?].
  - apply ret_Some in Er as [Er _]. symmetry in Er.
    by apply usbg_translate_error_fits in Er.
Qed.

End PathOverflow.

(** ** EntityGraph and MutationOps *)

(** C2 (code bug).  Creating the configs c.4 and then c.2 gives the
    iteration order c.2, c.4.  But the scan of
    [INSERT_TAILQ_STRING_ORDER] does not stop after
    [TAILQ_INSERT_BEFORE]: with c.1, c.3 and c.4 in the gadget, creating
    c.2 succeeds and leaves c.1, c.2, c.4, so that c.3 is no longer in the
    collection; and creating c.15 next leaves c.1, c.2, c.15, c.4, which is
    not in lexicographic order. *)
Theorem ordered_insert_loses_elements :
  configs_after [4; 2]
  = Some ([USBG_SUCCESS; USBG_SUCCESS], ["c.2"; "c.4"])
  /\ configs_after [1; 3; 4]
     = Some ([USBG_SUCCESS; USBG_SUCCESS; USBG_SUCCESS],
             ["c.1"; "c.3"; "c.4"])
  /\ configs_after [1; 3; 4; 2]
     = Some ([USBG_SUCCESS; USBG_SUCCESS; USBG_SUCCESS; USBG_SUCCESS],
             ["c.1"; "c.2"; "c.4"])
  /\ configs_after [1; 3; 4; 2; 15]
     = Some ([USBG_SUCCESS; USBG_SUCCESS; USBG_SUCCESS; USBG_SUCCESS;
              USBG_SUCCESS],
             ["c.1"; "c.2"; "c.15"; "c.4"])
  /\ strcmp "c.15" "c.2" < 0.
Proof. repeat split; vm_compute; reflexivity. Qed.

(** C1 (code bug).  A gadget built from the empty root with the functions
    acm.a, acm.c, acm.d and acm.b, every call succeeding, iterates over
    acm.a, acm.b, acm.d; the graph discovered from the same root after
    teardown iterates over acm.a, acm.b, acm.c, acm.d.  The two graphs
    differ. *)
Theorem rediscovery_differs_from_built_graph :
  let acm i := {| fv_name := "acm." +:+ i; fv_type := F_ACM;
                  fv_instance := i |} in
  let gadget fs := {| gv_name := "g1"; gv_udc := ""; gv_functions := fs;
                      gv_configs := [] |} in
  built_view
  = Some ([USBG_SUCCESS; USBG_SUCCESS; USBG_SUCCESS; USBG_SUCCESS],
          [gadget [acm "a"; acm "b"; acm "d"]])
  /\ rediscovered_view
     = Some (usbg_error_code USBG_SUCCESS,
             [gadget [acm "a"; acm "b"; acm "c"; acm "d"]])
  /\ snd <$> built_view ≠ snd <$> rediscovered_view.
Proof.
  repeat split; try (vm_compute; reflexivity).
  vm_compute. discriminate.
Qed.

(** C4 (code bug).  [usbg_create_function] and [usbg_create_config] call
    [rmdir] in no run at all.  [usbg_create_function] whose attribute write
    fails after [mkdir] returns the error and frees the node, and the
    directory stays.  [usbg_create_gadget_vid_pid] whose first attribute
    write fails returns the error and neither removes the directory nor
    frees the node.  Only the failed read of [UDC] in
    [usbg_create_empty_gadget] is followed by [rmdir]. *)
Theorem failed_create_leaves_directory :
  (forall (P : Platform) g type instance f_attrs f,
      emits not_rmdir (usbg_create_function g type instance f_attrs f))
  /\ (forall (P : Platform) g id label c_attrs c_strs c,
        emits not_rmdir (usbg_create_config g id label c_attrs c_strs c))
  /\ failed_create_function
  = Some (USBG_ERROR_NO_ACCESS, [], false, true,
          [SysMkdir acm0_dir; SysOpenWrite (acm0_dir +:+ "/port_num")])
  /\ failed_create_gadget
     = Some (USBG_ERROR_NO_ACCESS, [], true, true,
             [SysMkdir "/sys/kernel/config/usb_gadget/g1";
              SysOpenRead "/sys/kernel/config/usb_gadget/g1/UDC";
              SysOpenWrite "/sys/kernel/config/usb_gadget/g1/idVendor"]).
Proof.
  split; [intros; apply usbg_create_function_no_rmdir|].
  split; [intros; apply usbg_create_config_no_rmdir|].
  split; vm_compute; reflexivity.
Qed.

(** C9 (code bug).  [usbg_set_config_attrs] tests [c && !c_attrs]: given a
    config and attributes it writes nothing and returns "invalid
    parameter", in every world.  So [usbg_create_config] with attributes
    makes the directory, writes neither [MaxPower] nor [bmAttributes],
    returns "invalid parameter" and leaves the config out of the graph. *)
Theorem create_config_rejects_attrs :
  (forall (c : addr) (a : usbg_config_attrs) (w : world),
      usbg_set_config_attrs (Some c) (Some a) w
      = Some (USBG_ERROR_INVALID_PARAM, w))
  /\ create_config_with_attrs
     = Some (USBG_ERROR_INVALID_PARAM, [], true, Some ("2" +:+ nl),
             [SysMkdir "/sys/kernel/config/usb_gadget/g1/configs/c.1"]).
Proof. split; [reflexivity | vm_compute; reflexivity]. Qed.

(** C6 (code bug).  Whatever the size of the path buffer, a run of
    [usbg_create_config] without strings to set returns "path too long"
    only if the path of the gadget's [configs] directory does not fit: the
    check of the config's own path, composed next, has no effect.  In a
    gadget whose name leaves five characters of a buffer of 256 after
    ["<root>/<name>/configs"], the path of the config c.12 does not fit.
    [usbg_create_config] assigns "path too long" and overwrites it with
    the result of [mkdir] on the truncated path: it returns success, the
    graph holds c.12 and the tree holds a directory c.1 and none named
    c.12.  [usbg_create_function] in the same gadget makes no system call
    and returns "invalid parameter". *)
Theorem create_config_ignores_path_overflow :
  (forall (P : Platform) g id label c_attrs c0 w,
      match usbg_create_config (Some g) id label c_attrs None (Some c0) w with
      | Some (ret, _, _) =>
          ret ≠ USBG_ERROR_PATH_TOO_LONG
          \/ exists x, h_gadgets (w_heap w) !! g = Some x
               /\ (USBG_MAX_PATH_LENGTH
                   <= String.length
                        (path3 (g_path x) (g_name x) CONFIGS_DIR))%nat
      | None => True
      end)
  /\ overlong_create
     = Some (USBG_SUCCESS, ["c.12"], false, true,
             [SysMkdir (long_gadget +:+ "/configs/c.1")],
             USBG_ERROR_INVALID_PARAM, [])
  /\ (String.length (long_gadget +:+ "/configs/c.12")
      >= @USBG_MAX_PATH_LENGTH linux64)%nat.
Proof.
  split; [|split; vm_compute; [reflexivity | lia]].
  intros P g id label c_attrs c0 w.
  destruct (usbg_create_config _ _ _ _ _ _ w) as [[[ret c] w']|] eqn:E;
    [|done].
  destruct (decide (ret = USBG_ERROR_PATH_TOO_LONG)) as [->|Hne];
    [right | by left].
  by eapply usbg_create_config_path_too_long.
Qed.

Lemma usbg_write_buf_heap `{Platform} path name file buf w :
  exists ret w', usbg_write_buf path name file buf w = Some (ret, w')
                 /\ w_heap w' = w_heap w.
Proof.
  unfold usbg_write_buf, snprintf.
  destruct (_ <? _).
  - unfold mbind, M_bind, fopen_w, syscall_fs.
    destruct (fs_fopen_w _ _ (w_fs w)) as [fs' []]; simpl;
      eexists _, _; split; reflexivity.
  - eexists _, _; split; reflexivity.
Qed.

(** C5 (code bug).  [usbg_disable_gadget] copies the empty string into
    [g->udc] before it writes the attribute file, so in every world the
    mirror is empty when the call returns, whatever it returns.  With a
    gadget bound to UDC1 whose directory is gone, [fopen] fails, the call
    returns "not found" and the mirror is empty all the same.
    [usbg_enable_gadget] copies after a successful write only: when the
    file cannot be opened, or when the kernel answers the store with
    [ENODEV], it leaves the mirror at UDC1. *)
Theorem disable_clears_mirror_before_write :
  (forall (P : Platform) (g : addr) (w : world),
      match usbg_disable_gadget (Some g) w with
      | Some (_, w') => mirror w' g = Some ""
      | None => True
      end)
  /\ failed_disable
     = Some (USBG_SUCCESS, "UDC1", USBG_ERROR_NOT_FOUND, "", None)
  /\ failed_enable
     = Some (USBG_SUCCESS, "UDC1", USBG_ERROR_NOT_FOUND, "UDC1", None)
  /\ refused_enable
     = Some (USBG_SUCCESS, "UDC1", USBG_ERROR_NO_DEV, "UDC1", Some "UDC1").
Proof.
  split; [|repeat split; vm_compute; reflexivity].
  intros P g w. unfold usbg_disable_gadget, strcpy.
  destruct (_ <? _)%nat; [|done].
  unfold mbind at 1, M_bind at 1. unfold mret at 1, M_ret at 1.
  unfold mbind at 1, M_bind at 1.
  unfold set_g_udc, get_gadget, get_heap, defined, upd_gadgets, put_heap.
  unfold mbind, M_bind. simpl.
  destruct (h_gadgets (w_heap w) !! g) as [x|] eqn:Eg; [|done]. simpl.
  rewrite lookup_insert_eq. simpl.
  match goal with
  | |- context [usbg_write_string ?a ?b ?c ?d ?w0] =>
      destruct (usbg_write_buf_heap a b c d w0) as (ret & w' & E & Hh)
  end.
  unfold usbg_write_string. rewrite E. unfold mirror. rewrite Hh. simpl.
  by rewrite lookup_insert_eq.
Qed.

(** * The rest of the interface *)

Ltac decided := apply (bool_decide_unpack _); vm_compute; exact I.

(** ** Names on disk *)

Lemma function_names_NoDup : NoDup function_names.
Proof. apply (bool_decide_unpack _). vm_compute. exact I. Qed.

Lemma function_names_no_dot t ts :
  function_names !! t = Some ts -> "."%char ∉ chars ts.
Proof.
  intros Ht.
  assert (Hall : Forall (fun n => "."%char ∉ chars n) function_names).
  { apply (bool_decide_unpack _). vm_compute. exact I. }
  rewrite Forall_forall in Hall. apply Hall. by eapply list_elem_of_lookup_2.
Qed.

Lemma function_names_nonempty t ts :
  function_names !! t = Some ts -> ts ≠ "".
Proof.
  intros Ht ->. do 9 (destruct t as [|t]; [done|]). done.
Qed.

Lemma strchr_app p c r :
  c ∉ chars p -> strchr (p +:+ String c r) c = Some (String.length p).
Proof.
  induction p as [|x p IH]; intros Hp.
  - simpl. by rewrite Ascii.eqb_refl.
  - rewrite chars_cons, not_elem_of_cons in Hp. destruct Hp as [Hx Hp].
    rewrite append_cons. simpl.
    destruct (Ascii.eqb_spec x c) as [->|_]; [done|].
    by rewrite IH.
Qed.

Lemma strrchr_app p c r :
  c ∉ chars r -> strrchr (p +:+ String c r) c = Some (String.length p).
Proof.
  intros Hr. apply strrchr_None in Hr.
  induction p as [|x p IH].
  - simpl. rewrite Hr. by rewrite Ascii.eqb_refl.
  - rewrite append_cons. simpl. by rewrite IH.
Qed.

Lemma strndup_app a b : strndup (a +:+ b) (String.length a) = a.
Proof.
  induction a as [|x a IH]; [by destruct b|].
  rewrite append_cons. simpl. by rewrite IH.
Qed.

Lemma str_from_S_app a c b :
  str_from (a +:+ String c b) (S (String.length a)) = b.
Proof.
  induction a as [|x a IH]; [by destruct b|].
  rewrite append_cons. exact IH.
Qed.

Lemma lookup_function_names t ts :
  function_names !! t = Some ts -> usbg_lookup_function_type ts = Z.of_nat t.
Proof.
  intros Ht.
  destruct (usbg_lookup_function_type_spec ts) as [(t' & Ht' & ->)|[Hnot _]].
  - f_equal. eapply NoDup_lookup; [apply function_names_NoDup|done..].
  - exfalso. apply Hnot. by eapply list_elem_of_lookup_2.
Qed.

(** [usbg_lookup_function_type] returns the position of a name in the
    table of type strings and -1 for every string that is not in it: the
    match is exact and case-sensitive, and the result lies between -1 and
    8. *)
Theorem usbg_lookup_function_type_index (name : string) :
  (forall t : nat, usbg_lookup_function_type name = Z.of_nat t
                   <-> function_names !! t = Some name)
  /\ (usbg_lookup_function_type name = -1 <-> name ∉ function_names)
  /\ -1 <= usbg_lookup_function_type name < 9.
Proof.
  destruct (usbg_lookup_function_type_spec name)
    as [(t' & Ht' & Hl)|[Hnot Hl]]; rewrite Hl.
  - assert (t' < 9)%nat by (apply lookup_lt_Some in Ht'; simpl in Ht'; lia).
    split; [|split; [|lia]].
    + intros t. split.
      * intros Heq. by replace t with t' by lia.
      * intros Ht. f_equal.
        eapply NoDup_lookup; [apply function_names_NoDup|done..].
    + split; [lia|]. intros Hnot. exfalso. apply Hnot.
      by eapply list_elem_of_lookup_2.
  - split; [|split; [done|lia]].
    intros t. split; [lia|]. intros Ht. exfalso. apply Hnot.
    by eapply list_elem_of_lookup_2.
Qed.

(** The name that [usbg_allocate_function] composes from an entry of the
    table and an instance name that is not empty splits back into that
    type and that instance, whatever dots the instance name has. *)
Theorem function_name_round_trip (t : nat) (ts instance : string) :
  function_names !! t = Some ts -> instance ≠ "" -> c_string instance ->
  usbg_split_function_instance_type (ts +:+ "." +:+ instance)
  = {| sf_ret := USBG_SUCCESS; sf_type := Some (Z.of_nat t);
       sf_instance := Some instance |}.
Proof.
  intros Ht Hne Hc. unfold usbg_split_function_instance_type.
  change ("." +:+ instance) with (String "." instance).
  rewrite (strchr_app ts "." instance (function_names_no_dot t ts Ht)).
  rewrite str_from_S_app, strndup_app.
  destruct (Nat.eqb_spec (String.length ts) 0) as [H0|_].
  { apply function_names_nonempty in Ht. by destruct ts. }
  destruct (Ascii.eqb_spec (str_head instance) "000") as [Hh|_].
  { by apply str_head_nul in Hh. }
  simpl. rewrite (lookup_function_names t ts Ht).
  replace (0 <=? Z.of_nat t) with true by (symmetry; apply Z.leb_le; lia).
  done.
Qed.

Lemma function_name_round_trip_witness :
  usbg_split_function_instance_type ("rndis" +:+ "." +:+ "usb0.1")
  = {| sf_ret := USBG_SUCCESS; sf_type := Some (Z.of_nat 7);
       sf_instance := Some "usb0.1" |}.
Proof.
  apply (function_name_round_trip 7 "rndis" "usb0.1");
    [reflexivity | discriminate |].
  apply (bool_decide_unpack _). vm_compute. exact I.
Defined.

(** *** Decimal numerals *)

Lemma scan_digits_uint_acc (d : Decimal.uint) rest : forall p,
  isdigit (str_head rest) = false ->
  scan_digits (DecimalString.NilEmpty.string_of_uint d +:+ rest) (Z.pos p)
  = (Z.pos (Pos.of_uint_acc d p),
     String.length (DecimalString.NilEmpty.string_of_uint d)).
Proof.
  induction d; intros p Hrest; simpl DecimalString.NilEmpty.string_of_uint;
    rewrite ?append_cons, ?append_nil_l.
  1: { destruct rest as [|x rest]; [done|]. simpl in *. by rewrite Hrest. }
  all: cbn [scan_digits Pos.of_uint_acc]; change (isdigit _) with true;
    cbn iota;
    match goal with
    | |- context [Z.of_nat (nat_of_ascii ?c)] =>
        let v := eval vm_compute in (Z.of_nat (nat_of_ascii c)) in
        change (Z.of_nat (nat_of_ascii c)) with v
    end;
    match goal with
    | |- context [scan_digits _ ?acc] =>
        match goal with
        | |- context [Pos.of_uint_acc _ ?q] =>
            replace acc with (Z.pos q) by lia
        end
    end; rewrite IHd by done; reflexivity.
Qed.

Lemma scan_digits_uint (d : Decimal.uint) rest :
  isdigit (str_head rest) = false ->
  scan_digits (DecimalString.NilEmpty.string_of_uint d +:+ rest) 0
  = (Z.of_N (Pos.of_uint d),
     String.length (DecimalString.NilEmpty.string_of_uint d)).
Proof.
  intros Hrest. induction d; simpl DecimalString.NilEmpty.string_of_uint;
    rewrite ?append_cons, ?append_nil_l.
  1: { destruct rest as [|x rest]; [done|]. simpl in *. by rewrite Hrest. }
  1: { cbn [scan_digits Pos.of_uint]. change (isdigit _) with true.
       cbn iota. change (10 * 0 + _) with 0. rewrite IHd. reflexivity. }
  all: cbn [scan_digits Pos.of_uint]; change (isdigit _) with true;
    cbn iota;
    match goal with
    | |- context [scan_digits _ ?acc] =>
        let v := eval vm_compute in acc in change acc with v
    end; rewrite scan_digits_uint_acc by done; reflexivity.
Qed.

Lemma append_nil_r s : s +:+ "" = s.
Proof. induction s as [|c s IH]; [done|]. by rewrite append_cons, IH. Qed.

Lemma str_from_all s : str_from s (String.length s) = "".
Proof. rewrite <- (append_nil_r s) at 1. apply str_from_app. Qed.

Lemma uint_string_digits (d : Decimal.uint) :
  Forall (fun c => isdigit c = true)
    (chars (DecimalString.NilEmpty.string_of_uint d)).
Proof.
  induction d; simpl; rewrite ?chars_cons; try constructor; done.
Qed.

Lemma uint_string_head (d : Decimal.uint) rest :
  d ≠ Decimal.Nil ->
  isdigit (str_head (DecimalString.NilEmpty.string_of_uint d +:+ rest))
  = true.
Proof. by destruct d. Qed.

Lemma isdigit_not_space c : isdigit c = true -> isspace c = false.
Proof.
  unfold isdigit, isspace. intros Hd.
  apply andb_true_iff in Hd as [H1 H2].
  apply Nat.leb_le in H1. apply Nat.leb_le in H2.
  apply orb_false_iff. split.
  - apply Nat.eqb_neq. lia.
  - apply andb_false_iff. right. apply Nat.leb_gt. lia.
Qed.

(** What [fmt_d] prints for a number that is not negative. *)
Lemma fmt_d_nonneg v :
  0 <= v ->
  exists d : Decimal.uint,
    d ≠ Decimal.Nil
    /\ fmt_d v = DecimalString.NilEmpty.string_of_uint d
    /\ Z.of_N (Pos.of_uint d) = v.
Proof.
  intros Hv. unfold fmt_d. destruct v as [|p|p]; [| |lia].
  - by exists (Decimal.D0 Decimal.Nil).
  - exists (Pos.to_uint p). split; [apply DecimalPos.Unsigned.to_uint_nonnil|].
    split.
    + simpl. pose proof (DecimalPos.Unsigned.to_uint_nonnil p).
      by destruct (Pos.to_uint p).
    + by rewrite DecimalPos.Unsigned.of_to.
Qed.

Lemma fmt_d_neg p :
  fmt_d (Z.neg p)
  = String "-" (DecimalString.NilEmpty.string_of_uint (Pos.to_uint p)).
Proof.
  unfold fmt_d. simpl. pose proof (DecimalPos.Unsigned.to_uint_nonnil p).
  by destruct (Pos.to_uint p).
Qed.

Section Numerals.
Context `{Platform}.

(** [strtol] in base ten on printed digits. *)
Lemma strtol10_uint (d : Decimal.uint) rest :
  d ≠ Decimal.Nil -> isdigit (str_head rest) = false ->
  Z.of_N (Pos.of_uint d) <= LONG_MAX ->
  strtol10 (DecimalString.NilEmpty.string_of_uint d +:+ rest)
  = {| st_value := Z.of_N (Pos.of_uint d);
       st_end := String.length (DecimalString.NilEmpty.string_of_uint d);
       st_errno := 0 |}.
Proof.
  intros Hd Hrest Hmax. unfold strtol10.
  rewrite skip_space_head
    by (apply isdigit_not_space; by apply uint_string_head).
  rewrite str_from_0.
  set (s := DecimalString.NilEmpty.string_of_uint d +:+ rest).
  assert (Hsign : match s with
                  | String "-" _ => (true, 1%nat)
                  | String "+" _ => (false, 1%nat)
                  | _ => (false, 0%nat)
                  end = (false, 0%nat)) by (subst s; by destruct d).
  rewrite Hsign, str_from_0. subst s.
  rewrite scan_digits_uint by done.
  assert (Hlen : String.length (DecimalString.NilEmpty.string_of_uint d)
                 ≠ 0%nat) by (by destruct d).
  destruct (String.length (DecimalString.NilEmpty.string_of_uint d)) as [|n];
    [done|].
  destruct (Z.ltb_spec LONG_MAX (Z.of_N (Pos.of_uint d))) as [?|_]; [lia|].
  assert (LONG_MIN <= 0)
    by (unfold LONG_MIN; pose proof (Z.pow_nonneg 2 (LONG_BITS - 1)); lia).
  destruct (Z.ltb_spec (Z.of_N (Pos.of_uint d)) LONG_MIN) as [?|_]; [lia|].
  done.
Qed.

Lemma strtol10_neg_uint (d : Decimal.uint) rest :
  d ≠ Decimal.Nil -> isdigit (str_head rest) = false ->
  LONG_MIN <= - Z.of_N (Pos.of_uint d) -> 0 <= LONG_MAX ->
  strtol10 (String "-" (DecimalString.NilEmpty.string_of_uint d +:+ rest))
  = {| st_value := - Z.of_N (Pos.of_uint d);
       st_end := S (String.length (DecimalString.NilEmpty.string_of_uint d));
       st_errno := 0 |}.
Proof.
  intros Hd Hrest Hmin Hmax. unfold strtol10.
  rewrite skip_space_head by done.
  rewrite str_from_0.
  change (str_from (String "-" ?s) 1) with s. cbv beta iota zeta.
  change (str_from
            (String "-" (DecimalString.NilEmpty.string_of_uint d +:+ rest)) 1)
    with (DecimalString.NilEmpty.string_of_uint d +:+ rest).
  rewrite scan_digits_uint by done.
  assert (Hlen : String.length (DecimalString.NilEmpty.string_of_uint d)
                 ≠ 0%nat) by (by destruct d).
  destruct (String.length (DecimalString.NilEmpty.string_of_uint d)) as [|n];
    [done|].
  destruct (Z.ltb_spec LONG_MAX (- Z.of_N (Pos.of_uint d))) as [?|_]; [lia|].
  destruct (Z.ltb_spec (- Z.of_N (Pos.of_uint d)) LONG_MIN) as [?|_]; [lia|].
  done.
Qed.

Lemma usbg_split_config_label_id_fmt_d (label : string) (id : Z) :
  32 <= LONG_BITS -> label ≠ "" -> 0 <= id <= 255 ->
  usbg_split_config_label_id (label +:+ "." +:+ fmt_d id) = (id, Some label).
Proof.
  intros Hbits Hlabel Hid.
  destruct (fmt_d_nonneg id) as (d & Hd & Hfmt & Hval); [lia|].
  pose proof (uint_string_digits d) as Hdig.
  assert (Hnodot : "."%char ∉ chars (fmt_d id)).
  { rewrite Hfmt. intros Hin. rewrite Forall_forall in Hdig.
    by apply Hdig in Hin. }
  unfold usbg_split_config_label_id.
  change ("." +:+ fmt_d id) with (String "." (fmt_d id)).
  rewrite (strrchr_app label "." (fmt_d id) Hnodot).
  rewrite str_from_S_app, strndup_app.
  destruct (Nat.eqb_spec (String.length label) 0) as [H0|_];
    [by destruct label|].
  pose proof (uint_string_head d "" Hd) as Hhead.
  rewrite append_nil_r, <- Hfmt in Hhead.
  destruct (Ascii.eqb_spec (str_head (fmt_d id)) "000") as [Hnul|_].
  { by rewrite Hnul in Hhead. }
  rewrite (isdigit_not_space _ Hhead). cbn [orb].
  pose proof long_contains_int Hbits as [_ Hmax]. unfold INT_MAX in Hmax.
  assert (Hst : strtol10 (fmt_d id)
                = {| st_value := id; st_end := String.length (fmt_d id);
                     st_errno := 0 |}).
  { rewrite Hfmt, <- Hval.
    rewrite <- (append_nil_r (DecimalString.NilEmpty.string_of_uint d)) at 1.
    apply strtol10_uint; [done | done | lia]. }
  rewrite Hst. cbn [st_value st_end st_errno]. rewrite str_from_all.
  rewrite int_of_long_id by (unfold INT_MIN, INT_MAX; lia).
  simpl.
  destruct (Z.ltb_spec id 0) as [?|_]; [lia|].
  destruct (Z.ltb_spec 255 id) as [?|_]; [lia|]. done.
Qed.

(** The name that [usbg_allocate_config] composes from a label that is not
    empty and an id from 0 to 255 splits back into that id and that label,
    whatever dots the label has. *)
Theorem config_name_round_trip (label : string) (id : Z) :
  32 <= LONG_BITS -> label ≠ "" -> 0 <= id <= 255 ->
  usbg_split_config_label_id (label +:+ "." +:+ fmt_d id) = (id, Some label).
Proof. apply usbg_split_config_label_id_fmt_d. Qed.

End Numerals.

Lemma config_name_round_trip_witness :
  @usbg_split_config_label_id linux64 ("c" +:+ "." +:+ fmt_d 255)
  = (255, Some "c"%string).
Proof.
  apply (@config_name_round_trip linux64 "c" 255);
    [simpl; lia | discriminate | lia].
Defined.

(** *** Hexadecimal numerals *)

Lemma digit_in_10 c : digit_in 10 c = if isdigit c then digit_value c else None.
Proof. destruct c as [[] [] [] [] [] [] [] []]; reflexivity. Qed.

Lemma digit_value_digit c :
  isdigit c = true -> digit_value c = Some (Z.of_nat (nat_of_ascii c) - 48).
Proof. unfold digit_value, isdigit. by intros ->. Qed.

Lemma scan_base_10 s acc : scan_base 10 s acc = scan_digits s acc.
Proof.
  revert acc. induction s as [|x r IH]; intros acc; [done|].
  simpl. rewrite digit_in_10. destruct (isdigit x) eqn:Hx.
  - rewrite (digit_value_digit x Hx). by rewrite IH.
  - done.
Qed.

Lemma scan_base_hex_acc (d : Hexadecimal.uint) rest : forall p,
  digit_in 16 (str_head rest) = None ->
  scan_base 16 (HexadecimalString.NilEmpty.string_of_uint d +:+ rest)
    (Z.pos p)
  = (Z.pos (Pos.of_hex_uint_acc d p),
     String.length (HexadecimalString.NilEmpty.string_of_uint d)).
Proof.
  induction d; intros p Hrest;
    simpl HexadecimalString.NilEmpty.string_of_uint;
    rewrite ?append_cons, ?append_nil_l.
  1: { destruct rest as [|x rest]; [done|]. simpl in *. by rewrite Hrest. }
  all: cbn [scan_base Pos.of_hex_uint_acc];
    match goal with
    | |- context [digit_in 16 ?c] =>
        let v := eval vm_compute in (digit_in 16 c) in
        change (digit_in 16 c) with v
    end; cbn iota;
    match goal with
    | |- context [scan_base 16 _ ?acc] =>
        match goal with
        | |- context [Pos.of_hex_uint_acc _ ?q] =>
            replace acc with (Z.pos q) by lia
        end
    end; rewrite IHd by done; reflexivity.
Qed.

Lemma scan_base_hex (d : Hexadecimal.uint) rest :
  digit_in 16 (str_head rest) = None ->
  scan_base 16 (HexadecimalString.NilEmpty.string_of_uint d +:+ rest) 0
  = (Z.of_N (Pos.of_hex_uint d),
     String.length (HexadecimalString.NilEmpty.string_of_uint d)).
Proof.
  intros Hrest. induction d;
    simpl HexadecimalString.NilEmpty.string_of_uint;
    rewrite ?append_cons, ?append_nil_l.
  1: { destruct rest as [|x rest]; [done|]. simpl in *. by rewrite Hrest. }
  1: { cbn [scan_base Pos.of_hex_uint].
       change (digit_in 16 "0") with (Some 0). cbn iota.
       change (16 * 0 + 0) with 0. rewrite IHd. reflexivity. }
  all: cbn [scan_base Pos.of_hex_uint];
    match goal with
    | |- context [digit_in 16 ?c] =>
        let v := eval vm_compute in (digit_in 16 c) in
        change (digit_in 16 c) with v
    end; cbn iota;
    match goal with
    | |- context [scan_base 16 _ ?acc] =>
        let v := eval vm_compute in acc in change acc with v
    end; rewrite scan_base_hex_acc by done; reflexivity.
Qed.

Lemma scan_base_zeros k s :
  scan_base 16 (zeros k +:+ s) 0
  = ((scan_base 16 s 0).1, (k + (scan_base 16 s 0).2)%nat).
Proof.
  induction k as [|k IH]; simpl zeros.
  - rewrite append_nil_l. by destruct (scan_base 16 s 0).
  - rewrite append_cons. cbn [scan_base].
    change (digit_in 16 "0") with (Some 0). cbn iota.
    change (16 * 0 + 0) with 0. rewrite IH. reflexivity.
Qed.

Lemma length_zeros k : String.length (zeros k) = k.
Proof. induction k; simpl; congruence. Qed.

(** What [fmt_x] prints. *)
Lemma fmt_x_uint v :
  0 <= v < 2 ^ 32 ->
  exists d : Hexadecimal.uint,
    d ≠ Hexadecimal.Nil
    /\ fmt_x v = HexadecimalString.NilEmpty.string_of_uint d
    /\ Z.of_N (Pos.of_hex_uint d) = v.
Proof.
  intros Hv. unfold fmt_x. rewrite Z.mod_small by lia.
  destruct v as [|p|p]; [| |lia].
  - by exists (Hexadecimal.D0 Hexadecimal.Nil).
  - exists (Pos.to_hex_uint p).
    split; [apply HexadecimalPos.Unsigned.to_uint_nonnil|]. split.
    + simpl. pose proof (HexadecimalPos.Unsigned.to_uint_nonnil p).
      by destruct (Pos.to_hex_uint p).
    + by rewrite HexadecimalPos.Unsigned.of_to.
Qed.

Lemma hex_string_head (d : Hexadecimal.uint) rest :
  d ≠ Hexadecimal.Nil ->
  is_Some (digit_in 16
             (str_head (HexadecimalString.NilEmpty.string_of_uint d
                        +:+ rest))).
Proof. destruct d; try done; intros _; by eexists. Qed.

Lemma scan_base_fmt_0x w v rest :
  0 <= v < 2 ^ 32 -> digit_in 16 (str_head rest) = None ->
  scan_base 16 (fmt_0x w v +:+ rest) 0
  = (v, String.length (fmt_0x w v))
  /\ is_Some (digit_in 16 (str_head (fmt_0x w v +:+ rest)))
  /\ fmt_0x w v ≠ "".
Proof.
  intros Hv Hrest. destruct (fmt_x_uint v Hv) as (d & Hd & Hfmt & Hval).
  unfold fmt_0x. rewrite Hfmt.
  set (k := (w - String.length
                 (HexadecimalString.NilEmpty.string_of_uint d))%nat).
  split; [|split].
  - rewrite append_assoc, scan_base_zeros, scan_base_hex by done. simpl.
    by rewrite Hval, length_append, length_zeros.
  - rewrite append_assoc. destruct k; simpl zeros.
    + rewrite append_nil_l. by apply hex_string_head.
    + by eexists.
  - destruct k; [|done]. simpl. by destruct d.
Qed.

Section Strtol.
Context `{Platform}.

(** In base ten [strtol] is the [strtol10] of the name splitter. *)
Lemma strtol_10 s : strtol 10 s = strtol10 s.
Proof.
  unfold strtol, strtol10.
  change (negb (10 =? 0) && ((10 <? 2) || (36 <? 10))) with false.
  change ((10 =? 0) || (10 =? 16)) with false.
  change (10 =? 0) with false. cbn [andb]. cbv beta iota zeta.
  match goal with
  | |- context [match ?m with (_, _) => _ end] => destruct m as [neg k]
  end.
  rewrite str_from_0, scan_base_10.
  destruct (scan_digits _ 0) as [v n]. destruct n; [done|].
  by rewrite Nat.add_0_r.
Qed.

(** What [usbg_read_hex] makes of the text of [usbg_write_hex16] and
    [usbg_write_hex8]. *)
Lemma strtol_16_fmt w v :
  0 <= v < 2 ^ 32 -> v <= LONG_MAX ->
  st_value (strtol 16 ("0x" +:+ fmt_0x w v +:+ nl)) = v.
Proof.
  intros Hv Hmax.
  destruct (scan_base_fmt_0x w v nl Hv eq_refl) as (Hscan & Hhead & Hne).
  unfold strtol. change (16 =? 0) with false. cbn [negb orb andb].
  change ((16 <? 2) || (36 <? 16)) with false. cbn iota.
  change ("0x" +:+ fmt_0x w v +:+ nl)
    with (String "0" (String "x" (fmt_0x w v +:+ nl))).
  cbn [skip_space]. change (isspace "0") with false. cbn iota.
  rewrite str_from_0. cbv beta iota zeta. rewrite str_from_0.
  change (16 =? 16) with true. cbn [orb andb].
  assert (Hpx : hex_prefix (String "0" (String "x" (fmt_0x w v +:+ nl)))
                = true).
  { destruct (fmt_0x w v +:+ nl) as [|h t] eqn:E.
    - destruct (fmt_0x w v); done.
    - simpl in Hhead. simpl. by apply bool_decide_eq_true. }
  rewrite Hpx.
  change (str_from (String "0" (String "x" ?s)) 2) with s.
  cbv beta iota zeta.
  change (str_from (String "0" (String "x" (fmt_0x w v +:+ nl))) 2)
    with (fmt_0x w v +:+ nl).
  rewrite Hscan.
  destruct (String.length (fmt_0x w v)) as [|n] eqn:El.
  { by destruct (fmt_0x w v). }
  destruct (Z.ltb_spec LONG_MAX v) as [?|_]; [lia|].
  assert (LONG_MIN <= 0).
  { unfold LONG_MIN. pose proof (Z.pow_nonneg 2 (LONG_BITS - 1)). lia. }
  destruct (Z.ltb_spec v LONG_MIN) as [?|_]; [lia|]. done.
Qed.

(** And what [usbg_read_dec] makes of the text of [usbg_write_dec]. *)
Lemma strtol_10_fmt v :
  LONG_MIN <= v <= LONG_MAX -> 0 <= LONG_MAX ->
  st_value (strtol 10 (fmt_d v +:+ nl)) = v.
Proof.
  intros Hv Hmax. rewrite strtol_10. destruct v as [|p|p].
  - destruct (fmt_d_nonneg 0) as (d & Hd & -> & Hval); [lia|].
    rewrite strtol10_uint; [done | done | done | lia].
  - destruct (fmt_d_nonneg (Z.pos p)) as (d & Hd & -> & Hval); [lia|].
    rewrite strtol10_uint; [done | done | done | lia].
  - rewrite fmt_d_neg, append_cons.
    pose proof (DecimalPos.Unsigned.of_to p) as Hval.
    rewrite strtol10_neg_uint;
      [ by rewrite Hval
      | apply DecimalPos.Unsigned.to_uint_nonnil
      | done
      | rewrite Hval; simpl; lia
      | done ].
Qed.

End Strtol.

(** ** Attributes written and read back *)

Lemma cstr_c_string s : c_string s -> cstr s = s.
Proof.
  unfold c_string. induction s as [|x r IH]; [done|].
  rewrite chars_cons, not_elem_of_cons. intros [Hx Hr]. simpl.
  destruct (Ascii.eqb_spec x "000") as [->|_]; [done|]. by rewrite IH.
Qed.

Lemma line_prefix_line m body :
  "010"%char ∉ chars body -> (String.length body < m)%nat ->
  line_prefix m (body +:+ nl) = (body +:+ nl).
Proof.
  revert m. induction body as [|x r IH]; intros m Hnl Hm.
  - destruct m; [simpl in Hm; lia|]. reflexivity.
  - rewrite chars_cons, not_elem_of_cons in Hnl. destruct Hnl as [Hx Hr].
    destruct m; [simpl in Hm; lia|]. rewrite append_cons. simpl.
    destruct (Ascii.eqb_spec x "010") as [->|_]; [done|].
    rewrite IH; [done | done | simpl in Hm; lia].
Qed.

(** [fgets] gives a whole line when the buffer has room for it. *)
Lemma fgets_line n body :
  c_string body -> "010"%char ∉ chars body ->
  (String.length body + 1 < n)%nat ->
  fgets n (body +:+ nl) = Some (body +:+ nl).
Proof.
  intros Hc Hnl Hn. unfold fgets.
  destruct n as [|[|m]]; [lia | lia |].
  destruct (body +:+ nl) as [|x r] eqn:E; [by destruct body|].
  rewrite <- E. rewrite line_prefix_line by (done || lia).
  rewrite cstr_c_string; [done|].
  unfold c_string. rewrite chars_app, not_elem_of_app. split; [done|].
  by apply (bool_decide_unpack _).
Qed.

Lemma plain_app a b : plain a -> plain b -> plain (a +:+ b).
Proof.
  unfold plain, c_string. rewrite !chars_app, !not_elem_of_app. tauto.
Qed.

Lemma plain_literal s :
  bool_decide (("000"%char ∉ chars s) /\ ("010"%char ∉ chars s)) = true ->
  plain s.
Proof. intros Hs. by apply bool_decide_eq_true in Hs. Qed.

Lemma plain_cons c s :
  (c ≠ "000"%char) -> (c ≠ "010"%char) -> plain s -> plain (String c s).
Proof.
  unfold plain, c_string. rewrite !chars_cons, !not_elem_of_cons.
  intros ? ? [? ?]. split; split; done.
Qed.

Lemma plain_dec_uint (d : Decimal.uint) :
  plain (DecimalString.NilEmpty.string_of_uint d).
Proof.
  induction d; simpl; [by apply plain_literal|..];
    by apply plain_cons.
Qed.

Lemma plain_hex_uint (d : Hexadecimal.uint) :
  plain (HexadecimalString.NilEmpty.string_of_uint d).
Proof.
  induction d; simpl; [by apply plain_literal|..];
    by apply plain_cons.
Qed.

Lemma plain_zeros k : plain (zeros k).
Proof.
  induction k; simpl; [by apply plain_literal | by apply plain_cons].
Qed.

Lemma plain_fmt_d v : plain (fmt_d v).
Proof.
  destruct v as [|p|p].
  - by apply plain_literal.
  - destruct (fmt_d_nonneg (Z.pos p)) as (d & _ & -> & _); [lia|].
    apply plain_dec_uint.
  - rewrite fmt_d_neg. apply plain_cons; [done | done |].
    apply plain_dec_uint.
Qed.

Lemma plain_fmt_0x w v : 0 <= v < 2 ^ 32 -> plain (fmt_0x w v).
Proof.
  intros Hv. destruct (fmt_x_uint v Hv) as (d & _ & Hfmt & _).
  unfold fmt_0x. rewrite Hfmt.
  apply plain_app; [apply plain_zeros | apply plain_hex_uint].
Qed.

(** A store either replaces the content of the file or is refused. *)
Lemma fs_store_cases k text fs :
  fs_store k text fs
  = (fs_with_nodes fs (<[k := FFile text]> (fs_nodes fs)), WriteOk)
  \/ exists e, fs_store k text fs = (fs, WriteStoreFailed e).
Proof.
  unfold fs_store. destruct text, (fs_refuse fs !! k); eauto.
Qed.

Section WriteRead.
Context `{Platform}.

(** A write that succeeds leaves the text in the file the path names. *)
Lemma usbg_write_buf_stored path name file text w w' :
  usbg_write_buf path name file text w = Some (USBG_SUCCESS, w') ->
  (String.length (path3 path name file) < USBG_MAX_PATH_LENGTH)%nat
  /\ fs_lookup (w_fs w') (parse_path (path3 path name file))
     = Some (FFile text)
  /\ w_heap w' = w_heap w.
Proof.
  unfold usbg_write_buf, snprintf.
  destruct (Z.ltb_spec (Z.of_nat (String.length (path3 path name file)))
              (Z.of_nat USBG_MAX_PATH_LENGTH)) as [Hfit|_]; [|done].
  rewrite strndup_all by lia. set (p := path3 path name file) in *.
  intros E. apply bind_Some in E as (r & w1 & Eo & E).
  unfold fopen_w, syscall_fs in Eo.
  destruct (fs_fopen_w p text (w_fs w)) as [fs' r'] eqn:Ew.
  injection Eo as <- <-.
  destruct r' as [|e|e]; apply ret_Some in E as [Hr ->];
    try (symmetry in Hr; by apply usbg_translate_error_fails in Hr).
  split; [lia|]. split; [|done]. simpl.
  unfold fs_fopen_w in Ew.
  assert (Hk : parse_path p ≠ []).
  { intros Hk. rewrite Hk in Ew. simpl in Ew. congruence. }
  assert (Hst : fs_store (parse_path p) text (w_fs w) = (fs', WriteOk)).
  { destruct (fs_lookup (w_fs w) (parse_path p)) as [[| |]|]; try done.
    destruct (fs_lookup (w_fs w) (parent (parse_path p))) as [[| |]|];
      done. }
  destruct (fs_store_cases (parse_path p) text (w_fs w)) as [Hs|[e Hs]];
    rewrite Hs in Hst; [|done].
  injection Hst as <-. unfold fs_lookup. simpl.
  destruct (parse_path p); [done|]. apply lookup_insert_eq.
Qed.

(** Reading a file that holds [text]. *)
Lemma usbg_read_buf_file path name file text buf w :
  (String.length (path3 path name file) < USBG_MAX_PATH_LENGTH)%nat ->
  fs_lookup (w_fs w) (parse_path (path3 path name file))
  = Some (FFile text) ->
  exists w', usbg_read_buf path name file buf w
             = Some (match fgets USBG_MAX_STR_LENGTH text with
                     | Some line => (USBG_SUCCESS, line)
                     | None => (USBG_ERROR_IO, buf)
                     end, w')
    /\ w_fs w' = w_fs w /\ w_heap w' = w_heap w.
Proof.
  intros Hfit Hfile. unfold usbg_read_buf, snprintf.
  destruct (Z.ltb_spec (Z.of_nat (String.length (path3 path name file)))
              (Z.of_nat USBG_MAX_PATH_LENGTH)) as [_|?]; [|lia].
  rewrite strndup_all by lia.
  unfold mbind, M_bind, fopen_r, syscall_fs, fs_fopen_r. rewrite Hfile.
  destruct (fgets USBG_MAX_STR_LENGTH text); eexists; split; done.
Qed.

Lemma format_int_line fmt v :
  match fmt with
  | FmtDec => True
  | _ => 0 <= v < 2 ^ 32
  end ->
  exists body, format_int fmt v = (body +:+ nl) /\ plain body.
Proof.
  destruct fmt; simpl; intros Hv.
  - exists (fmt_d v). split; [done|]. apply plain_fmt_d.
  - exists ("0x" +:+ fmt_0x 4 v). split; [done|].
    apply plain_app; [by apply plain_literal | by apply plain_fmt_0x].
  - exists ("0x" +:+ fmt_0x 2 v). split; [done|].
    apply plain_app; [by apply plain_literal | by apply plain_fmt_0x].
Qed.

(** What [usbg_write_int] leaves behind. *)
Lemma usbg_write_int_stored path name file v fmt w w' :
  usbg_write_int path name file v fmt w = Some (USBG_SUCCESS, w') ->
  (String.length (path3 path name file) < USBG_MAX_PATH_LENGTH)%nat
  /\ fs_lookup (w_fs w') (parse_path (path3 path name file))
     = Some (FFile (format_int fmt v))
  /\ (String.length (format_int fmt v) < USBG_MAX_STR_LENGTH)%nat.
Proof.
  unfold usbg_write_int, snprintf.
  destruct (Z.ltb_spec (Z.of_nat (String.length (format_int fmt v)))
              (Z.of_nat USBG_MAX_STR_LENGTH)) as [Hfit|_]; [|done].
  rewrite strndup_all by lia. intros Ew.
  apply usbg_write_buf_stored in Ew as (Hpath & Hfile & _).
  split; [done|]. split; [done | lia].
Qed.

(** Reading the number that a file written by [usbg_write_int] holds. *)
Lemma usbg_read_int_file path name file v fmt dest w :
  32 <= LONG_BITS -> int_in_range fmt v ->
  (String.length (path3 path name file) < USBG_MAX_PATH_LENGTH)%nat ->
  fs_lookup (w_fs w) (parse_path (path3 path name file))
  = Some (FFile (format_int fmt v)) ->
  (String.length (format_int fmt v) < USBG_MAX_STR_LENGTH)%nat ->
  exists w',
    usbg_read_int path name file (base_of fmt) dest w
    = Some (USBG_SUCCESS, v, w')
    /\ w_fs w' = w_fs w /\ w_heap w' = w_heap w.
Proof.
  intros Hbits Hv Hpath Hfile Hfit.
  destruct (usbg_read_buf_file path name file _ "" w Hpath Hfile)
    as (w' & Er & Hfs & Hheap).
  destruct (format_int_line fmt v) as (body & Hbody & Hplain & Hnl).
  { destruct fmt; [done|..]; unfold int_in_range, INT_MAX in Hv; lia. }
  rewrite Hbody in Er, Hfit.
  rewrite fgets_line in Er
    by (done || (rewrite length_append in Hfit; simpl in Hfit; lia)).
  exists w'. split; [|done]. unfold usbg_read_int.
  unfold mbind, M_bind. rewrite Er. simpl.
  destruct (decide (USBG_SUCCESS = USBG_SUCCESS)) as [_|?]; [|done].
  unfold mret, M_ret. do 3 f_equal. rewrite <- Hbody.
  pose proof (long_contains_int Hbits) as [Hmin Hmax].
  unfold int_in_range, INT_MIN, INT_MAX in *.
  rewrite int_of_long_id.
  - destruct fmt; simpl format_int.
    + apply strtol_10_fmt; lia.
    + apply strtol_16_fmt; lia.
    + apply strtol_16_fmt; lia.
  - unfold INT_MIN, INT_MAX.
    destruct fmt; simpl format_int.
    + rewrite strtol_10_fmt; lia.
    + rewrite strtol_16_fmt; lia.
    + rewrite strtol_16_fmt; lia.
Qed.

(** The number that [usbg_write_int] stored with success is the number
    that [usbg_read_int] then reads from a tree that keeps what is written
    to it, in the base that goes with the format: any [int] for ["%d\n"],
    and one that is not negative for ["0x%04x\n"] and ["0x%02x\n"]. *)
Theorem usbg_read_int_after_write (path name file : string) (v : Z)
    (fmt : int_format) (dest : Z) (w w' : world) :
  32 <= LONG_BITS -> int_in_range fmt v ->
  usbg_write_int path name file v fmt w = Some (USBG_SUCCESS, w') ->
  exists w'',
    usbg_read_int path name file (base_of fmt) dest w'
    = Some (USBG_SUCCESS, v, w'')
    /\ w_fs w'' = w_fs w' /\ w_heap w'' = w_heap w'.
Proof.
  intros Hbits Hv Ew.
  apply usbg_write_int_stored in Ew as (Hpath & Hfile & Hfit).
  by apply usbg_read_int_file.
Qed.

End WriteRead.

Lemma usbg_read_int_after_write_witness :
  exists w'',
    @usbg_read_int linux64 "/sys/kernel/config/usb_gadget" "g1" "idVendor"
      16 0 sample_with_vendor
    = Some (USBG_SUCCESS, 7531, w'')
    /\ w_fs w'' = w_fs sample_with_vendor
    /\ w_heap w'' = w_heap sample_with_vendor.
Proof.
  apply (@usbg_read_int_after_write linux64 "/sys/kernel/config/usb_gadget"
           "g1" "idVendor" 7531 FmtHex16 0 sample sample_with_vendor).
  - simpl. lia.
  - vm_compute. split; discriminate.
  - vm_compute. reflexivity.
Defined.

(** ** Lookup and iteration *)

Lemma compare_refl (a : string) : String.compare a a = Eq.
Proof.
  pose proof (String.compare_antisym a a) as Ha.
  by destruct (String.compare a a).
Qed.

Lemma strcmp_eq a b : (strcmp a b =? 0) = bool_decide (a = b).
Proof.
  unfold strcmp. destruct (String.compare a b) eqn:E.
  - apply String.compare_eq_iff in E. by rewrite bool_decide_eq_true_2.
  - rewrite bool_decide_eq_false_2; [done|]. intros ->.
    by rewrite compare_refl in E.
  - rewrite bool_decide_eq_false_2; [done|]. intros ->.
    by rewrite compare_refl in E.
Qed.

Lemma tq_find_fwd q test l : forall fuel,
  tq_fwd q l None -> (length l < fuel)%nat ->
  (forall a, a ∈ l -> is_Some (test a)) ->
  tq_find fuel test (head l) q = Some (first_match test l).
Proof.
  induction l as [|a r IH]; intros fuel Hfwd Hfuel Htest; [by destruct fuel|].
  destruct fuel as [|fuel]; [simpl in Hfuel; lia|].
  destruct Hfwd as [Ha Hr]. simpl.
  destruct (Htest a) as [t Ht]; [left|]. rewrite Ht. simpl.
  unfold first_match. rewrite filter_cons.
  destruct t.
  - by rewrite decide_True.
  - rewrite decide_False by (by rewrite Ht).
    unfold TAILQ_NEXT. rewrite Ha. simpl.
    assert (default None (Some <$> head r) = head r) as -> by (by destruct r).
    apply IH; [done | simpl in Hfuel; lia|].
    intros b Hb. apply Htest. by right.
Qed.

Lemma find_in_repr q test l w :
  tq_repr q l -> (forall a, a ∈ l -> is_Some (test a)) ->
  find_in q test w = Some (first_match test l, w).
Proof.
  intros (Hfirst & Hseg & _ & Hnd) Htest. unfold find_in, TAILQ_FIRST.
  rewrite Hfirst.
  pose proof (tq_seg_fwd _ _ _ _ Hseg) as Hfwd.
  rewrite (tq_find_fwd q test l (tq_fuel q)); [done | done | | done].
  unfold tq_fuel.
  pose proof (length_le_links q l Hnd (fun a => tq_fwd_dom q l None a Hfwd)).
  lia.
Qed.

(** The link fields of the elements of a well-formed queue. *)
Lemma tq_seg_lookup q prev l nxt i a :
  tq_seg q prev l nxt -> l !! i = Some a ->
  TAILQ_NEXT a q = Some (default nxt (Some <$> l !! S i)).
Proof.
  revert prev i. induction l as [|b r IH]; intros prev i Hseg Hi; [done|].
  destruct Hseg as [Hb Hr]. destruct i as [|i].
  - injection Hi as <-. unfold TAILQ_NEXT. rewrite Hb. simpl.
    by destruct r.
  - simpl in Hi. simpl. by eapply IH.
Qed.

Lemma TAILQ_NEXT_repr q l i a :
  tq_repr q l -> l !! i = Some a -> TAILQ_NEXT a q = Some (l !! S i).
Proof.
  intros (_ & Hseg & _ & _) Hi.
  rewrite (tq_seg_lookup q HeadFirst l None i a Hseg Hi).
  by destruct (l !! S i).
Qed.

Lemma get_state_Some s x w w' :
  get_state s w = Some (x, w') ->
  h_states (w_heap w) !! s = Some x /\ w' = w.
Proof. unfold get_state. intros E. inv_run. done. Qed.

Lemma run_get_state s x w :
  h_states (w_heap w) !! s = Some x -> get_state s w = Some (x, w).
Proof.
  intros Hs. unfold get_state, mbind, M_bind, get_heap, defined.
  by rewrite Hs.
Qed.

Lemma run_get_gadget g x w :
  h_gadgets (w_heap w) !! g = Some x -> get_gadget g w = Some (x, w).
Proof.
  intros Hg. unfold get_gadget, mbind, M_bind, get_heap, defined.
  by rewrite Hg.
Qed.

Lemma run_get_config c x w :
  h_configs (w_heap w) !! c = Some x -> get_config c w = Some (x, w).
Proof.
  intros Hc. unfold get_config, mbind, M_bind, get_heap, defined.
  by rewrite Hc.
Qed.

Lemma run_get_function f x w :
  h_functions (w_heap w) !! f = Some x -> get_function f w = Some (x, w).
Proof.
  intros Hf. unfold get_function, mbind, M_bind, get_heap, defined.
  by rewrite Hf.
Qed.

Lemma run_get_binding b x w :
  h_bindings (w_heap w) !! b = Some x -> get_binding b w = Some (x, w).
Proof.
  intros Hb. unfold get_binding, mbind, M_bind, get_heap, defined.
  by rewrite Hb.
Qed.

Lemma bind_run {A B} (m : M A) (k : A -> M B) a w w' :
  m w = Some (a, w') -> (m ≫= k) w = k a w'.
Proof. intros E. unfold mbind, M_bind. by rewrite E. Qed.

Lemma usbg_get_gadget_filter (s : addr) (name : string) (w : world)
    (st : usbg_state) (l : list addr) :
  h_states (w_heap w) !! s = Some st ->
  tq_repr (s_gadgets st) l ->
  Forall (fun a => is_Some (h_gadgets (w_heap w) !! a)) l ->
  usbg_get_gadget s name w
  = Some (head (filter (fun a => gadget_name (w_heap w) a = Some name) l),
          w).
Proof.
  intros Hs Hrepr Hlive. rewrite Forall_forall in Hlive.
  unfold usbg_get_gadget.
  rewrite (bind_run _ _ _ _ _ (run_get_state s st w Hs)).
  rewrite (bind_run _ _ (w_heap w) w w eq_refl).
  rewrite (find_in_repr _ _ l w Hrepr).
  - do 2 f_equal. unfold first_match. f_equal.
    apply list_filter_iff. intros a. unfold gadget_name.
    destruct (h_gadgets (w_heap w) !! a) as [x|]; simpl; [|done].
    rewrite strcmp_eq. split.
    + intros [= Hb]. apply bool_decide_eq_true in Hb. by rewrite Hb.
    + intros [= ->]. by rewrite bool_decide_eq_true_2.
  - intros a Ha. destruct (Hlive a Ha) as [x ->]. by eexists.
Qed.

(** The name lookup of [usbg_get_gadget] returns the first gadget of the
    state, in iteration order, whose name is [name], and null when there
    is none; it changes nothing. *)
Theorem usbg_get_gadget_first_match (s : addr) (name : string) (w : world)
    (st : usbg_state) (l : list addr) :
  h_states (w_heap w) !! s = Some st ->
  tq_repr (s_gadgets st) l ->
  Forall (fun a => is_Some (h_gadgets (w_heap w) !! a)) l ->
  usbg_get_gadget s name w
  = Some (head (filter (fun a => gadget_name (w_heap w) a = Some name) l),
          w).
Proof. apply usbg_get_gadget_filter. Qed.

Lemma usbg_get_gadget_first_match_witness :
  usbg_get_gadget 1%nat "g2" sample = Some (Some 3%nat, sample).
Proof.
  apply (usbg_get_gadget_first_match 1%nat "g2" sample sample_state
           [2; 3]%nat).
  - vm_compute. reflexivity.
  - decided.
  - decided.
Defined.

Lemma usbg_get_config_filter (g : addr) (id : Z)
    (label : option string) (w : world) (x : usbg_gadget) (l : list addr) :
  h_gadgets (w_heap w) !! g = Some x ->
  tq_repr (g_configs x) l ->
  Forall (fun a => is_Some (h_configs (w_heap w) !! a)) l ->
  usbg_get_config g id label w
  = Some (head (filter (config_matches (w_heap w) id label) l), w).
Proof.
  intros Hg Hrepr Hlive. rewrite Forall_forall in Hlive.
  unfold usbg_get_config.
  rewrite (bind_run _ _ _ _ _ (run_get_gadget g x w Hg)).
  rewrite (bind_run _ _ (w_heap w) w w eq_refl).
  rewrite (find_in_repr _ _ l w Hrepr).
  - do 2 f_equal. unfold first_match. f_equal.
    apply list_filter_iff. intros a. unfold config_matches.
    destruct (h_configs (w_heap w) !! a) as [c|]; simpl; [|done].
    split.
    + intros [= Hb]. apply andb_true_iff in Hb as [Hid Hlb].
      split; [lia|]. destruct label as [lb|]; [|done].
      rewrite strcmp_eq in Hlb. by apply bool_decide_eq_true in Hlb.
    + intros [Hid Hlb]. f_equal. apply andb_true_iff. split; [lia|].
      destruct label as [lb|]; [|done].
      rewrite strcmp_eq. by apply bool_decide_eq_true.
  - intros a Ha. destruct (Hlive a Ha) as [c ->]. by eexists.
Qed.

(** [usbg_get_config] returns the first config of the gadget whose id is
    [id] and, when a label is given, whose label is that one; it returns
    [NULL] when the gadget has none, and changes nothing. *)
Theorem usbg_get_config_first_match (g : addr) (id : Z)
    (label : option string) (w : world) (x : usbg_gadget) (l : list addr) :
  h_gadgets (w_heap w) !! g = Some x ->
  tq_repr (g_configs x) l ->
  Forall (fun a => is_Some (h_configs (w_heap w) !! a)) l ->
  usbg_get_config g id label w
  = Some (head (filter (config_matches (w_heap w) id label) l), w).
Proof. apply usbg_get_config_filter. Qed.

Lemma usbg_get_config_first_match_witness :
  usbg_get_config 2%nat 2 (Some "c"%string) sample
  = Some (Some 7%nat, sample).
Proof.
  apply (usbg_get_config_first_match 2%nat 2 (Some "c"%string)
           sample sample_gadget [6; 7]%nat).
  - vm_compute. reflexivity.
  - decided.
  - decided.
Defined.

Lemma usbg_get_function_filter (g : addr) (type : Z)
    (instance : string) (w : world) (x : usbg_gadget) (l : list addr) :
  h_gadgets (w_heap w) !! g = Some x ->
  tq_repr (g_functions x) l ->
  Forall (fun a => is_Some (h_functions (w_heap w) !! a)) l ->
  usbg_get_function g type instance w
  = Some (head (filter (function_matches (w_heap w) type instance) l), w).
Proof.
  intros Hg Hrepr Hlive. rewrite Forall_forall in Hlive.
  unfold usbg_get_function.
  rewrite (bind_run _ _ _ _ _ (run_get_gadget g x w Hg)).
  rewrite (bind_run _ _ (w_heap w) w w eq_refl).
  rewrite (find_in_repr _ _ l w Hrepr).
  - do 2 f_equal. unfold first_match. f_equal.
    apply list_filter_iff. intros a. unfold function_matches.
    destruct (h_functions (w_heap w) !! a) as [f|]; simpl; [|done].
    split.
    + intros [= Hb]. apply andb_true_iff in Hb as [Hty Hi].
      split; [lia|].
      rewrite strcmp_eq in Hi. by apply bool_decide_eq_true in Hi.
    + intros [Hty Hi]. f_equal. apply andb_true_iff. split; [lia|].
      rewrite strcmp_eq. by apply bool_decide_eq_true.
  - intros a Ha. destruct (Hlive a Ha) as [f ->]. by eexists.
Qed.

(** [usbg_get_function] returns the first function of the gadget with the
    given type and instance name. *)
Theorem usbg_get_function_first_match (g : addr) (type : Z)
    (instance : string) (w : world) (x : usbg_gadget) (l : list addr) :
  h_gadgets (w_heap w) !! g = Some x ->
  tq_repr (g_functions x) l ->
  Forall (fun a => is_Some (h_functions (w_heap w) !! a)) l ->
  usbg_get_function g type instance w
  = Some (head (filter (function_matches (w_heap w) type instance) l), w).
Proof. apply usbg_get_function_filter. Qed.

Lemma usbg_get_function_first_match_witness :
  usbg_get_function 2%nat 3 "usb0" sample
  = Some (Some 5%nat, sample).
Proof.
  apply (usbg_get_function_first_match 2%nat 3 "usb0" sample
           sample_gadget [4; 5]%nat).
  - vm_compute. reflexivity.
  - decided.
  - decided.
Defined.

(** [usbg_get_first_gadget] and [usbg_get_next_gadget] walk the gadgets of
    a state in order: the first call gives the head, and from the gadget
    at position [i] the next call gives the one at [i + 1], or null at the
    end. *)
Theorem usbg_gadget_iteration (s : addr) (w : world) (st : usbg_state)
    (l : list addr) :
  h_states (w_heap w) !! s = Some st ->
  tq_repr (s_gadgets st) l ->
  Forall (fun a => exists x, h_gadgets (w_heap w) !! a = Some x
                             /\ g_parent x = s) l ->
  usbg_get_first_gadget (Some s) w = Some (head l, w)
  /\ forall i a, l !! i = Some a ->
       usbg_get_next_gadget (Some a) w = Some (l !! S i, w).
Proof.
  intros Hs Hrepr Hlive. rewrite Forall_forall in Hlive. split.
  - unfold usbg_get_first_gadget.
    rewrite (bind_run _ _ _ _ _ (run_get_state s st w Hs)).
    unfold TAILQ_FIRST. by destruct Hrepr as (-> & _).
  - intros i a Hi.
    destruct (Hlive a) as (x & Hx & Hp); [by eapply list_elem_of_lookup_2|].
    unfold usbg_get_next_gadget.
    rewrite (bind_run _ _ _ _ _ (run_get_gadget a x w Hx)).
    rewrite Hp, (bind_run _ _ _ _ _ (run_get_state s st w Hs)).
    by rewrite (TAILQ_NEXT_repr _ l i a Hrepr Hi).
Qed.

Lemma usbg_gadget_iteration_witness :
  usbg_get_first_gadget (Some 1%nat) sample
  = Some (head [2; 3]%nat, sample)
  /\ forall i a, [2; 3]%nat !! i = Some a ->
       usbg_get_next_gadget (Some a) sample
       = Some ([2; 3]%nat !! S i, sample).
Proof.
  apply (usbg_gadget_iteration 1%nat sample sample_state
           [2; 3]%nat).
  - vm_compute. reflexivity.
  - decided.
  - repeat constructor; eexists; (split; [vm_compute; reflexivity|]);
      reflexivity.
Defined.

(** ** File names *)

Lemma components_name f : forall cur,
  "/"%char ∉ chars f ->
  components f cur
  = if String.eqb (cur +:+ f) "" then [] else [cur +:+ f].
Proof.
  induction f as [|x f IH]; intros cur Hf.
  - simpl. by rewrite append_nil_r.
  - rewrite chars_cons, not_elem_of_cons in Hf. destruct Hf as [Hx Hf].
    simpl. destruct (Ascii.eqb_spec x "/") as [->|_]; [done|].
    rewrite IH by done. by rewrite append_assoc.
Qed.

Lemma components_app a b : forall cur,
  components (a +:+ "/" +:+ b) cur = components a cur ++ components b "".
Proof.
  induction a as [|x a IH]; intros cur.
  - rewrite append_nil_l. reflexivity.
  - rewrite append_cons. simpl. destruct (Ascii.eqb x "/").
    + by rewrite IH, app_assoc.
    + apply IH.
Qed.

(** The last component of the path of an attribute is the file name. *)
Lemma parse_path_file path name file :
  file ≠ "" -> "/"%char ∉ chars file ->
  parse_path (path3 path name file)
  = parse_path (path2 path name) ++ [file].
Proof.
  intros Hne Hf. unfold parse_path, path3, path2.
  replace (path +:+ "/" +:+ name +:+ "/" +:+ file)
    with ((path +:+ "/" +:+ name) +:+ "/" +:+ file)
    by (by rewrite !append_assoc).
  rewrite components_app, (components_name file "") by done.
  rewrite append_nil_l. by destruct (String.eqb_spec file "") as [->|_].
Qed.

Section Attributes.
Context `{Platform}.

Lemma fs_fopen_w_frame p text fs fs' r :
  fs_fopen_w p text fs = (fs', r) ->
  forall k, k ≠ parse_path p -> fs_lookup fs' k = fs_lookup fs k.
Proof.
  unfold fs_fopen_w. intros E k Hk.
  assert (Hcase : fs' = fs
                  \/ fs' = fs_with_nodes fs
                             (<[parse_path p := FFile text]> (fs_nodes fs))).
  { destruct (fs_store_cases (parse_path p) text fs) as [Hs|[e Hs]];
      rewrite Hs in E;
      destruct (fs_lookup fs (parse_path p)) as [[| |]|];
      try (left; congruence); try (right; congruence);
      destruct (fs_lookup fs (parent (parse_path p))) as [[| |]|];
      first [left; congruence | right; congruence]. }
  destruct Hcase as [->| ->]; [done|].
  unfold fs_lookup. simpl. destruct k; [done|].
  by rewrite lookup_insert_ne.
Qed.

(** A write changes no file but its own, whatever it returns. *)
Lemma usbg_write_buf_frame path name file text w r w' :
  usbg_write_buf path name file text w = Some (r, w') ->
  w_heap w' = w_heap w
  /\ forall k, k ≠ parse_path (path3 path name file) ->
       fs_lookup (w_fs w') k = fs_lookup (w_fs w) k.
Proof.
  unfold usbg_write_buf, snprintf.
  destruct (Z.ltb_spec (Z.of_nat (String.length (path3 path name file)))
              (Z.of_nat USBG_MAX_PATH_LENGTH)) as [Hfit|_];
    [|by intros [= <- <-]].
  rewrite strndup_all by lia. intros E.
  apply bind_Some in E as (r0 & w1 & Eo & E).
  unfold fopen_w, syscall_fs in Eo.
  destruct (fs_fopen_w _ text (w_fs w)) as [fs' r'] eqn:Ew.
  injection Eo as <- <-.
  assert (w' = {| w_fs := fs'; w_heap := w_heap w;
                  w_trace := w_trace w ++ [SysOpenWrite (path3 path name file)] |})
    as -> by (destruct r'; by apply ret_Some in E as [_ ->]).
  split; [done|]. simpl. by eapply fs_fopen_w_frame.
Qed.

Lemma usbg_write_int_frame path name file v fmt w r w' :
  usbg_write_int path name file v fmt w = Some (r, w') ->
  w_heap w' = w_heap w
  /\ forall k, k ≠ parse_path (path3 path name file) ->
       fs_lookup (w_fs w') k = fs_lookup (w_fs w) k.
Proof.
  unfold usbg_write_int, snprintf. destruct (_ <? _).
  - apply usbg_write_buf_frame.
  - by intros [= <- <-].
Qed.

(** One write of [usbg_set_gadget_attrs]: what it stores, and that it
    leaves the other attributes alone. *)
Lemma usbg_write_int_step path name file v fmt w r w' :
  usbg_write_int path name file v fmt w = Some (r, w') ->
  w_heap w' = w_heap w
  /\ (forall k, k ≠ parse_path (path3 path name file) ->
        fs_lookup (w_fs w') k = fs_lookup (w_fs w) k)
  /\ (r = USBG_SUCCESS ->
      (String.length (path3 path name file) < USBG_MAX_PATH_LENGTH)%nat
      /\ fs_lookup (w_fs w') (parse_path (path3 path name file))
         = Some (FFile (format_int fmt v))
      /\ (String.length (format_int fmt v) < USBG_MAX_STR_LENGTH)%nat).
Proof.
  intros E. destruct (usbg_write_int_frame _ _ _ _ _ _ _ _ E) as [Hh Hfr].
  split; [done|]. split; [done|]. intros ->.
  by apply usbg_write_int_stored in E.
Qed.

(** A step of a chain of writes that stops at the first failure. *)
Lemma write_chain_step (m : M usbg_error) (k : M usbg_error) w w' :
  (ret ← m; if decide (ret ≠ USBG_SUCCESS) then mret ret else k) w
  = Some (USBG_SUCCESS, w') ->
  exists w1, m w = Some (USBG_SUCCESS, w1) /\ k w1 = Some (USBG_SUCCESS, w').
Proof.
  intros E. apply bind_Some in E as (r & w1 & E1 & E).
  destruct (decide (r ≠ USBG_SUCCESS)) as [Hne|Heq].
  - apply ret_Some in E as [Hr _]. by symmetry in Hr.
  - apply dec_stable in Heq as ->. by exists w1.
Qed.

(** The same for the reads of [usbg_parse_gadget_attrs]. *)
Lemma read_chain_step {A} (m : M (usbg_error * Z))
    (k : Z -> M (usbg_error * A)) (a : A) v w w1 :
  m w = Some (USBG_SUCCESS, v, w1) ->
  ('(ret, buf) ← m;
   if decide (ret ≠ USBG_SUCCESS) then mret (ret, a) else k buf) w
  = k v w1.
Proof.
  intros E. rewrite (bind_run _ _ _ _ _ E). simpl.
  by destruct (decide (USBG_SUCCESS ≠ USBG_SUCCESS)).
Qed.

Lemma uint16_of_int_id v : 0 <= v < 2 ^ 16 -> uint16_of_int v = v.
Proof. intros Hv. unfold uint16_of_int. by apply Z.mod_small. Qed.

Lemma uint8_of_int_id v : 0 <= v < 2 ^ 8 -> uint8_of_int v = v.
Proof. intros Hv. unfold uint8_of_int. by apply Z.mod_small. Qed.

(** The attributes that [usbg_set_gadget_attrs] wrote with success are the
    attributes that [usbg_get_gadget_attrs] then reads, on a tree that
    keeps what is written to it. *)
Theorem usbg_get_gadget_attrs_after_set (g : addr)
    (a a0 : usbg_gadget_attrs) (w w' : world) :
  32 <= LONG_BITS -> gadget_attrs_valid a ->
  usbg_set_gadget_attrs (Some g) (Some a) w = Some (USBG_SUCCESS, w') ->
  exists w'',
    usbg_get_gadget_attrs (Some g) (Some a0) w'
    = Some (USBG_SUCCESS, Some a, w'')
    /\ w_fs w'' = w_fs w' /\ w_heap w'' = w_heap w'.
Proof.
  intros Hbits (H1 & H2 & H3 & H4 & H5 & H6 & H7 & H8) E.
  unfold usbg_set_gadget_attrs in E.
  apply bind_Some in E as (x & w0 & Ex & E).
  apply get_gadget_Some in Ex as [Hg ->].
  set (p := g_path x) in *. set (n := g_name x) in *.
  apply write_chain_step in E as (w1 & E1 & E).
  apply write_chain_step in E as (w2 & E2 & E).
  apply write_chain_step in E as (w3 & E3 & E).
  apply write_chain_step in E as (w4 & E4 & E).
  apply write_chain_step in E as (w5 & E5 & E).
  apply write_chain_step in E as (w6 & E6 & E).
  apply write_chain_step in E as (w7 & E7 & E).
  apply usbg_write_int_step in E1 as (Hh1 & Hf1 & Hs1).
  apply usbg_write_int_step in E2 as (Hh2 & Hf2 & Hs2).
  apply usbg_write_int_step in E3 as (Hh3 & Hf3 & Hs3).
  apply usbg_write_int_step in E4 as (Hh4 & Hf4 & Hs4).
  apply usbg_write_int_step in E5 as (Hh5 & Hf5 & Hs5).
  apply usbg_write_int_step in E6 as (Hh6 & Hf6 & Hs6).
  apply usbg_write_int_step in E7 as (Hh7 & Hf7 & Hs7).
  apply usbg_write_int_step in E as (Hh8 & Hf8 & Hs8).
  destruct (Hs1 eq_refl) as (Hp1 & Hv1 & Hl1).
  destruct (Hs2 eq_refl) as (Hp2 & Hv2 & Hl2).
  destruct (Hs3 eq_refl) as (Hp3 & Hv3 & Hl3).
  destruct (Hs4 eq_refl) as (Hp4 & Hv4 & Hl4).
  destruct (Hs5 eq_refl) as (Hp5 & Hv5 & Hl5).
  destruct (Hs6 eq_refl) as (Hp6 & Hv6 & Hl6).
  destruct (Hs7 eq_refl) as (Hp7 & Hv7 & Hl7).
  destruct (Hs8 eq_refl) as (Hp8 & Hv8 & Hl8).
  clear Hs1 Hs2 Hs3 Hs4 Hs5 Hs6 Hs7 Hs8.
  rewrite !parse_path_file in * by (done || by apply (bool_decide_unpack _)).
  assert (Hne : forall f1 f2 : string, f1 ≠ f2 ->
            parse_path (path2 p n) ++ [f1] ≠ parse_path (path2 p n) ++ [f2]).
  { intros f1 f2 Hf [_ Heq]%app_inj_tail. done. }
  (* every file keeps its text through the writes that follow it *)
  rewrite <- Hf2, <- Hf3, <- Hf4, <- Hf5, <- Hf6, <- Hf7, <- Hf8 in Hv1
    by (by apply Hne).
  rewrite <- Hf3, <- Hf4, <- Hf5, <- Hf6, <- Hf7, <- Hf8 in Hv2
    by (by apply Hne).
  rewrite <- Hf4, <- Hf5, <- Hf6, <- Hf7, <- Hf8 in Hv3 by (by apply Hne).
  rewrite <- Hf5, <- Hf6, <- Hf7, <- Hf8 in Hv4 by (by apply Hne).
  rewrite <- Hf6, <- Hf7, <- Hf8 in Hv5 by (by apply Hne).
  rewrite <- Hf7, <- Hf8 in Hv6 by (by apply Hne).
  rewrite <- Hf8 in Hv7 by (by apply Hne).
  assert (Hg' : h_gadgets (w_heap w') !! g = Some x) by congruence.
  clear Hf1 Hf2 Hf3 Hf4 Hf5 Hf6 Hf7 Hf8 Hh1 Hh2 Hh3 Hh4 Hh5 Hh6 Hh7 Hh8.
  unfold usbg_get_gadget_attrs.
  rewrite (bind_run _ _ _ _ _ (run_get_gadget g x w' Hg')).
  fold p n. unfold usbg_parse_gadget_attrs, usbg_read_hex.
  assert (Hread : forall file v fmt dest wa,
            w_fs wa = w_fs w' -> fmt ≠ FmtDec -> 0 <= v < 2 ^ 16 ->
            file ≠ "" -> "/"%char ∉ chars file ->
            (String.length (path3 p n file) < USBG_MAX_PATH_LENGTH)%nat ->
            fs_lookup (w_fs w') (parse_path (path2 p n) ++ [file])
            = Some (FFile (format_int fmt v)) ->
            (String.length (format_int fmt v) < USBG_MAX_STR_LENGTH)%nat ->
            exists wb, usbg_read_int p n file 16 dest wa
                       = Some (USBG_SUCCESS, v, wb)
              /\ w_fs wb = w_fs w' /\ w_heap wb = w_heap wa).
  { intros file v fmt dest wa Hfs Hfmt Hv Hfne Hfsl Hpath Hfile Hlen.
    destruct (usbg_read_int_file p n file v fmt dest wa) as (wb & Er & ? & ?);
      [ done
      | destruct fmt; [done|..]; unfold int_in_range, INT_MAX; lia
      | done
      | by rewrite Hfs, parse_path_file
      | done |].
    exists wb. split; [|split; congruence].
    by destruct fmt. }
  assert (Hparse : exists w'',
            usbg_parse_gadget_attrs p n a0 w' = Some (USBG_SUCCESS, a, w'')
            /\ w_fs w'' = w_fs w' /\ w_heap w'' = w_heap w').
  { unfold usbg_parse_gadget_attrs, usbg_read_hex.
    destruct (Hread "bcdUSB" (bcdUSB a) FmtHex16 0 w')
      as (r1 & Er1 & Hr1 & Hq1);
      [done | done | lia | done | by apply (bool_decide_unpack _)
      | done | done | done |].
    rewrite (read_chain_step _ _ _ _ _ _ Er1). cbv zeta.
    destruct (Hread "bcdDevice" (bcdDevice a) FmtHex16 (bcdUSB a) r1)
      as (r2 & Er2 & Hr2 & Hq2);
      [done | done | lia | done | by apply (bool_decide_unpack _)
      | done | done | done |].
    rewrite (read_chain_step _ _ _ _ _ _ Er2). cbv zeta.
    destruct (Hread "bDeviceClass" (bDeviceClass a) FmtHex8 (bcdDevice a) r2)
      as (r3 & Er3 & Hr3 & Hq3);
      [done | done | lia | done | by apply (bool_decide_unpack _)
      | done | done | done |].
    rewrite (read_chain_step _ _ _ _ _ _ Er3). cbv zeta.
    destruct (Hread "bDeviceSubClass" (bDeviceSubClass a) FmtHex8
                (bDeviceClass a) r3)
      as (r4 & Er4 & Hr4 & Hq4);
      [done | done | lia | done | by apply (bool_decide_unpack _)
      | done | done | done |].
    rewrite (read_chain_step _ _ _ _ _ _ Er4). cbv zeta.
    destruct (Hread "bDeviceProtocol" (bDeviceProtocol a) FmtHex8
                (bDeviceSubClass a) r4)
      as (r5 & Er5 & Hr5 & Hq5);
      [done | done | lia | done | by apply (bool_decide_unpack _)
      | done | done | done |].
    rewrite (read_chain_step _ _ _ _ _ _ Er5). cbv zeta.
    destruct (Hread "bMaxPacketSize0" (bMaxPacketSize0 a) FmtHex8
                (bDeviceProtocol a) r5)
      as (r6 & Er6 & Hr6 & Hq6);
      [done | done | lia | done | by apply (bool_decide_unpack _)
      | done | done | done |].
    rewrite (read_chain_step _ _ _ _ _ _ Er6). cbv zeta.
    destruct (Hread "idVendor" (idVendor a) FmtHex16 (bMaxPacketSize0 a) r6)
      as (r7 & Er7 & Hr7 & Hq7);
      [done | done | lia | done | by apply (bool_decide_unpack _)
      | done | done | done |].
    rewrite (read_chain_step _ _ _ _ _ _ Er7). cbv zeta.
    destruct (Hread "idProduct" (idProduct a) FmtHex16 (idVendor a) r7)
      as (r8 & Er8 & Hr8 & Hq8);
      [done | done | lia | done | by apply (bool_decide_unpack _)
      | done | done | done |].
    rewrite (bind_run _ _ _ _ _ Er8). simpl.
    destruct (decide (USBG_SUCCESS ≠ USBG_SUCCESS)) as [?|_]; [done|].
    exists r8. split; [|split; congruence].
    rewrite !uint16_of_int_id, !uint8_of_int_id by done.
    by destruct a. }
  destruct Hparse as (w'' & Ep & Hfs & Hheap).
  exists w''. split; [|done].
  by rewrite (bind_run _ _ _ _ _ Ep).
Qed.

End Attributes.

Lemma usbg_get_gadget_attrs_after_set_witness :
  exists w'',
    @usbg_get_gadget_attrs linux64 (Some 2%nat)
      (Some {| bcdUSB := 0; bDeviceClass := 0; bDeviceSubClass := 0;
               bDeviceProtocol := 0; bMaxPacketSize0 := 0; idVendor := 0;
               idProduct := 0; bcdDevice := 0 |}) sample_with_attrs
    = Some (USBG_SUCCESS, Some sample_attrs, w'')
    /\ w_fs w'' = w_fs sample_with_attrs
    /\ w_heap w'' = w_heap sample_with_attrs.
Proof.
  apply (@usbg_get_gadget_attrs_after_set linux64 2%nat sample_attrs _
           sample sample_with_attrs).
  - simpl. lia.
  - unfold gadget_attrs_valid, sample_attrs. simpl. lia.
  - vm_compute. reflexivity.
Defined.

(** ** Getters *)

Lemma buf_string_chars s r :
  c_string s -> buf_string (chars s ++ "000"%char :: r) = Some s.
Proof.
  unfold c_string. induction s as [|x s IH]; [done|].
  rewrite chars_cons, not_elem_of_cons. intros [Hx Hs]. simpl.
  destruct (Ascii.eqb_spec x "000") as [->|_]; [done|].
  change (list_ascii_of_string s) with (chars s). by rewrite IH.
Qed.

Lemma length_chars s : length (chars s) = String.length s.
Proof. induction s as [|x s IH]; [done|]. rewrite chars_cons. simpl. lia. Qed.

(** [strncpy] into a buffer that has room for [n] bytes. *)
Lemma strncpy_spec dest src n :
  c_string src -> (n <= length dest)%nat ->
  exists b, strncpy dest src n = Some b
    /\ length b = length dest
    /\ drop n b = drop n dest
    /\ ((String.length src < n)%nat -> buf_string b = Some src)
    /\ ((n <= String.length src)%nat ->
        take n b = take n (chars src) /\ "000"%char ∉ take n b).
Proof.
  intros Hc Hn. unfold strncpy.
  destruct (Nat.leb_spec n (length dest)) as [_|?]; [|lia].
  change (list_ascii_of_string src) with (chars src).
  eexists. split; [reflexivity|].
  assert (Hlen : length (take n (chars src ++ replicate n "000"%char)) = n).
  { rewrite length_take, length_app, length_replicate. lia. }
  split; [|split; [|split]].
  - rewrite length_app, Hlen, length_drop. lia.
  - rewrite drop_app_length'; done.
  - intros Hlt.
    rewrite take_app_ge by (rewrite length_chars; lia).
    rewrite length_chars.
    destruct (n - String.length src)%nat as [|k] eqn:Ek; [lia|].
    rewrite take_replicate. rewrite Nat.min_l by lia. simpl.
    rewrite <- app_assoc. simpl. by apply buf_string_chars.
  - intros Hge.
    rewrite take_app_le by (rewrite Hlen; lia).
    rewrite take_take, Nat.min_id.
    rewrite take_app_le by (rewrite length_chars; lia).
    split; [done|]. intros Hin. apply Hc. by eapply subseteq_take.
Qed.

Section Getters.
Context `{Platform}.

(** [usbg_get_gadget_name] copies [len] bytes: with [len] above the length
    of the name (as with the [usbg_get_gadget_name_len] plus one that the
    interface suggests) the buffer then holds the name as a C string, and
    with [len] at most that length it holds the first [len] characters and
    no terminator among them.  The bytes beyond [len] are not touched. *)
Theorem usbg_get_gadget_name_buffer (g : addr) (x : usbg_gadget)
    (buf : list ascii) (len : nat) (w : world) :
  h_gadgets (w_heap w) !! g = Some x -> c_string (g_name x) ->
  (len <= length buf)%nat ->
  usbg_get_gadget_name_len (Some g) w
  = Some (Z.of_nat (String.length (g_name x)), w)
  /\ exists b,
       usbg_get_gadget_name (Some g) (Some buf) len w
       = Some (USBG_SUCCESS, Some b, w)
       /\ length b = length buf /\ drop len b = drop len buf
       /\ ((String.length (g_name x) < len)%nat ->
           buf_string b = Some (g_name x))
       /\ ((len <= String.length (g_name x))%nat ->
           take len b = take len (chars (g_name x))
           /\ "000"%char ∉ take len b).
Proof.
  intros Hg Hc Hlen. split.
  - unfold usbg_get_gadget_name_len.
    by rewrite (bind_run _ _ _ _ _ (run_get_gadget g x w Hg)).
  - destruct (strncpy_spec buf (g_name x) len Hc Hlen)
      as (b & Hb & Hspec).
    exists b. split; [|done]. unfold usbg_get_gadget_name.
    rewrite (bind_run _ _ _ _ _ (run_get_gadget g x w Hg)).
    by rewrite Hb.
Qed.

End Getters.

Lemma usbg_get_gadget_name_buffer_witness :
  @usbg_get_gadget_name_len linux64 (Some 2%nat) sample
  = Some (Z.of_nat (String.length (g_name sample_gadget)), sample)
  /\ exists b,
       usbg_get_gadget_name (Some 2%nat)
         (Some (replicate 4 "x"%char)) 3 sample
       = Some (USBG_SUCCESS, Some b, sample)
       /\ length b = length (replicate 4 "x"%char)
       /\ drop 3 b = drop 3 (replicate 4 "x"%char)
       /\ ((String.length (g_name sample_gadget) < 3)%nat ->
           buf_string b = Some (g_name sample_gadget))
       /\ ((3 <= String.length (g_name sample_gadget))%nat ->
           take 3 b = take 3 (chars (g_name sample_gadget))
           /\ "000"%char ∉ take 3 b).
Proof.
  apply (@usbg_get_gadget_name_buffer linux64 2%nat sample_gadget
           (replicate 4 "x"%char) 3 sample).
  - vm_compute. reflexivity.
  - decided.
  - vm_compute. lia.
Defined.

(** ** Error names *)

(** The twelve codes have twelve different names and twelve different
    messages, none of them the one that every other integer gets. *)
Theorem usbg_error_names_distinct :
  NoDup (usbg_error_name <$> (usbg_error_code <$> usbg_errors))
  /\ NoDup (usbg_strerror <$> (usbg_error_code <$> usbg_errors))
  /\ (forall e : usbg_error, e ∈ usbg_errors)
  /\ forall z : Z,
       z ∈ usbg_error_code <$> usbg_errors
       \/ (usbg_error_name z = "UNKNOWN"
           /\ usbg_strerror z = "Unknown error").
Proof.
  split; [apply (bool_decide_unpack _); vm_compute; exact I|].
  split; [apply (bool_decide_unpack _); vm_compute; exact I|].
  split; [intros []; apply (bool_decide_unpack _); vm_compute; exact I|].
  intros z. unfold usbg_error_name, usbg_strerror, usbg_errors.
  repeat match goal with
         | |- context [?a =? ?b] =>
             destruct (Z.eqb_spec a b) as [->|?];
             [left; apply (bool_decide_unpack _); vm_compute; exact I|]
         end.
  by right.
Qed.

(** No [errno] is translated to success, to "not supported" or to "path
    too long": these three codes come from the library's own checks
    only. *)
Theorem usbg_translate_error_range (errno : Z) :
  usbg_translate_error errno
  ∉ [USBG_SUCCESS; USBG_ERROR_NOT_SUPPORTED; USBG_ERROR_PATH_TOO_LONG].
Proof.
  unfold usbg_translate_error.
  repeat match goal with |- context [if ?b then _ else _] => destruct b end;
    apply (bool_decide_unpack _); vm_compute; exact I.
Qed.

Section Edge.
Context `{Platform}.

(** The splitter accepts the id 0, and [usbg_parse_config] takes a result
    of 0 for "nothing to do": a config directory ["<label>.0"] is passed
    over with success, and the graph stays as it is. *)
Theorem usbg_parse_config_skips_id_zero (path label : string) (g : addr)
    (w : world) :
  32 <= LONG_BITS -> label ≠ "" ->
  usbg_split_config_label_id (label +:+ ".0") = (0, Some label)
  /\ usbg_parse_config path (label +:+ ".0") g w
     = Some (usbg_error_code USBG_SUCCESS, w).
Proof.
  intros Hbits Hlabel.
  pose proof (usbg_split_config_label_id_fmt_d label 0 Hbits Hlabel)
    as Hsplit.
  change (fmt_d 0) with "0" in Hsplit. change ("." +:+ "0") with ".0" in Hsplit.
  split; [apply Hsplit; lia|].
  unfold usbg_parse_config. rewrite Hsplit by lia. done.
Qed.



End Edge.

Lemma usbg_parse_config_skips_id_zero_witness :
  @usbg_split_config_label_id linux64 ("c" +:+ ".0") = (0, Some "c"%string)
  /\ @usbg_parse_config linux64
       "/sys/kernel/config/usb_gadget/g1/configs" ("c" +:+ ".0") 2%nat sample
     = Some (usbg_error_code USBG_SUCCESS, sample).
Proof.
  apply (@usbg_parse_config_skips_id_zero linux64
           "/sys/kernel/config/usb_gadget/g1/configs" "c" 2%nat sample).
  - simpl. lia.
  - discriminate.
Defined.


Section PathTooLong.
Context `{Platform}.

(** A path of a file that does not fit into [USBG_MAX_PATH_LENGTH] bytes
    stops every reader and writer of AttributeIO before the first system
    call: the readers return "path too long" with an empty string, or with
    the caller's integer as it was; the writers return it, or "invalid
    parameter" when the value does not fit either, and nothing changes. *)
Theorem attribute_io_path_too_long (path name file buf : string)
    (base dest v : Z) (fmt : int_format) (w : world) :
  (USBG_MAX_PATH_LENGTH <= String.length (path3 path name file))%nat ->
  usbg_read_buf path name file buf w
  = Some (USBG_ERROR_PATH_TOO_LONG, buf, w)
  /\ usbg_read_string path name file buf w
     = Some (USBG_ERROR_PATH_TOO_LONG, ""%string, w)
  /\ usbg_read_int path name file base dest w
     = Some (USBG_ERROR_PATH_TOO_LONG, dest, w)
  /\ usbg_write_buf path name file buf w
     = Some (USBG_ERROR_PATH_TOO_LONG, w)
  /\ exists ret,
       usbg_write_int path name file v fmt w = Some (ret, w)
       /\ ret ∈ [USBG_ERROR_PATH_TOO_LONG; USBG_ERROR_INVALID_PARAM].
Proof.
  intros Hlong.
  pose proof (fun b => proj1 (attribute_path_too_long path name file b w
                                Hlong)) as Hread.
  pose proof (fun b => proj2 (attribute_path_too_long path name file b w
                                Hlong)) as Hwrite.
  split; [apply Hread|].
  split.
  { unfold usbg_read_string. by rewrite (bind_run _ _ _ _ _ (Hread buf)). }
  split.
  { unfold usbg_read_int.
    by rewrite (bind_run _ _ _ _ _ (Hread ""%string)). }
  split; [apply Hwrite|].
  unfold usbg_write_int.
  destruct (snprintf USBG_MAX_STR_LENGTH (format_int fmt v)) as [b nmb].
  destruct (nmb <? Z.of_nat USBG_MAX_STR_LENGTH).
  - exists USBG_ERROR_PATH_TOO_LONG. split; [apply Hwrite | by left].
  - exists USBG_ERROR_INVALID_PARAM. split; [done | right; by left].
Qed.

End PathTooLong.

Lemma attribute_io_path_too_long_witness :
  @usbg_read_buf linux64 (replicate_char 250 "p") "g1" "idVendor" "" sample
  = Some (USBG_ERROR_PATH_TOO_LONG, ""%string, sample)
  /\ @usbg_read_string linux64 (replicate_char 250 "p") "g1" "idVendor" ""
       sample
     = Some (USBG_ERROR_PATH_TOO_LONG, ""%string, sample)
  /\ @usbg_read_int linux64 (replicate_char 250 "p") "g1" "idVendor" 16 5
       sample
     = Some (USBG_ERROR_PATH_TOO_LONG, 5, sample)
  /\ @usbg_write_buf linux64 (replicate_char 250 "p") "g1" "idVendor" ""
       sample
     = Some (USBG_ERROR_PATH_TOO_LONG, sample)
  /\ exists ret,
       @usbg_write_int linux64 (replicate_char 250 "p") "g1" "idVendor" 7
         FmtHex16 sample
       = Some (ret, sample)
       /\ ret ∈ [USBG_ERROR_PATH_TOO_LONG; USBG_ERROR_INVALID_PARAM].
Proof.
  apply (@attribute_io_path_too_long linux64 (replicate_char 250 "p") "g1"
           "idVendor" "" 16 5 7 FmtHex16 sample).
  vm_compute. lia.
Defined.

(** ** Removal *)

(** Storing through the pointer at the end of a segment. *)
Lemma tq_store_end q pre nxt v :
  NoDup pre -> tq_seg q HeadFirst pre nxt ->
  exists q', tq_store (tq_end HeadFirst pre) v q = Some q'
    /\ tq_seg q' HeadFirst pre v
    /\ tqh_first q' = (if pre is [] then v else tqh_first q)
    /\ tqh_last q' = tqh_last q
    /\ (forall b, b ∉ pre -> tq_links q' !! b = tq_links q !! b).
Proof.
  intros Hnd Hseg. destruct pre as [|p pre _] using rev_ind.
  - eexists. split; [reflexivity|]. done.
  - rewrite tq_end_snoc.
    apply tq_seg_app in Hseg as [Hpre [Hp _]]. simpl in Hpre, Hp.
    apply NoDup_app in Hnd as (_ & Hdis & _).
    rewrite (tq_store_elm p v q _ Hp). eexists. split; [reflexivity|].
    split; [|split; [|split]].
    + apply tq_seg_app. split.
      * eapply tq_seg_frame; [|exact Hpre]. intros b Hb. simpl.
        rewrite lookup_insert_ne; [done|]. intros <-.
        apply (Hdis p Hb). left.
      * simpl. by rewrite lookup_insert_eq.
    + simpl. by destruct pre.
    + done.
    + intros b Hb. simpl. rewrite lookup_insert_ne; [done|].
      intros <-. apply Hb. apply elem_of_app. right. left.
Qed.

(** Changing the back pointer of the first element of a segment. *)
Lemma tq_set_prev_head q prev n post nxt newprev :
  NoDup (n :: post) -> tq_seg q prev (n :: post) nxt ->
  exists q', tq_set_prev n newprev q = Some q'
    /\ tq_seg q' newprev (n :: post) nxt
    /\ tqh_first q' = tqh_first q /\ tqh_last q' = tqh_last q
    /\ (forall b, b ≠ n -> tq_links q' !! b = tq_links q !! b).
Proof.
  intros Hnd [Hn Hpost]. apply NoDup_cons in Hnd as [Hnp _].
  rewrite (tq_set_prev_Some n newprev q _ Hn). eexists.
  split; [reflexivity|]. split; [|split; [done|split; [done|]]].
  - split; [simpl; by rewrite lookup_insert_eq|].
    eapply tq_seg_frame; [|exact Hpost]. intros b Hb. simpl.
    rewrite lookup_insert_ne; [done|]. by intros <-.
  - intros b Hb. simpl. by rewrite lookup_insert_ne.
Qed.

(** [TAILQ_REMOVE] takes one element out of a well-formed queue and
    leaves the others in their order. *)
Lemma TAILQ_REMOVE_repr q pre a post :
  tq_repr q (pre ++ a :: post) ->
  exists q', TAILQ_REMOVE a q = Some q' /\ tq_repr q' (pre ++ post)
    /\ (forall b, b ∉ pre ++ post -> tq_links q' !! b = tq_links q !! b).
Proof.
  intros (Hfirst & Hseg & Hlast & Hnd).
  apply tq_seg_app in Hseg as [Hpre [Ha Hpost]]. simpl in Hpre.
  pose proof Hnd as Hnd0.
  apply NoDup_app in Hnd as (Hndpre & Hdis & Hnda).
  apply NoDup_cons in Hnda as [Hapost Hndpost].
  assert (Hapre : a ∉ pre) by (intros Hin; apply (Hdis a Hin); left).
  unfold TAILQ_REMOVE.
  destruct post as [|n post].
  - (* [a] is the last element *)
    change (default None (Some <$> head [])) with (@None addr) in Ha.
    rewrite Ha. cbn [mbind option_bind tqe_next tqe_prev].
    change (tq_links (tq_set_last ?l q)) with (tq_links q).
    rewrite Ha. cbn [mbind option_bind tqe_next tqe_prev].
    destruct (tq_store_end (tq_set_last (tq_end HeadFirst pre) q) pre
                (Some a) None Hndpre) as (q' & Hq' & Hseg' & Hf' & Hl' & Hfr').
    { eapply tq_seg_frame; [|exact Hpre]. done. }
    rewrite Hq'. exists q'. split; [done|]. split.
    + rewrite app_nil_r. split; [|split; [done|split; [|done]]].
      * rewrite Hf'. simpl. rewrite Hfirst. by destruct pre.
      * by rewrite Hl'.
    + intros b Hb. rewrite app_nil_r in Hb. by rewrite Hfr'.
  - (* [n] follows [a] *)
    change (default None (Some <$> head (n :: post))) with (Some n) in Ha.
    rewrite Ha. cbn [mbind option_bind tqe_next tqe_prev].
    assert (Han : a ≠ n) by (intros ->; apply Hapost; left).
    destruct (tq_set_prev_head q (ElmNext a) n post None
                (tq_end HeadFirst pre) Hndpost Hpost)
      as (q1 & Hq1 & Hseg1 & Hf1 & Hl1 & Hfr1).
    rewrite Hq1. cbn [mbind option_bind].
    rewrite (Hfr1 a Han), Ha. cbn [mbind option_bind tqe_next tqe_prev].
    destruct (tq_store_end q1 pre (Some a) (Some n) Hndpre)
      as (q' & Hq' & Hseg' & Hf' & Hl' & Hfr').
    { eapply tq_seg_frame; [|exact Hpre]. intros b Hb. apply Hfr1.
      intros ->. apply (Hdis n Hb). right. left. }
    rewrite Hq'. exists q'. split; [done|]. split.
    + split; [|split; [|split]].
      * rewrite Hf'. destruct pre; [done|]. rewrite Hf1, Hfirst. reflexivity.
      * apply tq_seg_app. split; [done|].
        eapply tq_seg_frame; [|exact Hseg1]. intros b Hb. apply Hfr'.
        intros Hin. apply (Hdis b Hin). by right.
      * rewrite Hl', Hl1, Hlast. by rewrite !tq_end_app, tq_end_cons.
      * apply NoDup_app. split; [done|]. split; [|done].
        intros b Hb Hin. apply (Hdis b Hb). by right.
    + intros b Hb. rewrite Hfr'.
      * apply Hfr1. intros ->. apply Hb. apply elem_of_app. right. left.
      * intros Hin. apply Hb. apply elem_of_app. by left.
Qed.

Lemma tq_repr_free q l a : tq_repr q l -> a ∉ l -> tq_repr (tq_free a q) l.
Proof.
  intros (Hfirst & Hseg & Hlast & Hnd) Ha.
  split; [done|]. split; [|done].
  eapply tq_seg_frame; [|exact Hseg]. intros b Hb. simpl.
  rewrite lookup_delete_ne; [done|]. by intros ->.
Qed.

Section Removal.
Context `{Platform}.

Lemma ubsg_rm_file_heap path name w :
  exists ret w', ubsg_rm_file path name w = Some (ret, w')
                 /\ w_heap w' = w_heap w.
Proof.
  unfold ubsg_rm_file, snprintf. destruct (_ <? _).
  - unfold mbind, M_bind, unlink, syscall_fs.
    destruct (fs_unlink _ (w_fs w)) as [fs' r]. simpl.
    destruct (negb (r =? 0)); eexists _, _; split; reflexivity.
  - eexists _, _; split; reflexivity.
Qed.

(** [usbg_rm_binding] on a binding that is linked into the queue of its
    config always returns.  When it returns success the binding is freed
    and the queue holds the other bindings in their order; when it returns
    an error the graph is as it was. *)
Theorem usbg_rm_binding_unlinks (b : addr) (x : usbg_binding)
    (cx : usbg_config) (pre post : list addr) (w : world) :
  h_bindings (w_heap w) !! b = Some x ->
  h_configs (w_heap w) !! b_parent x = Some cx ->
  tq_repr (c_bindings cx) (pre ++ b :: post) ->
  exists ret w',
    usbg_rm_binding (Some b) w = Some (ret, w')
    /\ if decide (ret = USBG_SUCCESS)
       then h_bindings (w_heap w') !! b = None
            /\ exists cx', h_configs (w_heap w') !! b_parent x = Some cx'
                           /\ tq_repr (c_bindings cx') (pre ++ post)
       else w_heap w' = w_heap w.
Proof.
  intros Hb Hc Hrepr. unfold usbg_rm_binding.
  rewrite (bind_run _ _ _ _ _ (run_get_binding b x w Hb)).
  destruct (ubsg_rm_file_heap (b_path x) (b_name x) w)
    as (ret & w1 & Erm & Hheap).
  rewrite (bind_run _ _ _ _ _ Erm).
  destruct (decide (ret = USBG_SUCCESS)) as [->|Hne].
  - assert (Hc1 : h_configs (w_heap w1) !! b_parent x = Some cx)
      by (by rewrite Hheap).
    rewrite (bind_run _ _ _ _ _ (run_get_config _ cx w1 Hc1)).
    destruct (TAILQ_REMOVE_repr _ pre b post Hrepr)
      as (q' & Hq' & Hrepr' & _).
    rewrite Hq'.
    assert (Hbnot : b ∉ pre ++ post).
    { destruct Hrepr as (_ & _ & _ & Hnd).
      apply NoDup_app in Hnd as (_ & Hdis & Hndb).
      apply NoDup_cons in Hndb as [Hbpost _].
      intros [Hin|Hin]%elem_of_app; [|done]. apply (Hdis b Hin). left. }
    unfold defined, set_c_bindings, usbg_free_binding, drop_binding_links,
      set_c_bindings, get_config, get_binding, upd_configs, upd_bindings,
      get_heap, put_heap, defined, mbind, M_bind, mret, M_ret.
    simpl. rewrite Hc1. simpl. rewrite Hheap, Hb. simpl.
    repeat (progress (rewrite ?lookup_insert_eq; simpl)).
    eexists _, _. split; [reflexivity|]. simpl.
    rewrite lookup_delete_eq. split; [done|].
    rewrite lookup_insert_eq. eexists. split; [reflexivity|]. simpl.
    by apply tq_repr_free.
  - exists ret, w1. split; [done|]. by rewrite decide_False.
Qed.

End Removal.

Lemma usbg_rm_binding_unlinks_witness :
  exists ret w',
    @usbg_rm_binding linux64 (Some 8%nat) sample = Some (ret, w')
    /\ if decide (ret = USBG_SUCCESS)
       then h_bindings (w_heap w') !! 8%nat = None
            /\ exists cx',
                 h_configs (w_heap w') !! b_parent sample_binding = Some cx'
                 /\ tq_repr (c_bindings cx') ([] ++ [9%nat])
       else w_heap w' = w_heap sample.
Proof.
  apply (@usbg_rm_binding_unlinks linux64 8%nat sample_binding sample_config
           [] [9%nat] sample).
  - vm_compute. reflexivity.
  - vm_compute. reflexivity.
  - decided.
Defined.

(** ** Ordered insertion, case by case *)

(** An object whose name is below the name of the first one, or that comes
    to an empty queue, becomes the first; the others stay as they were. *)
Theorem INSERT_TAILQ_STRING_ORDER_head (name_of : addr -> option string)
    (x : addr) (nx : string) (q : tailq) (l : list addr) :
  name_of x = Some nx -> tq_repr q l -> x ∉ l ->
  (l = [] \/ exists f n, head l = Some f /\ name_of f = Some n
                         /\ strcmp nx n < 0) ->
  exists q', INSERT_TAILQ_STRING_ORDER name_of x q = Some q'
             /\ tq_repr q' (x :: l).
Proof.
  intros Hnx Hrepr Hx Hhead.
  destruct (INSERT_TAILQ_STRING_ORDER_spec name_of x nx Hnx q l Hrepr Hx)
    as (Hspec & _).
  by apply Hspec.
Qed.

Lemma INSERT_TAILQ_STRING_ORDER_head_witness :
  exists q', INSERT_TAILQ_STRING_ORDER sample_names 4%nat sample_queue
             = Some q'
             /\ tq_repr q' [4; 0; 1; 2; 3]%nat.
Proof.
  apply (INSERT_TAILQ_STRING_ORDER_head sample_names 4%nat "a" sample_queue
           [0; 1; 2; 3]%nat).
  - reflexivity.
  - decided.
  - decided.
  - right. exists 0%nat, "b"%string. repeat split; vm_compute; reflexivity.
Defined.

(** An object whose name is above the name of the last one, and not below
    the name of the first, becomes the last. *)
Theorem INSERT_TAILQ_STRING_ORDER_tail (name_of : addr -> option string)
    (x : addr) (nx : string) (q : tailq) (l : list addr) (f z : addr)
    (n m : string) :
  name_of x = Some nx -> tq_repr q l -> x ∉ l ->
  head l = Some f -> name_of f = Some n -> 0 <= strcmp nx n ->
  last l = Some z -> name_of z = Some m -> 0 < strcmp nx m ->
  exists q', INSERT_TAILQ_STRING_ORDER name_of x q = Some q'
             /\ tq_repr q' (l ++ [x]).
Proof.
  intros Hnx Hrepr Hx Hf Hn Hle Hz Hm Hlt.
  destruct (INSERT_TAILQ_STRING_ORDER_spec name_of x nx Hnx q l Hrepr Hx)
    as (_ & Hspec & _).
  by apply (Hspec f n z m).
Qed.

Lemma INSERT_TAILQ_STRING_ORDER_tail_witness :
  exists q', INSERT_TAILQ_STRING_ORDER sample_names 5%nat sample_queue
             = Some q'
             /\ tq_repr q' ([0; 1; 2; 3] ++ [5])%nat.
Proof.
  apply (INSERT_TAILQ_STRING_ORDER_tail sample_names 5%nat "z" sample_queue
           [0; 1; 2; 3]%nat 0%nat 3%nat "b" "h").
  - reflexivity.
  - decided.
  - decided.
  - reflexivity.
  - reflexivity.
  - vm_compute. discriminate.
  - reflexivity.
  - reflexivity.
  - vm_compute. reflexivity.
Defined.

(** An object whose name lies between those of the last two objects, or is
    the name of the last one, is linked in before the last. *)
Theorem INSERT_TAILQ_STRING_ORDER_before_last
    (name_of : addr -> option string) (x : addr) (nx : string) (q : tailq)
    (pre : list addr) (c f : addr) (n : string) :
  name_of x = Some nx -> tq_repr q (pre ++ [c]) -> x ∉ pre ++ [c] ->
  head (pre ++ [c]) = Some f -> name_of f = Some n -> 0 <= strcmp nx n ->
  Forall (passed name_of nx) pre -> hit name_of nx c ->
  exists q', INSERT_TAILQ_STRING_ORDER name_of x q = Some q'
             /\ tq_repr q' (pre ++ [x; c]).
Proof.
  intros Hnx Hrepr Hx Hf Hn Hle Hpre Hc.
  destruct (INSERT_TAILQ_STRING_ORDER_spec name_of x nx Hnx q _ Hrepr Hx)
    as (_ & _ & Hspec).
  destruct (Hspec f n pre c []) as (q' & Hq' & _ & Hr); try done.
  - by apply Forall_singleton.
  - exists q'. split; [done|]. by apply Hr.
Qed.

Lemma INSERT_TAILQ_STRING_ORDER_before_last_witness :
  exists q', INSERT_TAILQ_STRING_ORDER sample_names 6%nat sample_queue
             = Some q'
             /\ tq_repr q' ([0; 1; 2] ++ [6; 3])%nat.
Proof.
  apply (INSERT_TAILQ_STRING_ORDER_before_last sample_names 6%nat "g"
           sample_queue [0; 1; 2]%nat 3%nat 0%nat "b").
  - reflexivity.
  - decided.
  - decided.
  - reflexivity.
  - reflexivity.
  - vm_compute. discriminate.
  - decided.
  - decided.
Defined.

(** An object that belongs before the last but one, or further up, takes
    the place of the object it should precede and of all that follow it
    but the last: a forward walk of the queue no longer meets them. *)
Theorem INSERT_TAILQ_STRING_ORDER_unlinks (name_of : addr -> option string)
    (x : addr) (nx : string) (q : tailq) (p : addr) (pre : list addr)
    (c d : addr) (post : list addr) :
  name_of x = Some nx ->
  tq_repr q (p :: pre ++ c :: d :: post) ->
  x ∉ p :: pre ++ c :: d :: post ->
  Forall (passed name_of nx) (p :: pre) ->
  Forall (hit name_of nx) (c :: d :: post) ->
  exists q',
    INSERT_TAILQ_STRING_ORDER name_of x q = Some q'
    /\ tq_list q'
       = Some (p :: pre ++ [x; default d (last post)])
    /\ c ∉ p :: pre ++ [x; default d (last post)].
Proof.
  intros Hnx Hrepr Hx Hpass Hhit.
  pose proof Hpass as Hpass0.
  apply Forall_cons in Hpass0 as [(n & Hn & Hlt) _].
  destruct (INSERT_TAILQ_STRING_ORDER_spec name_of x nx Hnx q _ Hrepr Hx)
    as (_ & _ & Hmid).
  destruct (Hmid p n (p :: pre) c (d :: post)) as (q' & Hq' & Hl & _);
    [done | done | lia | done | done | done |].
  exists q'. split; [done|].
  assert (Hlast : default c (last (d :: post)) = default d (last post)).
  { destruct post as [|e post]; [done|]. rewrite !last_cons.
    by destruct (last post). }
  rewrite Hlast in Hl. split; [done|].
  destruct Hrepr as (_ & _ & _ & Hnd).
  change (p :: pre ++ c :: d :: post) with ((p :: pre) ++ c :: d :: post)
    in Hnd, Hx.
  apply NoDup_app in Hnd as (_ & Hdis & Hnd2).
  apply NoDup_cons in Hnd2 as [Hc Hnd2].
  change (p :: pre ++ [x; default d (last post)])
    with ((p :: pre) ++ [x; default d (last post)]).
  intros Hin. apply elem_of_app in Hin as [Hin|Hin];
    [|apply elem_of_cons in Hin as [->|Hin];
      [|apply list_elem_of_singleton in Hin as Heq]].
  - apply (Hdis c Hin). by left.
  - apply Hx. apply elem_of_app. right. by left.
  - apply Hc. rewrite Heq. destruct post as [|e post]; [by left|].
    right. rewrite last_cons.
    destruct (last post) as [z|] eqn:Hz; simpl.
    + right. by apply last_Some_elem_of.
    + by left.
Qed.

Lemma INSERT_TAILQ_STRING_ORDER_unlinks_witness :
  exists q',
    INSERT_TAILQ_STRING_ORDER sample_names 7%nat sample_queue = Some q'
    /\ tq_list q' = Some [0; 7; 3]%nat
    /\ 1%nat ∉ [0; 7; 3]%nat.
Proof.
  apply (INSERT_TAILQ_STRING_ORDER_unlinks sample_names 7%nat "c"
           sample_queue 0%nat [] 1%nat 2%nat [3%nat]).
  - reflexivity.
  - decided.
  - decided.
  - decided.
  - decided.
Defined.

(** ** What discovery and teardown leave alone *)

Lemma silent_ret {A} (a : A) : silent (mret a).
Proof. by intros w b w' [= <- <-]. Qed.

Lemma silent_bind {A B} (m : M A) (k : A -> M B) :
  silent m -> (forall a, silent (k a)) -> silent (m ≫= k).
Proof.
  intros Hm Hk w b w' E. apply bind_Some in E as (a & w1 & E1 & E).
  destruct (Hm _ _ _ E1) as [Hfs1 Htr1].
  destruct (Hk _ _ _ _ E) as [Hfs2 Htr2]. split; congruence.
Qed.

Lemma silent_fmap {A B} (f : A -> B) (m : M A) : silent m -> silent (f <$> m).
Proof.
  intros Hm w b w' E. unfold fmap, M_fmap in E.
  destruct (m w) as [[a w1]|] eqn:E1; [|done]. injection E as <- <-.
  by eapply Hm.
Qed.

Lemma silent_undefined {A} : silent (@undefined A).
Proof. by intros w a w' E. Qed.

Lemma silent_defined {A} (o : option A) : silent (defined o).
Proof.
  intros w a w' E. unfold defined in E. destruct o; [|done].
  by injection E as <- <-.
Qed.

Lemma silent_get_heap : silent get_heap.
Proof. by intros w a w' [= <- <-]. Qed.

Lemma silent_put_heap h : silent (put_heap h).
Proof. by intros w a w' [= <- <-]. Qed.

Lemma silent_malloc : silent malloc.
Proof. by intros w a w' [= <- <-]. Qed.

Create HintDb silent discriminated.
#[local] Hint Resolve silent_ret silent_undefined silent_defined
  silent_get_heap silent_put_heap silent_malloc : silent.

Ltac silent_step :=
  match goal with
  | |- silent (mret _) => apply silent_ret
  | |- silent (_ ≫= _) => apply silent_bind; [|intros ?]
  | |- silent (_ <$> _) => apply silent_fmap
  | |- silent (match ?x with _ => _ end) => destruct x
  | |- silent (let '(_, _) := ?x in _) => destruct x
  | |- silent _ => solve [eauto with silent]
  end.

Ltac silent_go := repeat silent_step.

Lemma silent_upd_states f : silent (upd_states f).
Proof. unfold upd_states. silent_go. Qed.
Lemma silent_upd_gadgets f : silent (upd_gadgets f).
Proof. unfold upd_gadgets. silent_go. Qed.
Lemma silent_upd_configs f : silent (upd_configs f).
Proof. unfold upd_configs. silent_go. Qed.
Lemma silent_upd_functions f : silent (upd_functions f).
Proof. unfold upd_functions. silent_go. Qed.
Lemma silent_upd_bindings f : silent (upd_bindings f).
Proof. unfold upd_bindings. silent_go. Qed.
#[local] Hint Resolve silent_upd_states silent_upd_gadgets
  silent_upd_configs silent_upd_functions silent_upd_bindings : silent.

Lemma silent_get_state a : silent (get_state a).
Proof. unfold get_state. silent_go. Qed.
Lemma silent_get_gadget a : silent (get_gadget a).
Proof. unfold get_gadget. silent_go. Qed.
Lemma silent_get_config a : silent (get_config a).
Proof. unfold get_config. silent_go. Qed.
Lemma silent_get_function a : silent (get_function a).
Proof. unfold get_function. silent_go. Qed.
Lemma silent_get_binding a : silent (get_binding a).
Proof. unfold get_binding. silent_go. Qed.
#[local] Hint Resolve silent_get_state silent_get_gadget silent_get_config
  silent_get_function silent_get_binding : silent.

Lemma silent_set_s_gadgets a q : silent (set_s_gadgets a q).
Proof. unfold set_s_gadgets. silent_go. Qed.
Lemma silent_set_g_udc a u : silent (set_g_udc a u).
Proof. unfold set_g_udc. silent_go. Qed.
Lemma silent_set_g_configs a q : silent (set_g_configs a q).
Proof. unfold set_g_configs. silent_go. Qed.
Lemma silent_set_g_functions a q : silent (set_g_functions a q).
Proof. unfold set_g_functions. silent_go. Qed.
Lemma silent_set_c_bindings a q : silent (set_c_bindings a q).
Proof. unfold set_c_bindings. silent_go. Qed.
Lemma silent_set_b_target a f : silent (set_b_target a f).
Proof. unfold set_b_target. silent_go. Qed.
#[local] Hint Resolve silent_set_s_gadgets silent_set_g_udc
  silent_set_g_configs silent_set_g_functions silent_set_c_bindings
  silent_set_b_target : silent.

Lemma silent_drain fuel getq putq free1 :
  silent getq -> (forall q, silent (putq q)) ->
  (forall a, silent (free1 a)) -> silent (drain fuel getq putq free1).
Proof.
  intros Hg Hp Hf. induction fuel as [|fuel IH]; simpl; silent_go.
Qed.

Lemma silent_usbg_free_binding b : silent (usbg_free_binding b).
Proof. unfold usbg_free_binding, drop_binding_links. silent_go. Qed.
Lemma silent_usbg_free_function f : silent (usbg_free_function f).
Proof. unfold usbg_free_function, drop_function_links. silent_go. Qed.
#[local] Hint Resolve silent_usbg_free_binding silent_usbg_free_function
  : silent.

Lemma silent_usbg_free_config c : silent (usbg_free_config c).
Proof.
  unfold usbg_free_config, drop_config_links. silent_go.
  apply silent_drain; intros; silent_go.
Qed.
#[local] Hint Resolve silent_usbg_free_config : silent.

Lemma silent_usbg_free_gadget g : silent (usbg_free_gadget g).
Proof.
  unfold usbg_free_gadget, drop_gadget_links. silent_go;
    apply silent_drain; intros; silent_go.
Qed.
#[local] Hint Resolve silent_usbg_free_gadget : silent.

Lemma silent_usbg_free_state s : silent (usbg_free_state s).
Proof.
  unfold usbg_free_state. silent_go. apply silent_drain; intros; silent_go.
Qed.

Lemma silent_find_in q test : silent (find_in q test).
Proof. unfold find_in. silent_go. Qed.
#[local] Hint Resolve silent_usbg_free_state silent_find_in : silent.

Lemma silent_insert_tail getq putq elm :
  silent getq -> (forall q, silent (putq q)) ->
  silent (insert_tail getq putq elm).
Proof. intros. unfold insert_tail. silent_go. Qed.

Lemma silent_usbg_get_function g t i : silent (usbg_get_function g t i).
Proof. unfold usbg_get_function. silent_go. Qed.
#[local] Hint Resolve silent_usbg_get_function : silent.

(** Teardown is a matter of memory alone: [usbg_cleanup] makes no system
    call and leaves the tree as it is, whatever the graph. *)
Theorem usbg_cleanup_silent (s : addr) : silent (usbg_cleanup s).
Proof. apply silent_usbg_free_state. Qed.

(** *** Discovery *)

Lemma reads_only_silent {A} (m : M A) : silent m -> reads_only m.
Proof.
  intros Hm w a w' E. destruct (Hm _ _ _ E) as [Hfs Htr].
  split; [done|]. exists []. by rewrite app_nil_r.
Qed.

Lemma reads_only_ret {A} (a : A) : reads_only (mret a).
Proof. apply reads_only_silent, silent_ret. Qed.

Lemma reads_only_bind {A B} (m : M A) (k : A -> M B) :
  reads_only m -> (forall a, reads_only (k a)) -> reads_only (m ≫= k).
Proof.
  intros Hm Hk w b w' E. apply bind_Some in E as (a & w1 & E1 & E).
  destruct (Hm _ _ _ E1) as (Hfs1 & evs1 & Ht1 & Hf1).
  destruct (Hk _ _ _ _ E) as (Hfs2 & evs2 & Ht2 & Hf2).
  split; [congruence|]. exists (evs1 ++ evs2).
  split; [by rewrite Ht2, Ht1, app_assoc | by apply Forall_app].
Qed.

Lemma reads_only_syscall {A} ev (r : filesys -> A) :
  is_read ev -> reads_only (syscall_fs ev (fun fs => (fs, r fs))).
Proof.
  intros Hev w a w' E. unfold syscall_fs in E. injection E as <- <-.
  split; [done|]. exists [ev]. split; [done | by constructor].
Qed.

Lemma reads_only_foldl {A B} (body : M A -> B -> M A) (l : list B) :
  (forall acc d, reads_only acc -> reads_only (body acc d)) ->
  forall init, reads_only init -> reads_only (foldl body init l).
Proof.
  intros Hbody. induction l as [|d l IH]; intros init Hinit; [done|].
  simpl. apply IH. by apply Hbody.
Qed.

Create HintDb reads discriminated.
#[local] Hint Resolve reads_only_ret : reads.
#[local] Hint Extern 1 (reads_only _) =>
  (apply reads_only_silent; solve [eauto with silent]) : reads.

Ltac reads_step :=
  match goal with
  | |- reads_only (mret _) => apply reads_only_ret
  | |- reads_only (_ ≫= _) => apply reads_only_bind; [|intros ?]
  | |- reads_only (match ?x with _ => _ end) => destruct x
  | |- reads_only (let '(_, _) := ?x in _) => destruct x
  | |- reads_only _ => solve [eauto with reads]
  end.

Ltac reads_go := repeat reads_step.

Section DiscoveryReads.
Context `{Platform}.

Lemma reads_only_scandir p sel : reads_only (scandir p sel).
Proof. by apply reads_only_syscall. Qed.
Lemma reads_only_opendir p : reads_only (opendir p).
Proof. by apply reads_only_syscall. Qed.
Lemma reads_only_readlink p : reads_only (readlink p).
Proof. by apply reads_only_syscall. Qed.
Lemma reads_only_fopen_r p : reads_only (fopen_r p).
Proof. by apply reads_only_syscall. Qed.
#[local] Hint Resolve reads_only_scandir reads_only_opendir
  reads_only_readlink reads_only_fopen_r : reads.

Lemma reads_only_usbg_read_buf path name file buf :
  reads_only (usbg_read_buf path name file buf).
Proof. unfold usbg_read_buf. reads_go. Qed.
#[local] Hint Resolve reads_only_usbg_read_buf : reads.

Lemma reads_only_usbg_read_string path name file buf :
  reads_only (usbg_read_string path name file buf).
Proof. unfold usbg_read_string. reads_go. Qed.
#[local] Hint Resolve reads_only_usbg_read_string : reads.

Lemma reads_only_insert_tail getq putq elm :
  silent getq -> (forall q, silent (putq q)) ->
  reads_only (insert_tail getq putq elm).
Proof. intros. by apply reads_only_silent, silent_insert_tail. Qed.

Lemma reads_only_usbg_parse_functions path g :
  reads_only (usbg_parse_functions path g).
Proof.
  unfold usbg_parse_functions, usbg_allocate_function. reads_go.
  apply reads_only_foldl; [|reads_go]. intros acc d Hacc.
  reads_go; apply reads_only_insert_tail; intros; silent_go.
Qed.

Lemma reads_only_usbg_parse_config_binding c bpath n :
  reads_only (usbg_parse_config_binding c bpath n).
Proof.
  unfold usbg_parse_config_binding, usbg_allocate_binding. reads_go;
    apply reads_only_insert_tail; intros; silent_go.
Qed.

Lemma reads_only_usbg_parse_config_bindings c :
  reads_only (usbg_parse_config_bindings c).
Proof.
  unfold usbg_parse_config_bindings. reads_go.
  apply reads_only_foldl; [|reads_go]. intros acc d Hacc.
  reads_go. apply reads_only_usbg_parse_config_binding.
Qed.

Lemma reads_only_usbg_parse_config path name g :
  reads_only (usbg_parse_config path name g).
Proof.
  unfold usbg_parse_config, usbg_allocate_config. reads_go;
    try apply reads_only_usbg_parse_config_bindings;
    apply reads_only_insert_tail; intros; silent_go.
Qed.

Lemma reads_only_usbg_parse_configs path g :
  reads_only (usbg_parse_configs path g).
Proof.
  unfold usbg_parse_configs. reads_go.
  apply reads_only_foldl; [|reads_go]. intros acc d Hacc.
  reads_go. apply reads_only_usbg_parse_config.
Qed.

Lemma reads_only_usbg_parse_gadget g : reads_only (usbg_parse_gadget g).
Proof.
  unfold usbg_parse_gadget. reads_go;
    first [ apply reads_only_usbg_parse_functions
          | apply reads_only_usbg_parse_configs ].
Qed.

Lemma reads_only_usbg_parse_gadgets path s :
  reads_only (usbg_parse_gadgets path s).
Proof.
  unfold usbg_parse_gadgets, usbg_allocate_gadget. reads_go.
  apply reads_only_foldl; [|reads_go]. intros acc d Hacc.
  reads_go; try apply reads_only_usbg_parse_gadget;
    apply reads_only_insert_tail; intros; silent_go.
Qed.

(** Discovery only reads the tree: whatever the tree holds and whatever
    the outcome, [usbg_init] leaves the tree as it found it, and the calls
    it makes on the tree are [opendir], [scandir], [readlink] and [fopen]
    for reading, nothing else. What it prints on [stderr] when it fails is
    not a call on the tree and is not counted. *)
Theorem usbg_init_reads_only (configfs_path : string) :
  reads_only (usbg_init configfs_path).
Proof.
  unfold usbg_init, usbg_init_state. reads_go.
  apply reads_only_usbg_parse_gadgets.
Qed.

End DiscoveryReads.

(** ** Duplicates *)


Section Duplicates.
Context `{Platform}.




End Duplicates.




(** ** Ordered insertion on any queue *)

(** A [TAILQ_INSERT_BEFORE] of the scan after the first: [x] goes from
    before [c] to before [d], and nothing leads to [c] and to the elements
    between [c] and [d] any more. *)
Lemma TAILQ_INSERT_BEFORE_over q pre x px c mid d post :
  scan_inv q pre x px c (mid ++ d :: post) ->
  exists q', TAILQ_INSERT_BEFORE d x q = Some q'
    /\ scan_inv q' pre x (tq_end (ElmNext c) mid) d post
    /\ TAILQ_NEXT d q' = Some (head post).
Proof.
  intros (Hfirst & Hpre & Hx & Hseg & Hlast & Hnd).
  change (c :: mid ++ d :: post) with ((c :: mid) ++ d :: post) in Hseg, Hlast.
  apply tq_seg_app in Hseg as [Hcm [Hd Hpost]].
  rewrite tq_end_cons in Hd. simpl in Hd.
  assert (Hm : exists m, tq_end (ElmNext c) mid = ElmNext m /\ m ∈ c :: mid).
  { unfold tq_end. destruct (last mid) as [m|] eqn:Hl; simpl.
    - exists m. split; [done|]. right. by apply last_Some_elem_of.
    - exists c. split; [done | left]. }
  destruct Hm as (m & Hend & Hmin). rewrite Hend in Hd |- *.
  destruct (tq_seg_dom _ _ _ _ m Hcm Hmin) as [em Hem].
  assert (Hsub : NoDup (x :: (c :: mid) ++ d :: post)
                 /\ forall b, b ∈ pre ->
                      b ≠ x /\ b ∉ (c :: mid) ++ d :: post).
  { apply NoDup_app in Hnd as (_ & Hdis & Hnd). split; [done|].
    intros b Hb. specialize (Hdis b Hb).
    apply not_elem_of_cons in Hdis. done. }
  destruct Hsub as [Hnd' Hdis].
  apply NoDup_cons in Hnd' as [Hx' Hnd'].
  apply NoDup_app in Hnd' as (Hndcm & Hcmd & Hnddp).
  apply NoDup_cons in Hnddp as [Hdpost Hndpost].
  assert (Hxm : x ≠ m).
  { intros ->. apply Hx'. apply elem_of_app. by left. }
  assert (Hxd : x ≠ d).
  { intros ->. apply Hx'. apply elem_of_app. right. left. }
  assert (Hmd : m ≠ d).
  { intros ->. apply (Hcmd d Hmin). left. }
  rewrite (TAILQ_INSERT_BEFORE_unfold d x q _ Hd) by done. simpl tqe_prev.
  erewrite tq_store_elm
    by (simpl; rewrite lookup_insert_ne by done; exact Hem).
  simpl.
  erewrite tq_set_prev_Some
    by (simpl; rewrite !lookup_insert_ne by done; exact Hd).
  eexists. split; [reflexivity|]. split.
  - split; [done|]. split.
    { eapply tq_seg_frame; [|exact Hpre]. intros b Hb. simpl.
      destruct (Hdis b Hb) as [Hbx Hbn].
      rewrite !lookup_insert_ne; [done|..]; intros Heq; subst b;
        first [ done
              | by apply Hbn, elem_of_app; right; left
              | by apply Hbn, elem_of_app; left ]. }
    split.
    { simpl. rewrite !lookup_insert_ne by done. apply lookup_insert_eq. }
    split.
    { simpl. rewrite lookup_insert_eq. split; [done|].
      eapply tq_seg_frame; [|exact Hpost]. intros b Hb. simpl.
      rewrite !lookup_insert_ne; [done|..]; intros Heq; subst b;
        first [ done
              | by apply (Hcmd m Hmin); right
              | by apply Hx', elem_of_app; right; right ]. }
    split.
    { tq_proj. rewrite Hlast. by rewrite tq_end_app, !tq_end_cons. }
    eapply sublist_NoDup; [exact Hnd|].
    apply sublist_app; [done|]. apply sublist_skip.
    change (c :: mid ++ d :: post) with ((c :: mid) ++ d :: post).
    by apply sublist_inserts_l.
  - unfold TAILQ_NEXT. simpl. rewrite lookup_insert_eq. simpl.
    by destruct post.
Qed.

Section ScanAny.
Variable name_of : addr -> option string.
Variable x : addr.
Variable nx : string.
Hypothesis Hnx : name_of x = Some nx.

(** The scan after its first insertion, whatever the names to come. *)
Lemma insert_scan_rest rest : forall q pre px c mid fuel,
  scan_inv q pre x px c (mid ++ rest) ->
  Forall (fun a => is_Some (name_of a)) rest ->
  (length rest < fuel)%nat ->
  exists q' px' c' post',
    insert_scan fuel name_of x (head rest) q = Some q'
    /\ scan_inv q' pre x px' c' post'
    /\ c' :: post' `suffix_of` c :: mid ++ rest.
Proof.
  induction rest as [|d rest IH]; intros q pre px c mid fuel Hinv Hnames Hfuel.
  - exists q, px, c, mid. rewrite app_nil_r in Hinv |- *.
    split; [by destruct fuel | done].
  - apply Forall_cons in Hnames as [[n Hn] Hnames].
    destruct fuel as [|fuel]; [simpl in Hfuel; lia|].
    simpl. rewrite Hnx, Hn. simpl.
    destruct (Z.ltb_spec 0 (strcmp nx n)) as [Hlt|Hle]; simpl.
    + assert (Hnext : TAILQ_NEXT d q = Some (head rest)).
      { destruct Hinv as (_ & _ & _ & Hseg & _).
        change (c :: mid ++ d :: rest) with ((c :: mid) ++ d :: rest) in Hseg.
        apply tq_seg_app in Hseg as [_ [Hd _]].
        unfold TAILQ_NEXT. rewrite Hd. simpl. by destruct rest. }
      rewrite Hnext. simpl.
      destruct (IH q pre px c (mid ++ [d]) fuel)
        as (q' & px' & c' & post' & Hq' & Hinv' & Hsuf);
        [by rewrite <- app_assoc | done | simpl in Hfuel; lia |].
      exists q', px', c', post'. split; [done|]. split; [done|].
      by rewrite <- app_assoc in Hsuf.
    + destruct (TAILQ_INSERT_BEFORE_over _ _ _ _ _ _ _ _ Hinv)
        as (q1 & Hq1 & Hinv1 & Hnext).
      rewrite Hq1. simpl. rewrite Hnext. simpl.
      destruct (IH q1 pre (tq_end (ElmNext c) mid) d [] fuel)
        as (q' & px' & c' & post' & Hq' & Hinv' & Hsuf);
        [done | done | simpl in Hfuel; lia |].
      exists q', px', c', post'. split; [done|]. split; [done|].
      etrans; [exact Hsuf|]. simpl.
      change (c :: mid ++ d :: rest) with ((c :: mid) ++ d :: rest).
      by apply suffix_app_r.
Qed.

(** The first element that a scan does not pass by. *)
Lemma first_hit l :
  Forall (fun a => is_Some (name_of a)) l ->
  Exists (hit name_of nx) l ->
  exists pre c post,
    l = pre ++ c :: post /\ Forall (passed name_of nx) pre
    /\ hit name_of nx c.
Proof.
  induction l as [|a l IH]; intros Hnames Hex; [by apply Exists_nil in Hex|].
  apply Forall_cons in Hnames as [[n Hn] Hnames].
  destruct (Z.ltb_spec 0 (strcmp nx n)) as [Hlt|Hle].
  - apply Exists_cons in Hex as [(n' & Hn' & Hle)|Hex].
    { rewrite Hn in Hn'. injection Hn' as <-. lia. }
    destruct (IH Hnames Hex) as (pre & c & post & -> & Hpass & Hhit).
    exists (a :: pre), c, post. split; [done|]. split; [|done].
    apply Forall_cons. split; [by exists n | done].
  - exists [], a, l. split; [done|]. split; [done | by exists n].
Qed.

(** The whole scan on a queue that holds [pre ++ c :: post], where the
    names of [pre] are below that of [x] and the name of [c] is not. *)
Lemma insert_scan_any q pre c post :
  tq_repr q (pre ++ c :: post) -> x ∉ pre ++ c :: post ->
  Forall (passed name_of nx) pre -> hit name_of nx c ->
  Forall (fun a => is_Some (name_of a)) post ->
  exists q' c' post',
    insert_scan (tq_fuel q) name_of x (TAILQ_FIRST q) q = Some q'
    /\ tq_list q' = Some (pre ++ x :: c' :: post')
    /\ c' :: post' `suffix_of` c :: post.
Proof.
  intros Hrepr Hx Hpass (n & Hn & Hle) Hnames.
  pose proof Hrepr as (Hfirst & Hseg & Hlast & Hnd).
  assert (Hfuel : exists fuel,
            tq_fuel q = (length pre + S fuel)%nat /\ (length post < fuel)%nat).
  { pose proof (length_le_links q _ Hnd
                  (fun a => tq_seg_dom q HeadFirst _ None a Hseg)) as Hlen.
    rewrite length_app in Hlen. simpl in Hlen. unfold tq_fuel.
    exists (size (tq_links q) - length pre)%nat. lia. }
  destruct Hfuel as (fuel & -> & Hfuel).
  unfold TAILQ_FIRST. rewrite Hfirst.
  rewrite (insert_scan_pre name_of x nx Hnx pre q [] (c :: post) (S fuel));
    [|done|done].
  destruct (TAILQ_INSERT_BEFORE_repr q pre c post x Hrepr Hx)
    as (q1 & Hq1 & Hinv1 & Hnext).
  destruct (insert_scan_rest post q1 pre _ c [] fuel Hinv1 Hnames Hfuel)
    as (q' & px' & c' & post' & Hq' & Hinv' & Hsuf).
  exists q', c', post'. split.
  - simpl. rewrite Hnx, Hn. simpl.
    destruct (Z.ltb_spec 0 (strcmp nx n)) as [?|_]; [lia|].
    rewrite Hq1. simpl. rewrite Hnext. simpl. exact Hq'.
  - split; [by eapply scan_inv_list | done].
Qed.

(** [INSERT_TAILQ_STRING_ORDER] on a queue that holds [l], whatever the
    order of the names. *)
Lemma INSERT_TAILQ_STRING_ORDER_any q l :
  tq_repr q l -> x ∉ l ->
  Forall (fun a => is_Some (name_of a)) l ->
  exists q' pre mid suf,
    INSERT_TAILQ_STRING_ORDER name_of x q = Some q'
    /\ l = pre ++ mid ++ suf
    /\ tq_list q' = Some (pre ++ x :: suf).
Proof.
  intros Hrepr Hx Hnames.
  pose proof Hrepr as (Hfirst & Hseg & Hlast & Hnd).
  unfold INSERT_TAILQ_STRING_ORDER.
  remember (insert_scan (tq_fuel q) name_of x (TAILQ_FIRST q) q) as scan
    eqn:Hscan.
  rewrite Hnx. simpl.
  unfold TAILQ_EMPTY, TAILQ_FIRST. rewrite Hfirst.
  destruct l as [|f r] eqn:El.
  { simpl. destruct (TAILQ_INSERT_HEAD_repr q [] x Hrepr Hx) as (q' & Hq' & Hr).
    exists q', [], [], []. split; [done|]. split; [done|].
    by apply tq_list_repr. }
  rewrite <- El in *. assert (Hf : head l = Some f) by (by rewrite El).
  rewrite Hf. rewrite bool_decide_eq_false_2 by done. simpl.
  assert (Hnf : is_Some (name_of f)).
  { rewrite Forall_forall in Hnames. apply Hnames. rewrite El. left. }
  destruct Hnf as [n Hn]. rewrite Hn. simpl.
  destruct (Z.ltb_spec (strcmp nx n) 0) as [Hlt|Hge].
  { destruct (TAILQ_INSERT_HEAD_repr q l x Hrepr Hx) as (q' & Hq' & Hr).
    exists q', [], [], l. split; [done|]. split; [done|].
    by apply tq_list_repr. }
  rewrite (TAILQ_LAST_repr q l Hrepr).
  assert (Hz : exists z, last l = Some z /\ z ∈ l).
  { destruct (last l) as [z|] eqn:Hz.
    - exists z. split; [done|]. by apply last_Some_elem_of.
    - apply last_None in Hz. by rewrite El in Hz. }
  destruct Hz as (z & Hz & Hzin). rewrite Hz. simpl.
  assert (Hnz : is_Some (name_of z)).
  { rewrite Forall_forall in Hnames. by apply Hnames. }
  destruct Hnz as [m Hm]. rewrite Hm. simpl.
  destruct (Z.ltb_spec 0 (strcmp nx m)) as [Hgt|Hle].
  { destruct (TAILQ_INSERT_TAIL_repr q l x Hrepr Hx) as (q' & Hq' & Hr).
    exists q', l, [], []. split; [done|]. split; [by rewrite !app_nil_r|].
    by apply tq_list_repr. }
  assert (Hex : Exists (hit name_of nx) l).
  { apply Exists_exists. exists z. split; [done|]. by exists m. }
  destruct (first_hit l Hnames Hex) as (pre & c & post & Hl & Hpass & Hhit).
  assert (Hpost : Forall (fun a => is_Some (name_of a)) post).
  { rewrite Hl in Hnames. apply Forall_app in Hnames as [_ Hn'].
    by apply Forall_cons in Hn' as [_ ?]. }
  rewrite Hl in Hrepr, Hx.
  destruct (insert_scan_any q pre c post Hrepr Hx Hpass Hhit Hpost)
    as (q' & c' & post' & Hq' & Hlist & [mid Hsuf]).
  exists q', pre, mid, (c' :: post'). subst scan.
  split; [done|]. split; [|done]. by rewrite Hl, Hsuf.
Qed.

End ScanAny.

(** Once linked in, the new element is always met by a walk of the queue,
    which returns on every queue that holds named elements; the elements
    of the queue that the walk still meets are in their old order, and
    those it no longer meets were next to each other. *)
Theorem INSERT_TAILQ_STRING_ORDER_reaches (name_of : addr -> option string)
    (x : addr) (q : tailq) (l : list addr) :
  tq_repr q l -> x ∉ l ->
  Forall (fun a => is_Some (name_of a)) (x :: l) ->
  exists q' pre mid suf,
    INSERT_TAILQ_STRING_ORDER name_of x q = Some q'
    /\ l = pre ++ mid ++ suf
    /\ tq_list q' = Some (pre ++ x :: suf).
Proof.
  intros Hrepr Hx Hnames.
  apply Forall_cons in Hnames as [[nx Hnx] Hnames].
  by apply (INSERT_TAILQ_STRING_ORDER_any name_of x nx).
Qed.

Lemma INSERT_TAILQ_STRING_ORDER_reaches_witness :
  exists q' pre mid suf,
    INSERT_TAILQ_STRING_ORDER sample_names 7%nat sample_queue = Some q'
    /\ [0; 1; 2; 3]%nat = pre ++ mid ++ suf
    /\ tq_list q' = Some (pre ++ 7%nat :: suf).
Proof.
  apply (INSERT_TAILQ_STRING_ORDER_reaches sample_names 7%nat sample_queue
           [0; 1; 2; 3]%nat).
  - decided.
  - decided.
  - repeat constructor; by eexists.
Defined.

(** ** Creation and lookup *)

Lemma tq_find_walk q test : forall fuel cur l,
  tq_walk fuel cur q = Some l ->
  (forall a, a ∈ l -> is_Some (test a)) ->
  tq_find fuel test cur q = Some (first_match test l).
Proof.
  induction fuel as [|fuel IH]; intros [c|] l Hwalk Htest; simpl in *;
    try done.
  - by injection Hwalk as <-.
  - destruct (TAILQ_NEXT c q) as [next|]; [|done]. simpl in *.
    destruct (tq_walk fuel next q) as [r|] eqn:Hr; [|done]. simpl in Hwalk.
    injection Hwalk as <-.
    destruct (Htest c) as [t Ht]; [left|]. rewrite Ht. simpl.
    unfold first_match. rewrite filter_cons. destruct t.
    + by rewrite decide_True.
    + rewrite decide_False by (by rewrite Ht).
      apply IH; [done|]. intros b Hb. apply Htest. by right.
  - by injection Hwalk as <-.
Qed.

(** A lookup meets what a walk of the queue meets. *)
Lemma find_in_list q test l w :
  tq_list q = Some l -> (forall a, a ∈ l -> is_Some (test a)) ->
  find_in q test w = Some (first_match test l, w).
Proof.
  intros Hl Htest. unfold find_in.
  by rewrite (tq_find_walk q test _ _ l Hl Htest).
Qed.

Lemma first_match_app test pre a suf :
  (forall b, b ∈ pre -> test b ≠ Some true) -> test a = Some true ->
  first_match test (pre ++ a :: suf) = Some a.
Proof.
  intros Hpre Ha. unfold first_match. rewrite filter_app, filter_cons.
  rewrite decide_True by done.
  assert (filter (fun a0 => test a0 = Some true) pre = []) as ->; [|done].
  induction pre as [|b pre IH]; [done|].
  rewrite filter_cons, decide_False by (apply Hpre; left).
  apply IH. intros b' Hb'. apply Hpre. by right.
Qed.

Lemma head_filter_None {A} (P : A -> Prop) `{!forall a, Decision (P a)}
    (l : list A) :
  head (filter P l) = None -> Forall (fun a => ~ P a) l.
Proof.
  induction l as [|a l IH]; [done|].
  rewrite filter_cons. destruct (decide (P a)); [done|].
  intros Hh. apply Forall_cons. split; [done | by apply IH].
Qed.

Lemma keeps_heap_ret {A} (a : A) : keeps_heap (mret a).
Proof. intros w b w' E. by apply ret_Some in E as [_ ->]. Qed.

Lemma keeps_heap_bind {A B} (m : M A) (k : A -> M B) :
  keeps_heap m -> (forall a, keeps_heap (k a)) -> keeps_heap (m ≫= k).
Proof.
  intros Hm Hk w b w' E. apply bind_Some in E as (a & w1 & E1 & E2).
  rewrite (Hk a w1 b w' E2). by eapply Hm.
Qed.

Lemma keeps_heap_syscall {A} ev (f : filesys -> filesys * A) :
  keeps_heap (syscall_fs ev f).
Proof.
  intros w a w'. unfold syscall_fs. destruct (f (w_fs w)) as [fs r].
  by intros [= _ <-].
Qed.

Lemma keeps_heap_get_config c : keeps_heap (get_config c).
Proof.
  intros w a w' E. unfold get_config in E.
  apply bind_Some in E as (h & w1 & E1 & E).
  apply get_heap_Some in E1 as [_ ->].
  by apply defined_Some in E as [_ ->].
Qed.

Section Created.
Context `{Platform}.

Lemma keeps_heap_usbg_check_dir path : keeps_heap (usbg_check_dir path).
Proof.
  unfold usbg_check_dir, opendir, mkdir.
  apply keeps_heap_bind; [apply keeps_heap_syscall|]. intros dir.
  destruct (dir =? 0); [apply keeps_heap_ret|].
  destruct (negb _); [apply keeps_heap_ret|].
  apply keeps_heap_bind; [apply keeps_heap_syscall|]. intros r.
  destruct (negb _); apply keeps_heap_ret.
Qed.

Lemma keeps_heap_usbg_write_buf path name file buf :
  keeps_heap (usbg_write_buf path name file buf).
Proof.
  unfold usbg_write_buf, snprintf, fopen_w. cbv beta iota.
  destruct (_ <? _); [|apply keeps_heap_ret].
  apply keeps_heap_bind; [apply keeps_heap_syscall|].
  intros []; apply keeps_heap_ret.
Qed.

Lemma keeps_heap_usbg_set_config_string c lang str :
  keeps_heap (usbg_set_config_string c lang str).
Proof.
  unfold usbg_set_config_string.
  destruct c as [c|], str as [str|]; try apply keeps_heap_ret.
  apply keeps_heap_bind; [apply keeps_heap_get_config|]. intros x.
  unfold snprintf. cbv beta iota.
  destruct (_ <? _); [|apply keeps_heap_ret].
  apply keeps_heap_bind; [apply keeps_heap_usbg_check_dir|]. intros ret.
  destruct (decide _); [|apply keeps_heap_ret].
  apply keeps_heap_usbg_write_buf.
Qed.

Lemma keeps_heap_usbg_set_config_attrs c c_attrs :
  keeps_heap (usbg_set_config_attrs c c_attrs).
Proof.
  unfold usbg_set_config_attrs.
  destruct c as [c|], c_attrs as [a|]; try apply keeps_heap_ret.
  by intros w a w'.
Qed.

End Created.

(** What [usbg_allocate_config] returns and leaves in the graph. *)
Lemma usbg_allocate_config_run path label id parent w :
  exists w1,
    usbg_allocate_config path label id parent w
    = Some (Some (h_next (w_heap w)), w1)
    /\ h_gadgets (w_heap w1) = h_gadgets (w_heap w)
    /\ h_configs (w_heap w1)
       = <[h_next (w_heap w) :=
             {| c_bindings := TAILQ_INIT; c_parent := parent;
                c_name := label +:+ "." +:+ fmt_d id;
                c_path := path; c_label := label; c_id := id |}]>
           (h_configs (w_heap w)).
Proof. eexists. split; [reflexivity|]. split; reflexivity. Qed.

Section Found.
Context `{Platform}.

(** A config that [usbg_create_config] has created with success is the one
    that [usbg_get_config] then finds under its id, wherever the ordered
    insertion has put it: the lookup walks forward, and the new config is
    always on that way. *)
Theorem usbg_create_config_found (g : addr) (id : Z) (label : option string)
    (c_attrs : option usbg_config_attrs) (c_strs : option usbg_config_strs)
    (c0 c : option addr) (w w' : world) (x : usbg_gadget) (l : list addr) :
  h_gadgets (w_heap w) !! g = Some x ->
  tq_repr (g_configs x) l ->
  Forall (fun a => is_Some (h_configs (w_heap w) !! a)) l ->
  h_configs (w_heap w) !! h_next (w_heap w) = None ->
  usbg_create_config (Some g) id label c_attrs c_strs (Some c0) w
  = Some (USBG_SUCCESS, c, w') ->
  exists conf cx,
    c = Some conf /\ h_configs (w_heap w') !! conf = Some cx
    /\ c_id cx = id /\ c_label cx = default DEFAULT_CONFIG_LABEL label
    /\ c_parent cx = g
    /\ usbg_get_config g id None w' = Some (Some conf, w').
Proof.
  intros Hg Hrepr Hlive Hfresh E. unfold usbg_create_config in E.
  destruct ((id <=? 0) || (255 <? id)); [by apply ret_Some in E as [? ?]|].
  rewrite (bind_run _ _ _ _ _
             (usbg_get_config_filter g id None w x l Hg Hrepr Hlive)) in E.
  destruct (head (filter (config_matches (w_heap w) id None) l)) eqn:Hnone;
    [by apply ret_Some in E as [? ?]|].
  apply head_filter_None in Hnone.
  rewrite (bind_run _ _ _ _ _ (run_get_gadget g x w Hg)) in E.
  unfold snprintf in E. cbv beta iota in E.
  destruct (_ <=? _); [by apply ret_Some in E as [? ?]|].
  match type of E with
  | (usbg_allocate_config ?p ?lb _ _ ≫= _) _ = _ =>
      destruct (usbg_allocate_config_run p lb id g w)
        as (w1 & Ea & Hg1 & Hc1)
  end.
  rewrite (bind_run _ _ _ _ _ Ea) in E.
  set (conf := h_next (w_heap w)) in *.
  match type of Hc1 with
  | _ = <[_ := ?r]> _ => set (cx := r) in *
  end.
  assert (Hcx : h_configs (w_heap w1) !! conf = Some cx)
    by (rewrite Hc1; apply lookup_insert_eq).
  rewrite (bind_run _ _ _ _ _ (run_get_config conf cx w1 Hcx)) in E.
  apply bind_Some in E as (r & w2 & Em & E).
  unfold mkdir in Em.
  pose proof (keeps_heap_syscall _ _ _ _ _ Em) as Hh2.
  apply bind_Some in E as (ret & w3 & Er & E).
  apply bind_Some in E as ([] & w4 & Ei & E).
  apply ret_Some in E as [[= <- ->] ->].
  rewrite decide_True in Ei by done.
  assert (Hh3 : w_heap w3 = w_heap w2).
  { revert Er.
    match goal with
    | |- ?m w2 = _ -> _ => assert (keeps_heap m) as Hk; [|apply Hk]
    end.
    destruct (r =? 0); [|apply keeps_heap_ret].
    apply keeps_heap_bind.
    - destruct c_attrs;
        [apply keeps_heap_usbg_set_config_attrs | apply keeps_heap_ret].
    - intros ret0.
      destruct (decide _), c_strs;
        first [ apply keeps_heap_usbg_set_config_string
              | apply keeps_heap_ret ]. }
  assert (Hg3 : h_gadgets (w_heap w3) !! g = Some x)
    by (by rewrite Hh3, Hh2, Hg1).
  assert (Hc3 : h_configs (w_heap w3) = <[conf := cx]> (h_configs (w_heap w)))
    by (by rewrite Hh3, Hh2, Hc1).
  clear Em Er Ea.
  unfold insert_string_order in Ei.
  apply bind_Some in Ei as (q & w5 & Eq & Ei).
  unfold fmap, M_fmap in Eq. rewrite (run_get_gadget g x w3 Hg3) in Eq.
  injection Eq as <- <-.
  apply bind_Some in Ei as (h & w5 & Eh & Ei).
  apply get_heap_Some in Eh as [-> ->].
  apply bind_Some in Ei as (q' & w5 & Eq' & Ei).
  apply defined_Some in Eq' as [Hins ->].
  unfold set_g_configs in Ei.
  rewrite (bind_run _ _ _ _ _ (run_get_gadget g x w3 Hg3)) in Ei.
  unfold upd_gadgets, put_heap, get_heap, mbind, M_bind in Ei.
  injection Ei as <-.
  assert (Hconf : conf ∉ l).
  { intros Hin. rewrite Forall_forall in Hlive.
    destruct (Hlive conf Hin) as [? Hsome]. by rewrite Hfresh in Hsome. }
  assert (Hname : config_name (w_heap w3) conf = Some (c_name cx)).
  { unfold config_name. by rewrite Hc3, lookup_insert_eq. }
  assert (Hold : forall a, a ∈ l ->
            h_configs (w_heap w3) !! a = h_configs (w_heap w) !! a).
  { intros a Ha. rewrite Hc3, lookup_insert_ne; [done|].
    intros <-. done. }
  assert (Hnames : Forall (fun a => is_Some (config_name (w_heap w3) a)) l).
  { rewrite Forall_forall in Hlive |- *. intros a Ha.
    unfold config_name. rewrite (Hold a Ha).
    destruct (Hlive a Ha) as [ca ->]. by eexists. }
  destruct (INSERT_TAILQ_STRING_ORDER_any (config_name (w_heap w3)) conf
              (c_name cx) Hname (g_configs x) l Hrepr Hconf Hnames)
    as (q'' & pre & mid & suf & Hins' & Hl & Hlist).
  rewrite Hins in Hins'. injection Hins' as <-.
  exists conf, cx. split; [done|]. split.
  { cbn [w_heap h_configs]. by rewrite Hc3, lookup_insert_eq. }
  split; [done|]. split; [done|]. split; [done|].
  unfold usbg_get_config.
  match goal with
  | |- _ ?wf = _ => set (wf' := wf)
  end.
  assert (Hgf : h_gadgets (w_heap wf') !! g
                = Some {| g_name := g_name x; g_path := g_path x;
                          g_udc := g_udc x; g_configs := q';
                          g_functions := g_functions x;
                          g_parent := g_parent x |})
    by apply lookup_insert_eq.
  rewrite (bind_run _ _ _ _ _ (run_get_gadget g _ wf' Hgf)).
  rewrite (bind_run _ _ (w_heap wf') wf' wf' eq_refl).
  cbn [g_configs].
  assert (Htest : forall a, a ∈ l ->
            (h_configs (w_heap wf') !! a
             ≫= fun c1 : usbg_config => Some ((c_id c1 =? id) && true))
            = Some false).
  { intros a Ha. change (h_configs (w_heap wf')) with (h_configs (w_heap w3)).
    rewrite (Hold a Ha).
    rewrite Forall_forall in Hlive, Hnone.
    specialize (Hnone a Ha). unfold config_matches in Hnone.
    destruct (Hlive a Ha) as [ca Hca]. rewrite Hca in Hnone |- *. simpl.
    destruct (Z.eqb_spec (c_id ca) id) as [Heq|_]; [|done].
    exfalso. by apply Hnone. }
  assert (Hnew : (h_configs (w_heap wf') !! conf
                  ≫= fun c1 : usbg_config => Some ((c_id c1 =? id) && true))
                 = Some true).
  { change (h_configs (w_heap wf')) with (h_configs (w_heap w3)).
    rewrite Hc3, lookup_insert_eq. simpl. by rewrite Z.eqb_refl. }
  rewrite (find_in_list _ _ _ wf' Hlist).
  - rewrite first_match_app; [done | | done].
    intros b Hb. rewrite Htest; [done|].
    rewrite Hl. apply elem_of_app. by left.
  - intros a [Ha|[->|Ha]%elem_of_cons]%elem_of_app.
    + rewrite Htest; [by eexists|]. rewrite Hl. apply elem_of_app. by left.
    + rewrite Hnew. by eexists.
    + rewrite Htest; [by eexists|]. rewrite Hl.
      apply elem_of_app. right. apply elem_of_app. by right.
Qed.
End Found.

Lemma usbg_create_config_found_witness :
  exists conf cx,
    Some 10%nat = Some conf
    /\ h_configs (w_heap sample_with_config) !! conf = Some cx
    /\ c_id cx = 15 /\ c_label cx = default DEFAULT_CONFIG_LABEL (Some "c")
    /\ c_parent cx = 2%nat
    /\ usbg_get_config 2%nat 15 None sample_with_config
       = Some (Some conf, sample_with_config).
Proof.
  apply (@usbg_create_config_found linux64 2%nat 15 (Some "c"%string) None
           None None (Some 10%nat) sample sample_with_config sample_gadget
           [6; 7]%nat).
  - vm_compute. reflexivity.
  - decided.
  - decided.
  - vm_compute. reflexivity.
  - vm_compute. reflexivity.
Defined.

(** ** Strings written and read back *)

Lemma line_prefix_plain m s :
  "010"%char ∉ chars s -> (String.length s <= m)%nat -> line_prefix m s = s.
Proof.
  revert m. induction s as [|x r IH]; intros m Hnl Hm; [by destruct m|].
  rewrite chars_cons, not_elem_of_cons in Hnl. destruct Hnl as [Hx Hr].
  destruct m; [simpl in Hm; lia|]. simpl.
  destruct (Ascii.eqb_spec x "010") as [->|_]; [done|].
  rewrite IH; [done | done | simpl in Hm; lia].
Qed.

Lemma fgets_plain n s :
  plain s -> s ≠ "" -> (String.length s < n)%nat -> fgets n s = Some s.
Proof.
  intros [Hc Hnl] Hne Hn. unfold fgets.
  destruct n as [|[|m]]; [lia | destruct s; [done | simpl in Hn; lia] |].
  destruct s as [|x r] eqn:E; [done|]. rewrite <- E in *.
  rewrite line_prefix_plain by (done || lia).
  by rewrite cstr_c_string.
Qed.

(** The directory of the files of [path3 p "" file]. *)
Lemma parse_path_in_dir p file :
  file ≠ "" -> "/"%char ∉ chars file ->
  parse_path (path3 p "" file) = parse_path p ++ [file].
Proof.
  intros Hne Hf. rewrite parse_path_file by done. f_equal.
  unfold parse_path, path2. rewrite components_app. simpl.
  by rewrite app_nil_r.
Qed.

Lemma populate_lookup k sk n :
  Forall (fun e => e.1 ≠ []) sk -> populate k sk n !! k = n !! k.
Proof.
  unfold populate. induction sk as [|e sk IH]; intros Hsk; [done|].
  apply Forall_cons in Hsk as [He Hsk]. simpl.
  rewrite lookup_insert_ne; [by apply IH|].
  intros Heq. apply He. apply (app_inv_head k). by rewrite app_nil_r.
Qed.

Lemma skeleton_names fs k : Forall (fun e => e.1 ≠ []) (skeleton fs k).
Proof.
  unfold skeleton.
  destruct (fs_gadget_root fs) as [root|]; [|done].
  destruct (strip root k) as [[|a [|b [|c [|? ?]]]]|]; try done.
  - unfold gadget_skeleton. repeat constructor; done.
  - destruct (String.eqb b CONFIGS_DIR); [|done].
    unfold config_skeleton. repeat constructor; done.
Qed.

Section Strings.
Context `{Platform}.

(** After [usbg_check_dir] has returned success the directory is
    there. *)
Lemma usbg_check_dir_dir path w w' :
  usbg_check_dir path w = Some (USBG_SUCCESS, w') ->
  fs_lookup (w_fs w') (parse_path path) = Some FDir
  /\ w_heap w' = w_heap w.
Proof.
  intros E. pose proof (keeps_heap_usbg_check_dir path w _ w' E) as Hh.
  split; [|done]. unfold usbg_check_dir in E.
  apply bind_Some in E as (dir & w1 & Eo & E).
  unfold opendir, syscall_fs in Eo. injection Eo as <- <-.
  unfold fs_opendir in E. cbn [w_fs] in E.
  destruct (fs_lookup (w_fs w) (parse_path path)) as [[| |]|] eqn:Hl.
  - simpl in E. by apply ret_Some in E as [_ ->].
  - simpl in E. apply ret_Some in E as [Hr _]. symmetry in Hr.
    by apply usbg_translate_error_fails in Hr.
  - simpl in E. apply ret_Some in E as [Hr _]. symmetry in Hr.
    by apply usbg_translate_error_fails in Hr.
  - simpl in E. apply bind_Some in E as (r & w2 & Em & E).
    unfold mkdir, syscall_fs, fs_mkdir in Em. cbn [w_fs] in Em.
    rewrite Hl in Em.
    destruct (fs_lookup (w_fs w) (parent (parse_path path))) as [[| |]|];
      injection Em as <- <-; simpl in E;
      try (apply ret_Some in E as [Hr _]; symmetry in Hr;
           by apply usbg_translate_error_fails in Hr).
    apply ret_Some in E as [_ ->]. cbn [w_fs].
    destruct (parse_path path) as [|a k] eqn:Hk; [done|].
    unfold fs_lookup, fs_with_nodes. cbn [fs_nodes].
    rewrite populate_lookup by apply skeleton_names.
    apply lookup_insert_eq.
Qed.

(** Reading a file that holds one readable line. *)
Lemma usbg_read_string_file path name file text buf w :
  (String.length (path3 path name file) < USBG_MAX_PATH_LENGTH)%nat ->
  fs_lookup (w_fs w) (parse_path (path3 path name file))
  = Some (FFile text) ->
  readable text ->
  exists w', usbg_read_string path name file buf w
             = Some (USBG_SUCCESS, text, w')
    /\ w_fs w' = w_fs w /\ w_heap w' = w_heap w.
Proof.
  intros Hfit Hfile (Hplain & Hne & Hlen).
  destruct (usbg_read_buf_file path name file text buf w Hfit Hfile)
    as (w' & Er & Hfs & Hh).
  rewrite fgets_plain in Er by done.
  exists w'. split; [|done]. unfold usbg_read_string.
  rewrite (bind_run _ _ _ _ _ Er). simpl.
  destruct Hplain as [_ Hnl]. apply strchr_None in Hnl. by rewrite Hnl.
Qed.

(** The strings that [usbg_set_gadget_strs] wrote with success are the
    strings that [usbg_get_gadget_strs] then reads for the same language,
    on a tree that keeps what is written to it, when each of them is one
    line that is not empty and fits the buffer. *)
Theorem usbg_get_gadget_strs_after_set (g : addr) (lang : Z)
    (s s0 : usbg_gadget_strs) (w w' : world) :
  gadget_strs_valid s ->
  usbg_set_gadget_strs (Some g) lang (Some s) w = Some (USBG_SUCCESS, w') ->
  exists w'',
    usbg_get_gadget_strs (Some g) lang (Some s0) w'
    = Some (USBG_SUCCESS, Some s, w'')
    /\ w_fs w'' = w_fs w' /\ w_heap w'' = w_heap w'.
Proof.
  intros (Hser & Hmnf & Hprd) E. unfold usbg_set_gadget_strs in E.
  apply bind_Some in E as (x & w0 & Ex & E).
  apply get_gadget_Some in Ex as [Hg ->].
  unfold snprintf in E. cbv beta iota in E.
  set (sp := strings_path (g_path x) (g_name x) lang) in *.
  destruct (Z.leb_spec (Z.of_nat USBG_MAX_PATH_LENGTH)
              (Z.of_nat (String.length sp))) as [?|Hfit];
    [by apply ret_Some in E as [? ?]|].
  rewrite strndup_all in E by lia.
  apply bind_Some in E as (r & w1 & Ec & E).
  destruct (decide (r = USBG_SUCCESS)) as [->|?];
    [|by apply ret_Some in E as [? ?]].
  apply usbg_check_dir_dir in Ec as [Hdir Hh1].
  unfold usbg_write_string in E.
  apply write_chain_step in E as (w2 & E1 & E).
  apply write_chain_step in E as (w3 & E2 & E3).
  pose proof (usbg_write_buf_frame _ _ _ _ _ _ _ E1) as [Hh2 Hf1].
  pose proof (usbg_write_buf_frame _ _ _ _ _ _ _ E2) as [Hh3 Hf2].
  pose proof (usbg_write_buf_frame _ _ _ _ _ _ _ E3) as [Hh4 Hf3].
  apply usbg_write_buf_stored in E1 as (Hp1 & Hv1 & _).
  apply usbg_write_buf_stored in E2 as (Hp2 & Hv2 & _).
  apply usbg_write_buf_stored in E3 as (Hp3 & Hv3 & _).
  rewrite !parse_path_in_dir in * by (done || by apply (bool_decide_unpack _)).
  assert (Hne : forall f1 f2 : string, f1 ≠ f2 ->
            parse_path sp ++ [f1] ≠ parse_path sp ++ [f2]).
  { intros f1 f2 Hf [_ Heq]%app_inj_tail. done. }
  assert (Hnd : forall f : string, parse_path sp ≠ parse_path sp ++ [f]).
  { intros f Heq. apply (f_equal length) in Heq.
    rewrite length_app in Heq. simpl in Heq. lia. }
  rewrite <- Hf1, <- Hf2, <- Hf3 in Hdir by apply Hnd.
  rewrite <- Hf2, <- Hf3 in Hv1 by (by apply Hne).
  rewrite <- Hf3 in Hv2 by (by apply Hne).
  assert (Hg' : h_gadgets (w_heap w') !! g = Some x) by congruence.
  clear Hf1 Hf2 Hf3 Hh1 Hh2 Hh3 Hh4.
  unfold usbg_get_gadget_strs.
  rewrite (bind_run _ _ _ _ _ (run_get_gadget g x w' Hg')).
  assert (Hparse : exists w'',
            usbg_parse_gadget_strs (g_path x) (g_name x) lang s0 w'
            = Some (USBG_SUCCESS, s, w'')
            /\ w_fs w'' = w_fs w' /\ w_heap w'' = w_heap w');
    [|destruct Hparse as (w'' & Ep & ? & ?); exists w'';
      by rewrite (bind_run _ _ _ _ _ Ep)].
  unfold usbg_parse_gadget_strs, snprintf. cbv beta iota. fold sp.
  destruct (Z.leb_spec (Z.of_nat USBG_MAX_PATH_LENGTH)
              (Z.of_nat (String.length sp))) as [?|_]; [lia|].
  rewrite strndup_all by lia.
  assert (Eo : opendir sp w'
               = Some (0, {| w_fs := w_fs w'; w_heap := w_heap w';
                             w_trace := w_trace w' ++ [SysOpendir sp] |})).
  { unfold opendir, syscall_fs, fs_opendir. by rewrite Hdir. }
  rewrite (bind_run _ _ _ _ _ Eo). change (0 =? 0) with true. cbv iota.
  set (wa := {| w_fs := w_fs w'; w_heap := w_heap w';
                w_trace := w_trace w' ++ [SysOpendir sp] |}).
  assert (Hread : forall file text buf wb,
            w_fs wb = w_fs w' -> file ≠ "" -> "/"%char ∉ chars file ->
            (String.length (path3 sp "" file) < USBG_MAX_PATH_LENGTH)%nat ->
            fs_lookup (w_fs w') (parse_path sp ++ [file])
            = Some (FFile text) ->
            readable text ->
            exists wc, usbg_read_string sp "" file buf wb
                       = Some (USBG_SUCCESS, text, wc)
              /\ w_fs wc = w_fs w' /\ w_heap wc = w_heap wb).
  { intros file text buf wb Hfs Hfne Hfsl Hpath Hfile Htext.
    destruct (usbg_read_string_file sp "" file text buf wb)
      as (wc & Er & ? & ?);
      [done | by rewrite Hfs, parse_path_in_dir | done |].
    exists wc. split; [done|]. split; congruence. }
  destruct (Hread "serialnumber" (str_ser s) (str_ser s0) wa)
    as (r1 & Er1 & Hr1 & Hq1);
    [done | done | by apply (bool_decide_unpack _) | done | done | done |].
  rewrite (bind_run _ _ _ _ _ Er1). cbv beta iota zeta.
  destruct (decide (USBG_SUCCESS ≠ USBG_SUCCESS)) as [?|_]; [done|].
  cbn [str_ser str_mnf str_prd].
  destruct (Hread "manufacturer" (str_mnf s) (str_mnf s0) r1)
    as (r2 & Er2 & Hr2 & Hq2);
    [done | done | by apply (bool_decide_unpack _) | done | done | done |].
  rewrite (bind_run _ _ _ _ _ Er2). cbv beta iota zeta.
  destruct (decide (USBG_SUCCESS ≠ USBG_SUCCESS)) as [?|_]; [done|].
  cbn [str_ser str_mnf str_prd].
  destruct (Hread "product" (str_prd s) (str_prd s0) r2)
    as (r3 & Er3 & Hr3 & Hq3);
    [done | done | by apply (bool_decide_unpack _) | done | done | done |].
  rewrite (bind_run _ _ _ _ _ Er3). cbv beta iota zeta.
  exists r3. split; [by destruct s|]. split; [done|].
  by rewrite Hq3, Hq2, Hq1.
Qed.

End Strings.

Lemma usbg_get_gadget_strs_after_set_witness :
  exists w'',
    @usbg_get_gadget_strs linux64 (Some 2%nat) LANG_US_ENG
      (Some {| str_ser := ""; str_mnf := ""; str_prd := "" |})
      sample_with_strs
    = Some (USBG_SUCCESS, Some sample_strs, w'')
    /\ w_fs w'' = w_fs sample_with_strs
    /\ w_heap w'' = w_heap sample_with_strs.
Proof.
  apply (@usbg_get_gadget_strs_after_set linux64 2%nat LANG_US_ENG
           sample_strs _ sample sample_with_strs).
  - repeat split; try discriminate; try decided; vm_compute; lia.
  - vm_compute. reflexivity.
Defined.
